(** * SOILIE-3D: triplet extraction, corpus aggregation, size estimation and
      layout reconstruction

    A shallow embedding of [collect_data.py] (classes [Frame] and
    [Object1]), of [modules/prepare_data.py] and of the quaternion functions
    of [modules/utils.py].  Python floats are idealised as real numbers
    with exact arithmetic; the only non-finite values kept are the ones numpy
    produces on a division by zero, because the extractor's behaviour on
    degenerate triplets depends on them.  Dictionaries are association lists
    in insertion order, as iteration order is observable in the code. *)

From Stdlib Require Import Reals Lra Lia List String Ascii Bool Arith.
From Stdlib Require Import Permutation Sorted.
Import ListNotations.

Local Open Scope string_scope.
Local Open Scope list_scope.

(** ** Python string methods used by the code *)

Module PyStr.

Definition rev (s : string) : string :=
  string_of_list_ascii (List.rev (list_ascii_of_string s)).

(** [s.lstrip(chars)] *)
Fixpoint lstrip (chars : list ascii) (s : string) : string :=
  match s with
  | EmptyString => EmptyString
  | String c s' =>
      if existsb (Ascii.eqb c) chars then lstrip chars s' else s
  end.

(** [s.rstrip(chars)] *)
Definition rstrip (chars : list ascii) (s : string) : string :=
  rev (lstrip chars (rev s)).

(** The ASCII characters for which [str.isspace] holds. *)
Definition whitespace : list ascii :=
  [" "; "009"; "010"; "011"; "012"; "013"; "028"; "029"; "030"; "031"]%char.

(** [s.strip()] *)
Definition strip (s : string) : string :=
  rstrip whitespace (lstrip whitespace s).

(** [s.replace(c, by)] for a one-character pattern [c] *)
Fixpoint replace (c : ascii) (by_ : string) (s : string) : string :=
  match s with
  | EmptyString => EmptyString
  | String d s' =>
      if Ascii.eqb d c then by_ ++ replace c by_ s'
      else String d (replace c by_ s')
  end.

(** [s.split(sep)] for a non-empty separator: [skip] counts the characters of
    a separator that was just recognised and are still to be passed over,
    [cur] is the current field, reversed. *)
Fixpoint split_aux (sep : string) (s : string) (skip : nat)
    (cur : list ascii) : list string :=
  match s with
  | EmptyString => [string_of_list_ascii (List.rev cur)]
  | String c s' =>
      match skip with
      | S k => split_aux sep s' k cur
      | O =>
          if String.prefix sep s
          then string_of_list_ascii (List.rev cur)
               :: split_aux sep s' (String.length sep - 1) []
          else split_aux sep s' 0 (c :: cur)
      end
  end.

Definition split (sep s : string) : list string := split_aux sep s 0 [].

(** [sep.join(l)] *)
Definition join (sep : string) (l : list string) : string :=
  String.concat sep l.

(** [s.rsplit(sep, 1)[0]] for a one-character separator: everything before
    the last occurrence of [sep], or the whole string when there is none. *)
Fixpoint rsplit1_head_aux (sep : ascii) (s : list ascii) : option (list ascii) :=
  match s with
  | [] => None
  | c :: s' =>
      match rsplit1_head_aux sep s' with
      | Some h => Some (c :: h)
      | None => if Ascii.eqb c sep then Some [] else None
      end
  end.

Definition rsplit1_head (sep : ascii) (s : string) : string :=
  match rsplit1_head_aux sep (list_ascii_of_string s) with
  | Some h => string_of_list_ascii h
  | None => s
  end.

(** [c in s] for a character. *)
Definition has_char (c : ascii) (s : string) : bool :=
  existsb (Ascii.eqb c) (list_ascii_of_string s).

End PyStr.

(** ** itertools.permutations *)

Section Permutations.
Context {A : Type}.

(** Every element of the list with the other elements, in position order. *)
Fixpoint select (l : list A) : list (A * list A) :=
  match l with
  | [] => []
  | x :: t => (x, t) :: map (fun '(y, r) => (y, x :: r)) (select t)
  end.

(** [permutations(l, r)]: the r-length arrangements of distinct positions,
    in lexicographic order of the positions. *)
Fixpoint permutations (r : nat) (l : list A) : list (list A) :=
  match r with
  | O => [[]]
  | S r' =>
      flat_map (fun '(x, rest) => map (cons x) (permutations r' rest))
               (select l)
  end.
End Permutations.

(** The number of r-length arrangements of n positions:
    n (n-1) ... (n-r+1). *)
Fixpoint arrangements (n r : nat) : nat :=
  match r with
  | O => 1
  | S r' => n * arrangements (n - 1) r'
  end.

(** ** numpy scalars *)

Module Np.

(** A float64 as numpy computes with it: a finite value (idealised as a real)
    or one of the non-finite results of a division by zero. *)
Inductive npfloat : Type :=
| Fin (r : R)
| PInf
| NInf
| NaN.

(** [x / y] on float64 scalars: a zero divisor gives [nan] or an infinity
    (with a RuntimeWarning), never an exception. *)
Definition divide (x y : R) : npfloat :=
  if Req_dec_T y 0 then
    if Req_dec_T x 0 then NaN
    else if Rlt_dec 0 x then PInf else NInf
  else Fin (x / y).

(** [np.arccos]: [nan] outside [-1, 1]. *)
Definition arccos (v : npfloat) : npfloat :=
  match v with
  | Fin c =>
      if Rle_dec (-1) c then
        if Rle_dec c 1 then Fin (acos c) else NaN
      else NaN
  | _ => NaN
  end.

(** [np.degrees] *)
Definition degrees (v : npfloat) : npfloat :=
  match v with
  | Fin a => Fin (a * (180 / PI))
  | _ => v
  end.

End Np.

(** ** Cells of a delimited text file *)

(** A field of a csv line: an object name or a number. [str] and [float]
    are taken to round-trip, so numbers are kept as values. *)
Inductive cell (V : Type) : Type :=
| Name (s : string)
| Val (v : V).
Arguments Name {V} s.
Arguments Val {V} v.

(** A csv file as pandas sees it: the header's column names and the rows. *)
Record csv (V : Type) : Type := mkCsv {
  header : list string;
  rows : list (list (cell V))
}.
Arguments mkCsv {V} header rows.
Arguments header {V} c.
Arguments rows {V} c.

Fixpoint index_of (name : string) (cols : list string) : option nat :=
  match cols with
  | [] => None
  | c :: cols' =>
      if String.eqb c name then Some O
      else option_map S (index_of name cols')
  end.

(** [row[name]] of a data frame row: the cell under the column called
    [name]; [None] is pandas' KeyError. *)
Definition column {V} (hdr : list string) (name : string)
    (row : list (cell V)) : option (cell V) :=
  match index_of name hdr with
  | Some i => nth_error row i
  | None => None
  end.

(** ** Exceptions as [option] *)

(** A computation that raises is [None]; [x <- e ;; k] runs [k] when [e]
    does not raise. *)
Definition bind {X Y : Type} (o : option X) (k : X -> option Y) : option Y :=
  match o with
  | Some x => k x
  | None => None
  end.

Notation "x <- e ;; k" := (bind e (fun x => k))
  (at level 61, e at next level, right associativity).

(** A [for] loop with a state and a body that may raise. *)
Definition foldM {S X : Type} (body : S -> X -> option S) (l : list X) (s : S)
    : option S :=
  fold_left (fun acc x => s' <- acc ;; body s' x) l (Some s).

(** A loop that collects one result per element and stops at the first
    exception. *)
Fixpoint mapM {X Y : Type} (f : X -> option Y) (l : list X) : option (list Y) :=
  match l with
  | [] => Some []
  | x :: t =>
      match f x with
      | Some y => option_map (cons y) (mapM f t)
      | None => None
      end
  end.

(** [d[k]] on a dictionary kept in insertion order; [None] is the KeyError. *)
Fixpoint lookup {V : Type} (k : string) (d : list (string * V)) : option V :=
  match d with
  | [] => None
  | (k', v) :: d' => if String.eqb k' k then Some v else lookup k d'
  end.

(** ** collect_data.py: class Frame *)

Module CollectData.
Import Np.
Local Open Scope R_scope.

Definition Vec3 : Type := R * R * R.

Definition vsub (u v : Vec3) : Vec3 :=
  let '(a, b, c) := u in let '(x, y, z) := v in (a - x, b - y, c - z).

(** [np.dot] *)
Definition dot (u v : Vec3) : R :=
  let '(a, b, c) := u in let '(x, y, z) := v in a * x + b * y + c * z.

(** [np.linalg.norm] *)
Definition norm (u : Vec3) : R := sqrt (dot u u).

(** The fields of [Frame] that the triplet extractor reads and writes. *)
Record Frame : Type := mkFrame {
  centroids : list (string * Vec3);
  combos : list (list (cell npfloat))
}.

(** The sensor origin of [getAngleDistCombos]: [np.array([0,0,0])]. *)
Definition O : Vec3 := (0, 0, 0).

(** [np.degrees(np.arccos(np.dot(u, v) / (norm(u) * norm(v))))] *)
Definition angle (u v : Vec3) : npfloat :=
  degrees (arccos (divide (dot u v) (norm u * norm v))).

Definition distAB (A B : Vec3) : R := norm (vsub A B).
Definition distAC (A C : Vec3) : R := norm (vsub A C).
Definition distAO (A : Vec3) : R := norm (vsub A O).
Definition angleBAC (A B C : Vec3) : npfloat := angle (vsub B A) (vsub C A).
Definition angleOAB (A B : Vec3) : npfloat := angle (vsub O A) (vsub B A).
Definition angleOAC (A C : Vec3) : npfloat := angle (vsub O A) (vsub C A).

(** The label formatting of [getAngleDistCombos]:
    [n = k.lstrip("[").rstrip("]").replace("'","").split(",")] and then
    ["_".join([n[0].replace(" ","_"), n[1].replace(" ","")])];
    [None] is the IndexError of [n[1]]. *)
Definition formatName (k : string) : option string :=
  match PyStr.split ","
          (PyStr.replace "'" "" (PyStr.rstrip ["]"%char] (PyStr.lstrip ["["%char] k)))
  with
  | n0 :: n1 :: _ =>
      Some (PyStr.join "_" [PyStr.replace " " "_" n0; PyStr.replace " " "" n1])
  | _ => None
  end.

(** The body of the loop over [combos]: one appended row, or an exception
    (a KeyError of [self.centroids], an IndexError). *)
Definition combo_row (cs : list (string * Vec3)) (combo : list string)
    : option (list (cell npfloat)) :=
  match combo with
  | k0 :: k1 :: k2 :: _ =>
      match lookup k0 cs, lookup k1 cs, lookup k2 cs with
      | Some A, Some B, Some C =>
          match formatName k0, formatName k1, formatName k2 with
          | Some nameA, Some nameB, Some nameC =>
              Some [Name nameA; Name nameB; Name nameC;
                    Val (Fin (distAB A B)); Val (Fin (distAC A C));
                    Val (Fin (distAO A));
                    Val (angleBAC A B C); Val (angleOAB A B);
                    Val (angleOAC A C)]
          | _, _, _ => None
          end
      | _, _, _ => None
      end
  | _ => None
  end.

(** [combos.append('---'.join(combo).split('---'))] over
    [permutations(names, 3)] *)
Definition name_combos (names : list string) : list (list string) :=
  map (fun combo => PyStr.split "---" (PyStr.join "---" combo))
      (permutations 3 names).

Definition getAngleDistCombos (f : Frame) : option Frame :=
  match mapM (combo_row (centroids f)) (name_combos (map fst (centroids f))) with
  | Some new => Some (mkFrame (centroids f) (combos f ++ new))
  | None => None
  end.

(** The header line that [export] writes, without its newline. *)
Definition export_header_line : string :=
  "objectA, objectB, objectC, distanceAB, distanceAC,distanceAO, angleOAB, angleOAC, angleBAC".

(** The csv part of [Frame.export], as [pd.read_csv] reads it back. *)
Definition export (f : Frame) : csv npfloat :=
  mkCsv (PyStr.split "," export_header_line) (combos f).

(** The cell of a row of the exported file under a header name, leading and
    trailing blanks of the header names apart. *)
Definition exported_column (name : string) (row : list (cell npfloat))
    : option (cell npfloat) :=
  column (map PyStr.strip (PyStr.split "," export_header_line)) name row.


(** The three labels a row starts with. *)
Definition row_names (row : list (cell npfloat)) : option (string * string * string) :=
  match row with
  | Name a :: Name b :: Name c :: _ => Some (a, b, c)
  | _ => None
  end.

(** The six numbers of a row, in the order [getAngleDistCombos] appends them:
    distAB, distAC, distAO, angleBAC, angleOAB, angleOAC. *)
Definition row_values (row : list (cell npfloat)) : list npfloat :=
  flat_map (fun c => match c with Val v => [v] | Name _ => [] end) row.


(** The extractor, run on frame [f], adds a row with these labels and these
    six numbers. *)
Definition produces (f : Frame) (names : string * string * string)
    (vals : list npfloat) : Prop :=
  exists f' row,
    getAngleDistCombos f = Some f' /\ In row (combos f')
    /\ row_names row = Some names /\ row_values row = vals.


(** The two parts that the label formatting joins with an underscore: the
    object's name, blanks turned into underscores, and its identifier. *)
Definition label_parts (k : string) : option (string * string) :=
  match PyStr.split ","
          (PyStr.replace "'" "" (PyStr.rstrip ["]"%char] (PyStr.lstrip ["["%char] k)))
  with
  | n0 :: n1 :: _ => Some (PyStr.replace " " "_" n0, PyStr.replace " " "" n1)
  | _ => None
  end.

(** An angle field of a row: undefined, or a number of degrees between 0
    and 180. *)
Definition valid_angle (v : npfloat) : Prop :=
  v = NaN \/ exists r, v = Fin r /\ 0 <= r <= 180.

Arguments distAB : simpl never.
Arguments distAC : simpl never.
Arguments distAO : simpl never.
Arguments angleBAC : simpl never.
Arguments angleOAB : simpl never.
Arguments angleOAC : simpl never.

End CollectData.

(** ** collect_data.py: class Object1 *)

Module Object1.

(** [getName]: the name split at its colons, every part stripped, and [None]
    appended when there is one part only. *)
Definition getName (name : string) : list (option string) :=
  let splitName := map PyStr.strip (PyStr.split ":" name) in
  if Nat.eqb (List.length splitName) 1
  then map Some splitName ++ [None]
  else map Some splitName.

Section Str.
(** [repr] of a string. *)
Variable repr_str : string -> string.

Definition repr_item (x : option string) : string :=
  match x with
  | Some s => repr_str s
  | None => "None"
  end.

(** [str] of a list: the [repr] of its items between brackets, separated by
    a comma and a blank. *)
Definition str_list (items : list (option string)) : string :=
  ("[" ++ PyStr.join ", " (map repr_item items) ++ "]")%string.

(** The key of an object in [polygons], and so in [centroids]:
    [str(currentObject.getName())]. *)
Definition polygon_key (name : string) : string := str_list (getName name).
End Str.

End Object1.

(** ** Concrete frames *)

Module Scenes.
Import CollectData.
Local Open Scope R_scope.

(** Dictionary keys are the [str] of [Object1.getName()]. *)
Definition keyA : string := "['A', None]".
Definition keyB : string := "['B', None]".
Definition keyC : string := "['C', None]".

(** The synthetic scene A=(0,0,0), B=(1,0,0), C=(0,1,0). *)
Definition synthetic : Frame :=
  mkFrame [(keyA, (0, 0, 0)); (keyB, (1, 0, 0)); (keyC, (0, 1, 0))] [].

(** The same scene seen from a sensor two units along the z axis, in the
    sensor's own coordinates (sensor at the origin). *)
Definition synthetic_from_sensor : Frame :=
  mkFrame [(keyA, (0, 0, -2)); (keyB, (1, 0, -2)); (keyC, (0, 1, -2))] [].

(** A scene in which angle OAB is 180 degrees and angle BAC is 90. *)
Definition aligned : Frame :=
  mkFrame [(keyA, (1, 0, 0)); (keyB, (2, 0, 0)); (keyC, (1, 1, 0))] [].

End Scenes.

(** ** Python builtins on lists of numbers *)

Module Py.
Local Open Scope R_scope.

(** [max] of a list; [None] is the ValueError on an empty list. *)
Definition max_float (l : list R) : option R :=
  match l with
  | [] => None
  | x :: t => Some (fold_left (fun best y => if Rlt_dec best y then y else best) t x)
  end.

Definition max_int (l : list nat) : option nat :=
  match l with
  | [] => None
  | x :: t => Some (fold_left Nat.max t x)
  end.

(** [min(a, b)]: the second argument only when it is smaller; [min] of a
    list folds it from the left. *)
Definition min2 (a b : R) : R := if Rlt_dec b a then b else a.

End Py.

(** ** modules/prepare_data.py: the corpus aggregator *)

Module Aggregator.
Local Open Scope R_scope.

(** [x.rsplit('_',1)[0]] *)
Definition canonical (s : string) : string := PyStr.rsplit1_head "_" s.

(** [row[col]] used as a string ([.rsplit]): a numeric cell raises. *)
Definition get_name (hdr : list string) (col : string) (row : list (cell R))
    : option string :=
  match column hdr col row with
  | Some (Name s) => Some s
  | _ => None
  end.

(** [float(row[col])]: a cell that holds a name raises. *)
Definition get_float (hdr : list string) (col : string) (row : list (cell R))
    : option R :=
  match column hdr col row with
  | Some (Val v) => Some v
  | _ => None
  end.

(** The value [averageTriplets] keeps per key: six lists and a count. *)
Record accum : Type := mkAccum {
  cols : list (list R);
  cnt : nat
}.

(** What the loop body of [averageTriplets] reads from one row: the key and
    [distAB, distAC, distAO, angBAC, angOAB, angOAC]. *)
Definition read_row (hdr : list string) (row : list (cell R))
    : option (string * list R) :=
  a <- get_name hdr "objectA" row ;;
  b <- get_name hdr "objectB" row ;;
  c <- get_name hdr "objectC" row ;;
  let triplet := PyStr.join "," [canonical a; canonical b; canonical c] in
  distAB <- get_float hdr "distanceAB" row ;;
  distAC <- get_float hdr "distanceAC" row ;;
  distAO <- get_float hdr "distanceAO" row ;;
  angBAC <- get_float hdr "angleOAB" row ;;
  angOAB <- get_float hdr "angleOAC" row ;;
  angOAC <- get_float hdr "angleBAC" row ;;
  Some (triplet, [distAB; distAC; distAO; angBAC; angOAB; angOAC]).

(** [averages[triplet][i].append(v_i)] for every i *)
Definition push (cs : list (list R)) (vals : list R) : list (list R) :=
  map (fun '(col, v) => col ++ [v]) (combine cs vals).

(** The update of [averages] by one observation: a new key goes to the end
    of the dictionary, a known one is updated in place. *)
Fixpoint add_observation (triplet : string) (vals : list R)
    (averages : list (string * accum)) : list (string * accum) :=
  match averages with
  | [] => [(triplet, mkAccum (map (fun v => [v]) vals) 1)]
  | (k, a) :: rest =>
      if String.eqb k triplet
      then (k, mkAccum (push (cols a) vals) (S (cnt a))) :: rest
      else (k, a) :: add_observation triplet vals rest
  end.

(** One scene file: the header names are stripped, then every row is read. *)
Definition average_file (averages : list (string * accum)) (f : csv R)
    : option (list (string * accum)) :=
  foldM (fun avs row =>
           o <- read_row (map PyStr.strip (header f)) row ;;
           Some (add_observation (fst o) (snd o) avs))
        (rows f) averages.

(** A row of [triplets_avg]. *)
Record AvgRow : Type := mkAvgRow {
  objectA : string;
  objectB : string;
  objectC : string;
  distanceAB : R;
  distanceAC : R;
  distanceAO : R;
  angleBAC : R;
  angleOAB : R;
  angleOAC : R;
  count : nat
}.

(** Python's [sum] *)
Definition sum (l : list R) : R := fold_left Rplus l 0.

(** [sum(values[i])/values[6]] *)
Definition mean_of (a : accum) (i : nat) : R :=
  sum (nth i (cols a) []) / INR (cnt a).

(** The second loop of [averageTriplets]; the unpacking of
    [triplet.split(',')] raises unless there are exactly three parts. *)
Definition output_row (entry : string * accum) : option AvgRow :=
  let '(triplet, values) := entry in
  match PyStr.split "," triplet with
  | [a; b; c] =>
      Some (mkAvgRow a b c
              (mean_of values 0) (mean_of values 1) (mean_of values 2)
              (mean_of values 3) (mean_of values 4) (mean_of values 5)
              (cnt values))
  | _ => None
  end.

(** The file as [df_trip.to_csv] writes it back, with clean column names. *)
Definition strip_columns (f : csv R) : csv R :=
  mkCsv (map PyStr.strip (header f)) (rows f).

(** [averageTriplets] on the scene files, in the order they are processed:
    the rewritten files and the table that is pickled. *)
Definition averageTriplets (files : list (csv R))
    : option (list (csv R) * list AvgRow) :=
  averages <- foldM average_file files [] ;;
  triplets <- mapM output_row averages ;;
  Some (map strip_columns files, triplets).

(** *** The single-file merge behind the sampling mode *)

Fixpoint set_nth {X : Type} (i : nat) (x : X) (l : list X) : list X :=
  match i, l with
  | _, [] => []
  | O, _ :: t => x :: t
  | S j, y :: t => y :: set_nth j x t
  end.

(** [df[col] = df[col].apply(lambda x: x.rsplit('_',1)[0])] on one row *)
Definition canonicalize_column (hdr : list string) (col : string)
    (row : list (cell R)) : option (list (cell R)) :=
  i <- index_of col hdr ;;
  c <- nth_error row i ;;
  match c with
  | Name s => Some (set_nth i (Name (canonical s)) row)
  | Val _ => None
  end.

Definition canonicalize_row (hdr : list string) (row : list (cell R))
    : option (list (cell R)) :=
  r1 <- canonicalize_column hdr "objectA" row ;;
  r2 <- canonicalize_column hdr "objectB" r1 ;;
  canonicalize_column hdr "objectC" r2.

(** The three [df[col] = df[col].apply(...)] of one file; a missing column
    raises even when the file has no rows. *)
Definition canonicalize_file (f : csv R) : option (list (list (cell R))) :=
  _ <- index_of "objectA" (header f) ;;
  _ <- index_of "objectB" (header f) ;;
  _ <- index_of "objectC" (header f) ;;
  mapM (canonicalize_row (header f)) (rows f).

Section Gather.
(** [DataFrame.sort_values] over all columns, a pandas function. *)
Variable sort_values : list (list (cell R)) -> list (list (cell R)).

(** [gatherTriplets] on the scene files, for files that share one header
    (pandas would align the columns of files that do not; that case is
    left out): the content of [triplets.csv]. *)
Definition gatherTriplets (files : list (csv R)) : option (csv R) :=
  master <- foldM (fun master f =>
                     rs <- canonicalize_file f ;;
                     Some (master ++ rs))
                  files [] ;;
  Some (mkCsv (match files with f :: _ => header f | [] => [] end)
              (sort_values master)).
End Gather.

(** *** The relation table as [calculateCoords] loads it *)

(** [dictionary[key] = comboData] *)
Fixpoint dict_set {V : Type} (k : string) (v : V) (d : list (string * V))
    : list (string * V) :=
  match d with
  | [] => [(k, v)]
  | (k', v') :: rest =>
      if String.eqb k' k then (k', v) :: rest else (k', v') :: dict_set k v rest
  end.

(** The loading of [triplets_avg.pickle] in averaging mode. *)
Definition averaging_dictionary (pickleData : list AvgRow)
    : list (string * list (cell R)) :=
  fold_left
    (fun dictionary r =>
       dict_set (objectA r ++ "," ++ objectB r ++ "," ++ objectC r)%string
                [Val (distanceAB r); Val (distanceAC r); Val (distanceAO r);
                 Val (angleBAC r); Val (angleOAB r); Val (angleOAC r);
                 Val (INR (count r))]
                dictionary)
    pickleData [].

Section Sampling.
(** [str] of a float, for a key cell that holds a number. *)
Variable repr_float : R -> string.
(** [df.sample(frac=1)]: the rows in a random order. *)
Variable sample : list (list (cell R)) -> list (list (cell R)).

Definition format_cell (c : cell R) : string :=
  match c with
  | Name s => s
  | Val v => repr_float v
  end.

Definition cell_eqb (c d : cell R) : bool :=
  match c, d with
  | Name s, Name t => String.eqb s t
  | Val v, Val w => if Req_dec_T v w then true else false
  | _, _ => false
  end.

(** [drop_duplicates(subset=..., keep='first')] on rows already paired
    with their subset cells. *)
Fixpoint drop_duplicates (seen : list (list (cell R)))
    (l : list (list (cell R) * list (cell R))) : list (list (cell R)) :=
  match l with
  | [] => []
  | (key, row) :: t =>
      if existsb (fun k => forallb (fun '(c, d) => cell_eqb c d) (combine k key)) seen
      then drop_duplicates seen t
      else row :: drop_duplicates (key :: seen) t
  end.

Definition subset_cells (hdr : list string) (row : list (cell R))
    : option (list (cell R)) :=
  a <- column hdr "objectA" row ;;
  b <- column hdr "objectB" row ;;
  c <- column hdr "objectC" row ;;
  Some [a; b; c].

(** The loading of [triplets.csv] in sampling mode. *)
Definition sampling_dictionary (triplets : csv R)
    : option (list (string * list (cell R))) :=
  let hdr := header triplets in
  keyed <- mapM (fun row => k <- subset_cells hdr row ;; Some (k, row))
                (sample (rows triplets)) ;;
  foldM (fun dictionary row =>
           objA <- column hdr "objectA" row ;;
           objB <- column hdr "objectB" row ;;
           objC <- column hdr "objectC" row ;;
           dAB <- column hdr "distanceAB" row ;;
           dAC <- column hdr "distanceAC" row ;;
           dAO <- column hdr "distanceAO" row ;;
           aBAC <- column hdr "angleBAC" row ;;
           aOAB <- column hdr "angleOAB" row ;;
           aOAC <- column hdr "angleOAC" row ;;
           Some (dict_set
                   (format_cell objA ++ "," ++ format_cell objB ++ ","
                    ++ format_cell objC)%string
                   [dAB; dAC; dAO; aBAC; aOAB; aOAC; Val 1]
                   dictionary))
        (drop_duplicates [] keyed) [].
End Sampling.

(** *** Vocabulary for the statements *)

(** The observations of a scene file and of a corpus, in reading order. *)
Definition file_observations (f : csv R) : option (list (string * list R)) :=
  mapM (read_row (map PyStr.strip (header f))) (rows f).

Definition corpus_observations (files : list (csv R))
    : option (list (string * list R)) :=
  option_map (@List.concat _) (mapM file_observations files).

(** The observations recorded under a key. *)
Definition group (key : string) (obs : list (string * list R)) : list (list R) :=
  map snd (filter (fun o => String.eqb (fst o) key) obs).

(** The arithmetic mean of field [i] over a group of observations. *)
Definition field_mean (i : nat) (g : list (list R)) : R :=
  sum (map (fun vals => nth i vals 0) g) / INR (List.length g).

(** The entry of the relation table for a group: six means and the count. *)
Definition mean_entry (g : list (list R)) : list (cell R) :=
  [Val (field_mean 0 g); Val (field_mean 1 g); Val (field_mean 2 g);
   Val (field_mean 3 g); Val (field_mean 4 g); Val (field_mean 5 g);
   Val (INR (List.length g))].

(** The loop of [averageTriplets] on observations already read. *)
Definition add_all (obs : list (string * list R))
    (averages : list (string * accum)) : list (string * accum) :=
  fold_left (fun avs o => add_observation (fst o) (snd o) avs) obs averages.

(** The six lists and the count that a group of observations leaves under
    its key. *)
Definition columns_of (g : list (list R)) : list (list R) :=
  map (fun i => map (fun vals => nth i vals 0) g) (seq 0 6).

Definition accum_of (g : list (list R)) : accum :=
  mkAccum (columns_of g) (List.length g).

(** The entry of a dictionary for the group of a key: none when the key has
    no observation. *)
Definition for_group {V : Type} (h : list (list R) -> V) (g : list (list R))
    : option V :=
  match g with
  | [] => None
  | _ :: _ => Some (h g)
  end.

(** What [averages] holds under a key: the columns and the count of the
    key's observations. *)
Definition holds (obs : list (string * list R)) (d : list (string * accum))
    : Prop :=
  forall k, lookup k d = for_group accum_of (group k obs).

(** The numbers [averageTriplets] outputs for an entry of [averages]. *)
Definition summary (a : accum) : list R * nat :=
  ([mean_of a 0; mean_of a 1; mean_of a 2;
    mean_of a 3; mean_of a 4; mean_of a 5], cnt a).

Definition summarise (e : string * accum) : string * (list R * nat) :=
  (fst e, summary (snd e)).

(** [output_row] from the numbers alone. *)
Definition summary_row (e : string * (list R * nat)) : option AvgRow :=
  match PyStr.split "," (fst e) with
  | [a; b; c] =>
      let ms := fst (snd e) in
      Some (mkAvgRow a b c (nth 0 ms 0) (nth 1 ms 0) (nth 2 ms 0)
              (nth 3 ms 0) (nth 4 ms 0) (nth 5 ms 0) (snd (snd e)))
  | _ => None
  end.

Definition summary_entry (s : list R * nat) : list (cell R) :=
  [Val (nth 0 (fst s) 0); Val (nth 1 (fst s) 0); Val (nth 2 (fst s) 0);
   Val (nth 3 (fst s) 0); Val (nth 4 (fst s) 0); Val (nth 5 (fst s) 0);
   Val (INR (snd s))].

(** The key and the [comboData] of a row of the pickled table. *)
Definition row_key (r : AvgRow) : string :=
  (objectA r ++ "," ++ objectB r ++ "," ++ objectC r)%string.

Definition comboData (r : AvgRow) : list (cell R) :=
  [Val (distanceAB r); Val (distanceAC r); Val (distanceAO r);
   Val (angleBAC r); Val (angleOAB r); Val (angleOAC r);
   Val (INR (count r))].

(** A cell of an exported file read back as a finite number. *)
Definition finite_cell (c : cell Np.npfloat) : option (cell R) :=
  match c with
  | Name s => Some (Name s)
  | Val (Np.Fin r) => Some (Val r)
  | Val _ => None
  end.



End Aggregator.

(** ** modules/prepare_data.py: the object size estimator *)

Module Sizes.
Import Np Py.
Local Open Scope R_scope.

(** *** pandas and numpy on series of numbers *)

Fixpoint insert (x : R) (l : list R) : list R :=
  match l with
  | [] => [x]
  | y :: t => if Rle_dec x y then x :: l else y :: insert x t
  end.

(** [Series.sort_values().reset_index(drop=True)]: ascending order. *)
Definition sort_values (l : list R) : list R := fold_right insert [] l.

(** The median of a series that is already in ascending order: the middle
    value, or the mean of the two middle values.  (Of an empty series pandas
    gives NaN; no list of distances in [sizes] is empty.) *)
Definition median_sorted (l : list R) : R :=
  let n := List.length l in
  if Nat.even n then (nth (n / 2 - 1) l 0 + nth (n / 2) l 0) / 2
  else nth (n / 2) l 0.

(** [Series.median()] and [np.median] *)
Definition median (l : list R) : R := median_sorted (sort_values l).

(** A Python float times a numpy scalar. *)
Definition scale (c : R) (v : npfloat) : npfloat :=
  match v with
  | Fin r => Fin (c * r)
  | NaN => NaN
  | PInf => if Req_dec_T c 0 then NaN else if Rlt_dec 0 c then PInf else NInf
  | NInf => if Req_dec_T c 0 then NaN else if Rlt_dec 0 c then NInf else PInf
  end.

(** *** The first half: distances of the 3D points to their centroid *)

(** A line of a [.3d] file once parsed: a list that does not have three
    elements is an object name, kept as its [repr]; else it is a point. *)
Inductive line3d : Type :=
| NameLine (name : string)
| PointLine (x2 y2 z2 : R).

(** [distances[name].append(...)], creating the list on first use. *)
Fixpoint append_to (name : string) (v : R) (d : list (string * list R))
    : list (string * list R) :=
  match d with
  | [] => [(name, [v])]
  | (k, l) :: rest =>
      if String.eqb k name then (k, l ++ [v]) :: rest
      else (k, l) :: append_to name v rest
  end.

(** [sizes[newName].extend(dist)], or [sizes[newName] = dist] on first use. *)
Fixpoint extend (name : string) (dist : list R) (d : list (string * list R))
    : list (string * list R) :=
  match d with
  | [] => [(name, dist)]
  | (k, l) :: rest =>
      if String.eqb k name then (k, l ++ dist) :: rest
      else (k, l) :: extend name dist rest
  end.

Section Gather.
(** [ast.literal_eval(obj)[0]]: the first element of the name list. *)
Variable literal_first : string -> option string.

(** One line of a [.3d] file; the variable [name] lives on from line to
    line, and from file to file. *)
Definition read_line (centroids : list (string * (R * R * R)))
    (st : option string * list (string * list R)) (line : line3d)
    : option (option string * list (string * list R)) :=
  let '(name, distances) := st in
  match line with
  | NameLine n => Some (Some n, distances)
  | PointLine x2 y2 z2 =>
      n <- name ;;
      c <- lookup n centroids ;;
      let '(x1, y1, z1) := c in
      Some (name,
            append_to n (sqrt ((x2 - x1) ^ 2 + (y2 - y1) ^ 2 + (z2 - z1) ^ 2))
                      distances)
  end.

(** One [.3d] file with the centroids of its scene. *)
Definition read_file (st : option string * list (string * list R))
    (f : list (string * (R * R * R)) * list line3d)
    : option (option string * list (string * list R)) :=
  let '(name, sizes) := st in
  r <- foldM (read_line (fst f)) (snd f) (name, []) ;;
  sizes' <- foldM (fun sz od =>
                     first <- literal_first (fst od) ;;
                     Some (extend (PyStr.replace " " "_" first) (snd od) sz))
                  (snd r) sizes ;;
  Some (fst r, sizes').

Definition gather_sizes
    (files : list (list (string * (R * R * R)) * list line3d))
    : option (list (string * list R)) :=
  option_map snd (foldM read_file files (None, [])).
End Gather.

(** *** The second half: diameters and confidences *)

(** [vals = sorted; vals = vals[:len(vals)-int(len(vals)/5)]; vals.median()] *)
Definition trimmed (dist : list R) : list R :=
  let vals := sort_values dist in
  firstn (List.length vals - List.length vals / 5) vals.

Definition trimmed_median (dist : list R) : R := median_sorted (trimmed dist).

(** [median_sizes]: per object the diameter and the number of points (the
    code keeps them as the text "diameter,count"). *)
Definition median_sizes (sizes : list (string * list R))
    : list (string * (R * nat)) :=
  map (fun od => (fst od, (trimmed_median (snd od), List.length (snd od))))
      sizes.

(** A line of [object_sizes.csv]. *)
Record SizeRow : Type := mkSizeRow {
  object : string;
  diameter : R;
  count : nat;
  confidence : npfloat
}.

(** The diameter used for the confidence of an object. *)
Definition confidence_diameter (medianDiameter d : R) : R :=
  if Rlt_dec 0 d then d else medianDiameter.

(** [(count/maxCount) * (maxDiameter/diameter)]; when the diameter is the
    numpy median, a zero divisor gives an infinity or NaN. *)
Definition confidence_of (maxCount : nat) (maxDiameter medianDiameter d : R)
    (n : nat) : npfloat :=
  scale (INR n / INR maxCount)
        (if Rlt_dec 0 d then Fin (maxDiameter / d)
         else divide maxDiameter medianDiameter).

(** From [median_sizes = {}] to the end of [approximateObjectSizes]. *)
Definition size_table (sizes : list (string * list R)) : option (list SizeRow) :=
  let ms := median_sizes sizes in
  maxCount <- max_int (map (fun e => snd (snd e)) ms) ;;
  maxDiameter <- max_float (map (fun e => fst (snd e)) ms) ;;
  let medianDiameter := median (map (fun e => fst (snd e)) ms) in
  Some (map (fun e =>
               mkSizeRow (fst e) (fst (snd e)) (snd (snd e))
                 (confidence_of maxCount maxDiameter medianDiameter
                    (fst (snd e)) (snd (snd e))))
            ms).

Section Whole.
Variable literal_first : string -> option string.

Definition approximateObjectSizes
    (files : list (list (string * (R * R * R)) * list line3d))
    : option (list SizeRow) :=
  sizes <- gather_sizes literal_first files ;;
  size_table sizes.
End Whole.

(** *** Vocabulary for the statements *)

(** The corpus-wide median diameter. *)
Definition medianDiameter (sizes : list (string * list R)) : R :=
  median (map (fun e => fst (snd e)) (median_sizes sizes)).

(** The size table records, for every object whose trimmed median is not
    positive, the corpus-wide median as its diameter, and uses it for the
    confidence. *)
Definition substitutes_median (sizes : list (string * list R)) : Prop :=
  forall table maxCount maxDiameter row dist,
    size_table sizes = Some table ->
    max_int (map (fun od => List.length (snd od)) sizes) = Some maxCount ->
    max_float (map (fun od => trimmed_median (snd od)) sizes) = Some maxDiameter ->
    In row table ->
    lookup (object row) sizes = Some dist ->
    trimmed_median dist <= 0 ->
    diameter row = medianDiameter sizes
    /\ confidence row
       = scale (INR (count row) / INR maxCount)
               (divide maxDiameter (medianDiameter sizes)).

(** Three objects with one point each, at distances 0, 1 and 2 from their
    centroids. *)
Definition three_objects : list (string * list R) :=
  [("x"%string, [0]); ("y"%string, [1]); ("z"%string, [2])].

(** *** The file [object_sizes.csv] *)

Section Write.
(** [str] of the numbers written to the file. *)
Variable repr_float : R -> string.
Variable repr_int : nat -> string.
Variable repr_confidence : npfloat -> string.

(** [obj+','+str(dist)+','+str(confidence)+'\n'], where [dist] is the text
    ["diameter,count"] kept in [median_sizes]. *)
Definition size_line (r : SizeRow) : string :=
  (object r ++ "," ++ (repr_float (diameter r) ++ "," ++ repr_int (count r))
   ++ "," ++ repr_confidence (confidence r) ++ String "010" "")%string.

(** The lines of the file that [approximateObjectSizes] writes. *)
Definition object_sizes_lines (table : list SizeRow) : list string :=
  ("object,diameter,count,confidence" ++ String "010" "")%string
  :: map size_line table.
End Write.

(** A list of distances as the first half leaves them: not empty, and with
    no negative number. *)
Definition gathered (dist : list R) : Prop :=
  dist <> [] /\ Forall (fun d => 0 <= d) dist.

(** One [.3d] file with one object and two of its points. *)
Definition chair_file : list (string * (R * R * R)) * list line3d :=
  ([("['chair', None]"%string, (0, 0, 0))],
   [NameLine "['chair', None]"; PointLine 3 4 0; PointLine 0 0 0]).

End Sizes.

(** ** modules/prepare_data.py: the global reconstruction solver *)

Module Solver.
Import Py Aggregator.
Local Open Scope R_scope.

(** How a call ends. *)
Inductive outcome (X : Type) : Type :=
| Returned (x : X)
| Exited (code : nat)
| Raised.
Arguments Returned {X} x.
Arguments Exited {X} code.
Arguments Raised {X}.

Definition Vec3 : Type := R * R * R.
Definition Vec4 : Type := R * R * R * R.

(** A value of [finalCoords]: a point, or the number under ['SCALE']. *)
Inductive entry : Type :=
| Point (p : Vec3)
| Scalar (v : R).

(** An element of [triplets]: [[objA,objB,objC,A,B,C,O,s]]. *)
Record Triplet : Type := mkTriplet {
  objA : string;
  objB : string;
  objC : string;
  ptA : Vec3;
  ptB : Vec3;
  ptC : Vec3;
  ptO : Vec3;
  scale : R
}.

(** *** The search for a permutation with enough data *)

(** [[[objs[0],objs[1],x] for x in objs[2:]]] *)
Definition combos_of (objs : list string) : list (list string) :=
  match objs with
  | a :: b :: rest => map (fun x => [a; b; x]) rest
  | _ => []
  end.

Definition in_dictionary {V : Type} (dictionary : list (string * V))
    (key : string) : bool :=
  match lookup key dictionary with
  | Some _ => true
  | None => false
  end.

(** The list [good] of an attempt. *)
Definition good_of {V : Type} (dictionary : list (string * V))
    (objs : list string) : list (list string) :=
  filter (fun combo => in_dictionary dictionary (PyStr.join "," combo))
         (combos_of objs).

(** [enoughData] at the end of an attempt: every requested object is in one
    of the good combos. *)
Definition enough {V : Type} (dictionary : list (string * V))
    (objects objs : list string) : bool :=
  forallb (fun obj =>
             existsb (String.eqb obj) (List.concat (good_of dictionary objs)))
          objects.

(** The loop over [objMix]; the state is [enoughData] and [good] (unbound
    before the first attempt). *)
Fixpoint attempts {V : Type} (dictionary : list (string * V))
    (objects : list string) (objMix : list (list string))
    (st : bool * option (list (list string)))
    : bool * option (list (list string)) :=
  match objMix with
  | [] => st
  | objs :: rest =>
      if enough dictionary objects objs
      then (true, Some (good_of dictionary objs))
      else attempts dictionary objects rest
             (false, Some (good_of dictionary objs))
  end.

(** *** The local layout of a triplet *)

(** [float(data[i])] *)
Definition float_cell (c : cell R) : option R :=
  match c with
  | Val v => Some v
  | Name _ => None
  end.

Definition data_float (data : list (cell R)) (i : nat) : option R :=
  c <- nth_error data i ;; float_cell c.

(** [math.radians] *)
Definition radians (x : R) : R := x * (PI / 180).

(** Python's float division and [math.sqrt]: both raise outside their
    domain. *)
Definition py_div (x y : R) : option R :=
  if Req_dec_T y 0 then None else Some (x / y).

Definition py_sqrt (x : R) : option R :=
  if Rle_dec 0 x then Some (sqrt x) else None.

(** [math.sqrt(sum((P-Q)**2 for P,Q in zip(P,Q)))] *)
Definition dist (p q : Vec3) : R :=
  let '(p0, p1, p2) := p in
  let '(q0, q1, q2) := q in
  sqrt (0 + (p0 - q0) ^ 2 + (p1 - q1) ^ 2 + (p2 - q2) ^ 2).

(** The body of the loop that fills [triplets]. *)
Definition local_triplet (dictionary : list (string * list (cell R)))
    (d_ab : R) (combo : list string) : option Triplet :=
  data <- lookup (PyStr.join "," combo) dictionary ;;
  match combo with
  | [objA; objB; objC] =>
      d_ac <- data_float data 1 ;;
      d_ao <- data_float data 2 ;;
      aBAC0 <- data_float data 3 ;;
      aOAB0 <- data_float data 4 ;;
      aOAC0 <- data_float data 5 ;;
      let aBAC := radians aBAC0 in
      let aOAB := radians aOAB0 in
      let aOAC := radians aOAC0 in
      let a := d_ac * cos aBAC in
      let b := d_ac * sin aBAC in
      let x := d_ao * cos aOAB in
      y <- py_div (d_ac * d_ao * cos aOAC - a * x) b ;;
      z <- py_sqrt (d_ao ^ 2 - x ^ 2 - y ^ 2) ;;
      let A := (0, 0, 0) in
      let B := (d_ab, 0, 0) in
      let C := (a, b, 0) in
      let O := (x, y, z) in
      let d_bc := dist B C in
      let d_bo := dist B O in
      let d_co := dist C O in
      let s := fold_left min2 [d_ac; d_bc; d_ao; d_bo; d_co] d_ab in
      Some (mkTriplet objA objB objC A B C O s)
  | _ => None
  end.

(** [all_ab_dists], [d_ab = max(all_ab_dists)] and the list [triplets]. *)
Definition local_triplets (dictionary : list (string * list (cell R)))
    (combos : list (list string)) : option (list Triplet) :=
  all_ab_dists <- mapM (fun combo =>
                          data <- lookup (PyStr.join "," combo) dictionary ;;
                          data_float data 0)
                       combos ;;
  d_ab <- max_float all_ab_dists ;;
  mapM (local_triplet dictionary d_ab) combos.

(** *** The merge into one frame *)

Section Merge.
(** The rounding of [np.array(pts, np.float32)]. *)
Variable float32 : R -> R.
(** [np.linalg.lstsq(curr, base, rcond=-1)[0]] on 4x4 arrays: the rows of
    the fitted 4x4 matrix. *)
Variable lstsq : list Vec4 -> list Vec4 -> Vec4 * Vec4 * Vec4 * Vec4.

Definition array32 (pts : list Vec3) : list Vec3 :=
  map (fun '(x, y, z) => (float32 x, float32 y, float32 z)) pts.

(** [[sum(z[0])/3, sum(z[1])/3, sum(z[2])/3]] for [z = zip(p0, p1, p2)] *)
Definition fourth_point (p0 p1 p2 : Vec3) : Vec3 :=
  let '(x0, y0, z0) := p0 in
  let '(x1, y1, z1) := p1 in
  let '(x2, y2, z2) := p2 in
  ((0 + x0 + x1 + x2) / 3, (0 + y0 + y1 + y2) / 3, (0 + z0 + z1 + z2) / 3).

Definition pad (p : Vec3) : Vec4 := let '(x, y, z) := p in (x, y, z, 1).

(** [unpad(np.dot(pad(x), A))] on one row *)
Definition transform_row (M : Vec4 * Vec4 * Vec4 * Vec4) (p : Vec3) : Vec3 :=
  let '(x, y, z, w) := pad p in
  let '(r0, r1, r2, r3) := M in
  let '(a0, a1, a2, _) := r0 in
  let '(b0, b1, b2, _) := r1 in
  let '(c0, c1, c2, _) := r2 in
  let '(e0, e1, e2, _) := r3 in
  (x * a0 + y * b0 + z * c0 + w * e0,
   x * a1 + y * b1 + z * c1 + w * e1,
   x * a2 + y * b2 + z * c2 + w * e2).

(** [isNear] *)
Definition isNear (p q : Vec3) : bool :=
  let '(p0, p1, p2) := p in
  let '(q0, q1, q2) := q in
  if Rlt_dec (0 + (p0 - q0) ^ 2 + (p1 - q1) ^ 2 + (p2 - q2) ^ 2) (1 / 10000)
  then true else false.

Definition vec3_eqb (p q : Vec3) : bool :=
  let '(p0, p1, p2) := p in
  let '(q0, q1, q2) := q in
  if Req_dec_T p0 q0 then
    if Req_dec_T p1 q1 then
      if Req_dec_T p2 q2 then true else false
    else false
  else false.

(** The 4-point frame of a triplet: A, B, O and their centroid. *)
Definition frame_of (t : Triplet) : list Vec3 :=
  [ptA t; ptB t; ptO t; fourth_point (ptA t) (ptB t) (ptO t)].

(** The body of the loop over [triplets[1:]]. *)
Definition merge_triplet (baseCoords : list Vec3)
    (finalCoords : list (string * entry)) (t : Triplet)
    : option (list (string * entry)) :=
  let pts := frame_of t in
  let coords := array32 pts in
  let M := lstsq (map pad coords) (map pad baseCoords) in
  let coordsNew := map (transform_row M) (array32 (pts ++ [ptC t])) in
  let corresp := filter (fun coord => existsb (isNear coord) baseCoords)
                        coordsNew in
  match filter (fun x => negb (existsb (vec3_eqb x) corresp)) coordsNew with
  | [] => None
  | c :: _ =>
      let fc := dict_set (objC t) (Point c) finalCoords in
      match lookup "SCALE" fc with
      | Some (Scalar current) =>
          Some (dict_set "SCALE" (Scalar (min2 (scale t) current)) fc)
      | _ => None
      end
  end.

(** From [pts = [triplets[0][3], ...]] to [return finalCoords]. *)
Definition merge (triplets : list Triplet) : option (list (string * entry)) :=
  match triplets with
  | [] => None
  | t0 :: others =>
      let baseCoords := array32 (frame_of t0) in
      let finalCoords :=
        dict_set "SCALE" (Scalar (scale t0))
          (dict_set "CAMERA" (Point (ptO t0))
             (dict_set (objC t0) (Point (ptC t0))
                (dict_set (objB t0) (Point (ptB t0))
                   (dict_set (objA t0) (Point (ptA t0)) [])))) in
      foldM (merge_triplet baseCoords) others finalCoords
  end.
End Merge.

(** *** loadObjectSizes *)

Section Load.
(** [float] of a text. *)
Variable parse_float : string -> option R.

(** [loadObjectSizes] on the lines of [object_sizes.csv]; no lines: the
    file cannot be opened. *)
Definition loadObjectSizes (sFile : option (list string))
    : option (list (string * R)) :=
  lines <- sFile ;;
  foldM (fun sizes line =>
           let item := PyStr.split "," line in
           d <- nth_error item 1 ;;
           v <- parse_float d ;;
           k <- nth_error item 0 ;;
           Some (dict_set k v sizes))
        (tl lines) [].
End Load.

(** *** calculateCoords *)

(** The files [calculateCoords] reads; [None]: the file cannot be opened. *)
Record Files : Type := mkFiles {
  triplets_avg_pickle : option (list AvgRow);
  triplets_csv : option (csv R);
  object_sizes_csv : option (list string)
}.

Inductive loaded : Type :=
| WrongMethod
| LoadError
| Loaded (dictionary : list (string * list (cell R))).

Section Calculate.
Variable parse_float : string -> option R.
Variable repr_float : R -> string.
(** [df.sample(frac=1)] and [random.shuffle] *)
Variable sample : list (list (cell R)) -> list (list (cell R)).
Variable shuffle : list (list string) -> list (list string).
Variable float32 : R -> R.
Variable lstsq : list Vec4 -> list Vec4 -> Vec4 * Vec4 * Vec4 * Vec4.

Definition load_dictionary (fs : Files) (method : string) : loaded :=
  if String.eqb method "averaging" then
    match triplets_avg_pickle fs with
    | Some pickleData => Loaded (averaging_dictionary pickleData)
    | None => LoadError
    end
  else if String.eqb method "sampling" then
    match triplets_csv fs with
    | Some df =>
        match sampling_dictionary repr_float sample df with
        | Some dictionary => Loaded dictionary
        | None => LoadError
        end
    | None => LoadError
    end
  else WrongMethod.

(** From [all_ab_dists = []] to the end; the loaded [sizes] are not an
    argument: the code never reads them. *)
Definition reconstruct (dictionary : list (string * list (cell R)))
    (combos : list (list string)) : option (list (string * entry)) :=
  triplets <- local_triplets dictionary combos ;;
  merge float32 lstsq triplets.

Definition calculateCoords (fs : Files) (objects : list string)
    (method : string) : outcome (list (string * entry)) :=
  match load_dictionary fs method with
  | WrongMethod => Returned []
  | LoadError => Raised
  | Loaded dictionary =>
      let objMix := shuffle (permutations (List.length objects) objects) in
      match attempts dictionary objects objMix (true, None) with
      | (false, _) => Exited 1
      | (true, None) => Raised
      | (true, Some combos) =>
          match loadObjectSizes parse_float (object_sizes_csv fs) with
          | None => Raised
          | Some sizes =>
              match reconstruct dictionary combos with
              | Some finalCoords => Returned finalCoords
              | None => Raised
              end
          end
      end
  end.
End Calculate.

(** *** Vocabulary for the statements *)

(** [m] is the minimum of the list [l]. *)
Definition is_min (m : R) (l : list R) : Prop :=
  In m l /\ forall x, In x l -> m <= x.


(** The data model's invariant on the relation table: the three distances
    of every entry are not negative. *)
Definition nonneg_distances (dictionary : list (string * list (cell R)))
    : Prop :=
  forall key data i v,
    lookup key dictionary = Some data -> (i < 3)%nat ->
    nth_error data i = Some (Val v) -> 0 <= v.

(** [key in d] *)
Definition has_key {V : Type} (k : string) (d : list (string * V)) : Prop :=
  lookup k d <> None.

(** A relation table with entries for the anchor pair (A,B) and the third
    object C only, and requests for it. *)
Definition abc_table : list AvgRow :=
  [mkAvgRow "A" "B" "C" 1 1 1 90 90 90 1].

Definition abc_files : Files :=
  mkFiles (Some abc_table) None (Some ["object,diameter,count,confidence"%string]).

Definition identity_matrix : Vec4 * Vec4 * Vec4 * Vec4 :=
  ((1, 0, 0, 0), (0, 1, 0, 0), (0, 0, 1, 0), (0, 0, 0, 1)).

End Solver.

(** ** Concrete corpora *)

Module Corpora.
Local Open Scope R_scope.

(** The file [Frame.export] writes for the row of (A,B,C) of the frame
    [Scenes.aligned]: distances 1, 1, 1 and, in the order the extractor
    appends them, angle BAC = 90, angle OAB = 180, angle OAC = 90. *)
Definition exported_scene : csv R :=
  mkCsv (PyStr.split "," CollectData.export_header_line)
        [[Name "A_None"; Name "B_None"; Name "C_None";
          Val 1; Val 1; Val 1; Val 90; Val 180; Val 90]].

(** A second scene with one more sighting of (A,B,C) and a sighting of
    (A,B,D). *)
Definition second_scene : csv R :=
  mkCsv (PyStr.split "," CollectData.export_header_line)
        [[Name "A_2"; Name "B_None"; Name "C_1";
          Val 3; Val 5; Val 7; Val 30; Val 60; Val 45];
         [Name "A_2"; Name "B_None"; Name "D_None";
          Val 2; Val 2; Val 2; Val 60; Val 60; Val 60]].

Definition two_scenes : list (csv R) := [exported_scene; second_scene].

(** The columns of a scene file once [averageTriplets] has cleaned them. *)
Definition clean_header : list string :=
  ["objectA"; "objectB"; "objectC"; "distanceAB"; "distanceAC"; "distanceAO";
   "angleOAB"; "angleOAC"; "angleBAC"].

(** The one row of [triplets.csv] for the corpus [[exported_scene]]. *)
Definition merged_row : list (cell R) :=
  [Name "A"; Name "B"; Name "C"; Val 1; Val 1; Val 1; Val 90; Val 180; Val 90].

End Corpora.

(** ** collect_data.py: class Object1 as a record *)

Module ObjectState.
Import Aggregator.

(** [int(x)] of a float: truncation towards zero. *)
Definition py_int (x : R) : Z :=
  if Rle_dec 0 x then Int_part x else (- Int_part (- x))%Z.

(** [setRandomColour]: [r1], [r2], [r3] are the results of the three calls
    of [random.random()], and [col] that of [random.randrange(0,3)]. *)
Definition setRandomColour (r1 r2 r3 : R) (col : Z) : Z * Z * Z * Z :=
  let R0 := py_int (r1 * 255) in
  let G0 := py_int (r2 * 255) in
  let B0 := py_int (r3 * 255) in
  if ((R0 <? 100) && (G0 <? 100) && (B0 <? 100))%Z%bool then
    if (col =? 0)%Z then ((R0 + 100)%Z, G0, B0, 140%Z)
    else if (col =? 1)%Z then (R0, (G0 + 100)%Z, B0, 140%Z)
    else (R0, G0, (B0 + 100)%Z, 140%Z)
  else (R0, G0, B0, 140%Z).

(** The fields of an object that [updateID] and [addFrame] change; a frame
    is known by its identity, as [Frame] has no equality of its own. *)
Record Object1 : Type := mkObject1 {
  ID : nat;
  name : string;
  frames : list (string * list nat);
  oldIDs : list nat
}.

(** [Object1(ID, name)], the colour apart. *)
Definition init (ID0 : nat) (name0 : string) : Object1 :=
  mkObject1 ID0 name0 [] [].

Definition updateID (ID' : nat) (o : Object1) : Object1 :=
  mkObject1 ID' (name o) (frames o)
    (if Nat.eqb ID' (ID o) then oldIDs o else oldIDs o ++ [ID o]).

(** [self.frames[location].append(f)] unless [f] is in the list; the key
    exists when this runs. *)
Fixpoint append_frame (location : string) (f : nat)
    (d : list (string * list nat)) : list (string * list nat) :=
  match d with
  | [] => []
  | (k, l) :: rest =>
      if String.eqb k location
      then (k, if existsb (Nat.eqb f) l then l else l ++ [f]) :: rest
      else (k, l) :: append_frame location f rest
  end.

Definition addFrame (location : string) (f : nat) (o : Object1) : Object1 :=
  let frames1 :=
    match lookup location (frames o) with
    | Some _ => frames o
    | None => dict_set location [] (frames o)
    end in
  mkObject1 (ID o) (name o) (append_frame location f frames1) (oldIDs o).

(** *** Vocabulary for the statements *)

(** The identifiers an object has had, the current one last. *)
Definition history (o : Object1) : list nat := oldIDs o ++ [ID o].

(** No two neighbours of the list are equal. *)
Fixpoint no_stutter (l : list nat) : Prop :=
  match l with
  | a :: (b :: _) as t => a <> b /\ no_stutter t
  | _ => True
  end.

(** An object after a run of calls of [updateID]. *)
Definition updates (ids : list nat) (o : Object1) : Object1 :=
  fold_left (fun o' i => updateID i o') ids o.

(** An object after a run of calls of [addFrame]. *)
Definition sightings (fs : list (string * nat)) (o : Object1) : Object1 :=
  fold_left (fun o' lf => addFrame (fst lf) (snd lf) o') fs o.

End ObjectState.

(** ** collect_data.py: Frame.calculateCentroids *)

Module Centroids.
Import Aggregator.
Local Open Scope R_scope.

Definition Vec3 : Type := R * R * R.

(** [sum(l)/len(l)]; [None] is the ZeroDivisionError on an empty list. *)
Definition mean (l : list R) : option R :=
  match l with
  | [] => None
  | _ => Some (sum l / INR (List.length l))
  end.

(** The 2D centroid of a polygon, where its label is drawn. *)
Definition label (coords : list (Z * Z)) : option (R * R) :=
  centX <- mean (map (fun c => IZR (fst c)) coords) ;;
  centY <- mean (map (fun c => IZR (snd c)) coords) ;;
  Some (centX, centY).

(** The first loop: a label for every polygon. *)
Definition labels_of (polygons : list (string * list (Z * Z)))
    (labels : list (string * (R * R))) : option (list (string * (R * R))) :=
  foldM (fun lb poly =>
           l <- label (snd poly) ;;
           Some (dict_set (fst poly) l lb))
        polygons labels.

Section Frame.
(** The frame: its size, the array [valid] (indexed [valid[x][y]], with an
    entry for every cell of the frame) and the world coordinates [xyz] of
    the valid cells. *)
Variable width height : nat.
Variable valid : nat -> nat -> bool.
Variable xyz : list Vec3.
(** [path.Path(coords, closed=True).contains_points(template)] *)
Variable contains_points : list (Z * Z) -> list (nat * nat) -> list bool.

(** [[(y,x) for y in rangeY for x in rangeX]] *)
Definition template : list (nat * nat) :=
  flat_map (fun y => map (fun x => (y, x)) (seq 0 height)) (seq 0 width).

(** [c[0]<self.width and c[1]<self.height and c[0]>=0 and c[1]>=0] *)
Definition in_frame (c : Z * Z) : bool :=
  ((fst c <? Z.of_nat width)%Z && (snd c <? Z.of_nat height)%Z
   && (0 <=? fst c)%Z && (0 <=? snd c)%Z)%bool.

(** The body of the two nested loops over [objectPts]: the state is [count]
    and [pts3d]; [None] is the IndexError of [self.xyz[count]]. *)
Definition scan_cell (st : nat * list Vec3) (cell : (nat * nat) * bool)
    : option (nat * list Vec3) :=
  let '(count, pts3d) := st in
  let '((y, x), row) := cell in
  pts3d' <- (if (row && valid x y)%bool
             then p <- nth_error xyz count ;; Some (pts3d ++ [p])
             else Some pts3d) ;;
  Some (if valid x y then S count else count, pts3d').

(** The 3D points of a polygon; [np.reshape] raises when the number of
    answers is not that of the cells. *)
Definition points_of (coords : list (Z * Z)) : option (list Vec3) :=
  let objectPts := contains_points coords template in
  if Nat.eqb (List.length objectPts) (width * height)
  then option_map snd (foldM scan_cell (combine template objectPts) (0%nat, []))
  else None.

Definition centroid (pts3d : list Vec3) : option Vec3 :=
  X <- mean (map (fun p => fst (fst p)) pts3d) ;;
  Y <- mean (map (fun p => snd (fst p)) pts3d) ;;
  Z <- mean (map (fun p => snd p) pts3d) ;;
  Some (X, Y, Z).

(** The body of the second loop; the state is [objects3d] and [centroids]. *)
Definition object_step
    (st : list (string * list Vec3) * list (string * Vec3))
    (poly : string * list (Z * Z))
    : option (list (string * list Vec3) * list (string * Vec3)) :=
  let '(objects3d, centroids) := st in
  match filter in_frame (snd poly) with
  | [] => Some st
  | coords =>
      pts3d <- points_of coords ;;
      match pts3d with
      | [] => Some st
      | _ =>
          c <- centroid pts3d ;;
          Some (dict_set (fst poly) pts3d objects3d,
                dict_set (fst poly) c centroids)
      end
  end.

(** [calculateCentroids] on the three dictionaries it fills. *)
Definition calculateCentroids (polygons : list (string * list (Z * Z)))
    (labels : list (string * (R * R)))
    (objects3d : list (string * list Vec3))
    (centroids : list (string * Vec3))
    : option (list (string * (R * R))
              * (list (string * list Vec3) * list (string * Vec3))) :=
  labels' <- labels_of polygons labels ;;
  r <- foldM object_step polygons (objects3d, centroids) ;;
  Some (labels', r).

(** What [objects3d] and [centroids] say of one another: they have the same
    keys, and every centroid is that of the recorded points of its object,
    which are points of [xyz], for a polygon with a vertex in the frame. *)
Definition agree (polygons : list (string * list (Z * Z)))
    (st : list (string * list Vec3) * list (string * Vec3)) : Prop :=
  map fst (fst st) = map fst (snd st)
  /\ forall name c,
       lookup name (snd st) = Some c ->
       (exists coords, In (name, coords) polygons
                       /\ filter in_frame coords <> [])
       /\ exists pts3d,
            lookup name (fst st) = Some pts3d
            /\ pts3d <> [] /\ incl pts3d xyz
            /\ centroid pts3d = Some c.
End Frame.

(** *** Vocabulary for the statements *)

(** The point lies in the box between the corners [lo] and [hi]. *)
Definition in_box (lo hi p : Vec3) : Prop :=
  fst (fst lo) <= fst (fst p) <= fst (fst hi)
  /\ snd (fst lo) <= snd (fst p) <= snd (fst hi)
  /\ snd lo <= snd p <= snd hi.

(** A frame of two cells by one, both valid, and a polygon over the first
    cell. *)
Definition two_cells : list Vec3 := [(1, 2, 3); (3, 2, 1)].

Definition first_cell (coords : list (Z * Z)) (cells : list (nat * nat))
    : list bool :=
  map (fun c => Nat.eqb (fst c) 0) cells.

End Centroids.

(** ** modules/utils.py: quaternions *)

Module Utils.
Local Open Scope R_scope.

Definition Vec3 : Type := R * R * R.
Definition Mat3 : Type := Vec3 * Vec3 * Vec3.

Definition quaternion_to_rotation_matrix (quat : R * R * R * R) : Mat3 :=
  let '(a, b, c, d) := quat in
  ((1 - 2 * (c ^ 2 + d ^ 2), 2 * (b * c - a * d), 2 * (a * c + b * d)),
   (2 * (b * c + a * d), 1 - 2 * (b ^ 2 + d ^ 2), 2 * (c * d - a * b)),
   (2 * (b * d - a * c), 2 * (a * b + c * d), 1 - 2 * (b ^ 2 + c ^ 2))).

Definition quaternion_rotation_matrix (Q : R * R * R * R) : Mat3 :=
  let '(q0, q1, q2, q3) := Q in
  let r00 := 2 * (q0 * q0 + q1 * q1) - 1 in
  let r01 := 2 * (q1 * q2 - q0 * q3) in
  let r02 := 2 * (q1 * q3 + q0 * q2) in
  let r10 := 2 * (q1 * q2 + q0 * q3) in
  let r11 := 2 * (q0 * q0 + q2 * q2) - 1 in
  let r12 := 2 * (q2 * q3 - q0 * q1) in
  let r20 := 2 * (q1 * q3 - q0 * q2) in
  let r21 := 2 * (q2 * q3 + q0 * q1) in
  let r22 := 2 * (q0 * q0 + q3 * q3) - 1 in
  ((r00, r01, r02), (r10, r11, r12), (r20, r21, r22)).

(** *** Vocabulary for the statements *)

(** The squared length of a quaternion. *)
Definition norm2 (quat : R * R * R * R) : R :=
  let '(a, b, c, d) := quat in a * a + b * b + c * c + d * d.

Definition dot (u v : Vec3) : R :=
  let '(a, b, c) := u in let '(x, y, z) := v in a * x + b * y + c * z.

(** The product of a matrix and a column vector. *)
Definition apply (M : Mat3) (v : Vec3) : Vec3 :=
  let '(r0, r1, r2) := M in (dot r0 v, dot r1 v, dot r2 v).

Definition det (M : Mat3) : R :=
  let '((a, b, c), (d, e, f), (g, h, i)) := M in
  a * (e * i - f * h) - b * (d * i - f * g) + c * (d * h - e * g).

End Utils.

(** * Properties *)

(** ** The Python helpers on examples *)

Example rsplit_coffee_table :
  PyStr.rsplit1_head "_" "coffee_table_2" = "coffee_table".
Proof. reflexivity. Qed.

Example rsplit_no_separator : PyStr.rsplit1_head "_" "chair" = "chair".
Proof. reflexivity. Qed.

Example split_dashes : PyStr.split "---" "a-----b---" = ["a"; "--b"; ""].
Proof. reflexivity. Qed.

Example permutations_3_2 :
  permutations 2 [1; 2; 3]%nat
  = [[1; 2]; [1; 3]; [2; 1]; [2; 3]; [3; 1]; [3; 2]]%nat.
Proof. reflexivity. Qed.

Example formatName_chair :
  CollectData.formatName "['coffee table', '2']" = Some "coffee_table_2".
Proof. reflexivity. Qed.

Example formatName_bare : CollectData.formatName "A" = None.
Proof. reflexivity. Qed.

(** ** Loops that stop at the first exception *)

Section MapM.
Context {X Y : Type} (f : X -> option Y).

Lemma mapM_Forall2 (l : list X) (ys : list Y) :
  mapM f l = Some ys <-> Forall2 (fun x y => f x = Some y) l ys.
Proof.
  revert ys; induction l as [| x t IH]; intros ys; simpl.
  - split.
    + intros [= <-]. constructor.
    + intros H. inversion H. reflexivity.
  - destruct (f x) as [y |] eqn:Hx.
    + destruct (mapM f t) as [ys' |] eqn:Ht; simpl.
      * split.
        -- intros [= <-]. constructor; [assumption | now apply IH].
        -- intros H. inversion H as [| ? y0 ? ys0 Hy Hrest]; subst.
           apply IH in Hrest. congruence.
      * split; [discriminate |].
        intros H. inversion H as [| ? y0 ? ys0 Hy Hrest]; subst.
        apply IH in Hrest. discriminate.
    + split; [discriminate |].
      intros H. inversion H; congruence.
Qed.



Lemma mapM_length (l : list X) (ys : list Y) :
  mapM f l = Some ys -> List.length ys = List.length l.
Proof.
  intros H. apply mapM_Forall2 in H.
  symmetry. eapply Forall2_length; eassumption.
Qed.
End MapM.

(** ** The triplet geometry extractor *)

Module ExtractorFacts.
Import Np CollectData Scenes.
Local Open Scope R_scope.

Lemma divide_nonzero (x y : R) : y <> 0 -> divide x y = Fin (x / y).
Proof.
  intros H. unfold divide.
  destruct (Req_dec_T y 0); [contradiction | reflexivity].
Qed.

Lemma divide_0_0 (x y : R) : x = 0 -> y = 0 -> divide x y = NaN.
Proof.
  intros -> ->. unfold divide.
  destruct (Req_dec_T 0 0) as [_ | H]; [reflexivity | now elim H].
Qed.

Lemma dot_self_nonneg (u : Vec3) : 0 <= dot u u.
Proof. destruct u as [[a b] c]. simpl. nra. Qed.

Lemma norm_of_square (u : Vec3) (n : R) :
  0 <= n -> dot u u = n * n -> norm u = n.
Proof. intros Hn H. unfold norm. rewrite H. now apply sqrt_square. Qed.

(** The norm of a concrete vector whose length is a known number. *)
Ltac norm_is := apply norm_of_square; [lra | simpl; ring].

Lemma norm_zero_vec (u : Vec3) : norm u = 0 -> u = (0, 0, 0).
Proof.
  unfold norm. intros H.
  apply sqrt_eq_0 in H; [| apply dot_self_nonneg].
  destruct u as [[a b] c]. simpl in H.
  assert (a = 0) by nra. assert (b = 0) by nra. assert (c = 0) by nra.
  now subst.
Qed.

Lemma angle_zero_l (u v : Vec3) : norm u = 0 -> angle u v = NaN.
Proof.
  intros H. unfold angle. rewrite divide_0_0; [reflexivity | |].
  - apply norm_zero_vec in H. subst u. destruct v as [[x y] z]. simpl. ring.
  - rewrite H. ring.
Qed.


Lemma degrees_right : degrees (Fin (PI / 2)) = Fin 90.
Proof. simpl. f_equal. field. apply PI_neq0. Qed.

Lemma degrees_straight : degrees (Fin PI) = Fin 180.
Proof. simpl. f_equal. field. apply PI_neq0. Qed.

Lemma angle_orthogonal (u v : Vec3) :
  dot u v = 0 -> norm u <> 0 -> norm v <> 0 -> angle u v = Fin 90.
Proof.
  intros Hd Hu Hv. unfold angle. rewrite divide_nonzero, Hd.
  - replace (0 / (norm u * norm v)) with 0 by (field; split; assumption).
    unfold arccos.
    destruct (Rle_dec (-1) 0); [| lra]. destruct (Rle_dec 0 1); [| lra].
    rewrite acos_0. apply degrees_right.
  - apply Rmult_integral_contrapositive_currified; assumption.
Qed.

Lemma angle_opposite (u v : Vec3) :
  dot u v = - (norm u * norm v) -> norm u <> 0 -> norm v <> 0 ->
  angle u v = Fin 180.
Proof.
  intros Hd Hu Hv. unfold angle. rewrite divide_nonzero, Hd.
  - replace (- (norm u * norm v) / (norm u * norm v)) with (- (1))
      by (field; split; assumption).
    unfold arccos.
    destruct (Rle_dec (-1) (- (1))); [| lra].
    destruct (Rle_dec (- (1)) 1); [| lra].
    rewrite acos_opp, acos_1, Rminus_0_r. apply degrees_straight.
  - apply Rmult_integral_contrapositive_currified; assumption.
Qed.


(** What the file holds under each of its angle headers. *)
Lemma exported_columns (cs : list (string * Vec3)) (combo : list string)
    (row : list (cell npfloat)) :
  combo_row cs combo = Some row ->
  exists A B C,
    row_values row = [Fin (distAB A B); Fin (distAC A C); Fin (distAO A);
                      angleBAC A B C; angleOAB A B; angleOAC A C]
    /\ exported_column "distanceAB" row = Some (Val (Fin (distAB A B)))
    /\ exported_column "distanceAC" row = Some (Val (Fin (distAC A C)))
    /\ exported_column "distanceAO" row = Some (Val (Fin (distAO A)))
    /\ exported_column "angleOAB" row = Some (Val (angleBAC A B C))
    /\ exported_column "angleOAC" row = Some (Val (angleOAB A B))
    /\ exported_column "angleBAC" row = Some (Val (angleOAC A C)).
Proof.
  unfold combo_row.
  destruct combo as [| k0 [| k1 [| k2 rest]]]; try discriminate.
  destruct (lookup k0 cs) as [A |]; [| discriminate].
  destruct (lookup k1 cs) as [B |]; [| discriminate].
  destruct (lookup k2 cs) as [C |]; [| discriminate].
  destruct (formatName k0), (formatName k1), (formatName k2);
    try discriminate.
  intros [= <-]. exists A, B, C. repeat split.
Qed.

Lemma Forall2_In_l {X Y : Type} (P : X -> Y -> Prop) (l : list X)
    (l' : list Y) (x : X) :
  Forall2 P l l' -> In x l -> exists y, In y l' /\ P x y.
Proof.
  induction 1 as [| a b l l' Hab _ IH]; intros Hin; [contradiction |].
  destruct Hin as [<- | Hin].
  - exists b. split; [now left | assumption].
  - destruct (IH Hin) as (y & Hy & HP). exists y. split; [now right | assumption].
Qed.



Lemma distAO_origin : distAO (0, 0, 0) = 0.
Proof. norm_is. Qed.

(** The rows of the synthetic scene's first triplet, field by field. *)
Lemma synthetic_ABC :
  distAB (0, 0, 0) (1, 0, 0) = 1 /\ distAC (0, 0, 0) (0, 1, 0) = 1
  /\ angleBAC (0, 0, 0) (1, 0, 0) (0, 1, 0) = Fin 90
  /\ angleOAB (0, 0, 0) (1, 0, 0) = NaN
  /\ angleOAC (0, 0, 0) (0, 1, 0) = NaN.
Proof.
  assert (N1 : norm (vsub (1, 0, 0) (0, 0, 0)) = 1)
    by norm_is.
  assert (N2 : norm (vsub (0, 1, 0) (0, 0, 0)) = 1)
    by norm_is.
  assert (N0 : norm (vsub O (0, 0, 0)) = 0)
    by norm_is.
  repeat split.
  - norm_is.
  - norm_is.
  - apply angle_orthogonal; [simpl; ring | rewrite N1; lra | rewrite N2; lra].
  - now apply angle_zero_l.
  - now apply angle_zero_l.
Qed.

Lemma synthetic_from_sensor_ABC :
  distAB (0, 0, -2) (1, 0, -2) = 1 /\ distAC (0, 0, -2) (0, 1, -2) = 1
  /\ distAO (0, 0, -2) = 2
  /\ angleBAC (0, 0, -2) (1, 0, -2) (0, 1, -2) = Fin 90
  /\ angleOAB (0, 0, -2) (1, 0, -2) = Fin 90
  /\ angleOAC (0, 0, -2) (0, 1, -2) = Fin 90.
Proof.
  assert (N1 : norm (vsub (1, 0, -2) (0, 0, -2)) = 1)
    by norm_is.
  assert (N2 : norm (vsub (0, 1, -2) (0, 0, -2)) = 1)
    by norm_is.
  assert (N0 : norm (vsub O (0, 0, -2)) = 2)
    by norm_is.
  repeat split.
  - norm_is.
  - norm_is.
  - norm_is.
  - apply angle_orthogonal; [simpl; ring | rewrite N1; lra | rewrite N2; lra].
  - apply angle_orthogonal; [simpl; ring | rewrite N0; lra | rewrite N1; lra].
  - apply angle_orthogonal; [simpl; ring | rewrite N0; lra | rewrite N2; lra].
Qed.

Lemma aligned_ABC :
  angleBAC (1, 0, 0) (2, 0, 0) (1, 1, 0) = Fin 90
  /\ angleOAB (1, 0, 0) (2, 0, 0) = Fin 180
  /\ angleOAC (1, 0, 0) (1, 1, 0) = Fin 90.
Proof.
  assert (N1 : norm (vsub (2, 0, 0) (1, 0, 0)) = 1)
    by norm_is.
  assert (N2 : norm (vsub (1, 1, 0) (1, 0, 0)) = 1)
    by norm_is.
  assert (N0 : norm (vsub O (1, 0, 0)) = 1)
    by norm_is.
  repeat split.
  - apply angle_orthogonal; [simpl; ring | rewrite N1; lra | rewrite N2; lra].
  - apply angle_opposite; [rewrite N0, N1; simpl; ring
                          | rewrite N0; lra | rewrite N1; lra].
  - apply angle_orthogonal; [simpl; ring | rewrite N0; lra | rewrite N2; lra].
Qed.

(** C9, as stated, fails: the extractor's sensor origin is the constant
    (0,0,0), so for the centroids A=(0,0,0), B=(1,0,0), C=(0,1,0) the row of
    (A,B,C) has distAO = 0, and no row of (A,B,C) has distAO = 2. *)
Lemma C9_synthetic_scene_counterexample :
  ~ (exists aOAB aOAC,
       produces synthetic ("A_None", "B_None", "C_None")
                [Fin 1; Fin 1; Fin 2; Fin 90; aOAB; aOAC]).
Proof.
  intros (aOAB & aOAC & f' & row & Hrun & Hin & Hnames & Hvals).
  cbn in Hrun. injection Hrun as <-. cbn in Hin.
  repeat (destruct Hin as [<- | Hin]; [try discriminate Hnames |]);
    [| contradiction].
  cbn in Hvals. injection Hvals as _ _ H _ _ _.
  rewrite distAO_origin in H. lra.
Qed.

(** C9, amended: the sensor origin is fixed at (0,0,0); for the scene
    A=(0,0,0), B=(1,0,0), C=(0,1,0) seen from a sensor at (0,0,2), that is for
    the centroids A=(0,0,-2), B=(1,0,-2), C=(0,1,-2), the extractor produces
    distAB=1, distAC=1, distAO=2 and angleBAC=90 degrees (and angleOAB =
    angleOAC = 90) for the ordered triplet (A,B,C); for the centroids
    A=(0,0,0), B=(1,0,0), C=(0,1,0) themselves it produces distAB=1, distAC=1,
    angleBAC=90, distAO=0 and undefined (NaN) angles OAB and OAC. *)
Theorem C9_synthetic_scene :
  produces synthetic_from_sensor ("A_None", "B_None", "C_None")
           [Fin 1; Fin 1; Fin 2; Fin 90; Fin 90; Fin 90]
  /\ produces synthetic ("A_None", "B_None", "C_None")
              [Fin 1; Fin 1; Fin 0; Fin 90; NaN; NaN].
Proof.
  split.
  - destruct synthetic_from_sensor_ABC as (E1 & E2 & E3 & E4 & E5 & E6).
    do 2 eexists. split; [cbn; reflexivity |].
    split; [left; reflexivity |]. split; [reflexivity |].
    cbn. now rewrite E1, E2, E3, E4, E5, E6.
  - destruct synthetic_ABC as (E1 & E2 & E4 & E5 & E6).
    do 2 eexists. split; [cbn; reflexivity |].
    split; [left; reflexivity |]. split; [reflexivity |].
    cbn. now rewrite E1, E2, distAO_origin, E4, E5, E6.
Qed.

(** C1: the code at a frame with A=(1,0,0), B=(2,0,0), C=(1,1,0).  The row of
    (A,B,C) in the exported file holds 90 (angle BAC) under the header
    angleOAB although angle OAB is 180, and 180 (angle OAB) under the header
    angleOAC although angle OAC is 90: the angle columns do not hold the
    angles their headers name. *)
Theorem C1_angle_columns_mislabelled :
  exists f' row,
    getAngleDistCombos aligned = Some f'
    /\ In row (rows (export f'))
    /\ row_names row = Some ("A_None", "B_None", "C_None")
    /\ exported_column "angleOAB" row = Some (Val (Fin 90))
    /\ angleOAB (1, 0, 0) (2, 0, 0) = Fin 180
    /\ exported_column "angleOAC" row = Some (Val (Fin 180))
    /\ angleOAC (1, 0, 0) (1, 1, 0) = Fin 90
    /\ exported_column "angleBAC" row = Some (Val (Fin 90))
    /\ angleBAC (1, 0, 0) (2, 0, 0) (1, 1, 0) = Fin 90.
Proof.
  destruct aligned_ABC as (E1 & E2 & E3).
  do 2 eexists. split; [cbn; reflexivity |].
  split; [left; reflexivity |]. split; [reflexivity |].
  cbn. rewrite E1, E2, E3. repeat split.
Qed.




End ExtractorFacts.

(** ** Dictionaries as association lists *)

Section Dict.
Context {V : Type}.





Lemma lookup_not_in (d : list (string * V)) (k : string) :
  ~ In k (map fst d) -> lookup k d = None.
Proof.
  induction d as [| [k0 v0] d IH]; simpl; [reflexivity |].
  intros H. destruct (String.eqb k0 k) eqn:E.
  - apply String.eqb_eq in E. elim H. now left.
  - apply IH. intros Hin. apply H. now right.
Qed.

Lemma lookup_app (d1 d2 : list (string * V)) (k : string) :
  lookup k (d1 ++ d2)
  = match lookup k d1 with Some v => Some v | None => lookup k d2 end.
Proof.
  induction d1 as [| [k0 v0] d1 IH]; simpl; [reflexivity |].
  destruct (String.eqb k0 k); [reflexivity | apply IH].
Qed.
End Dict.

Lemma lookup_map_values {V W : Type} (g : V -> W) (d : list (string * V))
    (k : string) :
  lookup k (map (fun e => (fst e, g (snd e))) d) = option_map g (lookup k d).
Proof.
  induction d as [| [k0 v0] d IH]; simpl; [reflexivity |].
  destruct (String.eqb k0 k); [reflexivity | apply IH].
Qed.

(** ** Loops with a state *)

Section FoldM.
Context {S X : Type} (body : S -> X -> option S).

Lemma fold_left_raised (l : list X) :
  fold_left (fun acc x => s' <- acc ;; body s' x) l None = None.
Proof. induction l as [| x l IH]; simpl; [reflexivity | exact IH]. Qed.

Lemma foldM_nil (s : S) : foldM body [] s = Some s.
Proof. reflexivity. Qed.

Lemma foldM_cons (x : X) (l : list X) (s : S) :
  foldM body (x :: l) s = (s' <- body s x ;; foldM body l s').
Proof.
  unfold foldM. simpl. destruct (body s x) as [s' |]; simpl.
  - reflexivity.
  - apply fold_left_raised.
Qed.

Lemma foldM_app (l1 l2 : list X) (s : S) :
  foldM body (l1 ++ l2) s = (s' <- foldM body l1 s ;; foldM body l2 s').
Proof.
  revert s; induction l1 as [| x l1 IH]; intros s.
  - reflexivity.
  - simpl app. rewrite !foldM_cons.
    destruct (body s x) as [s' |]; simpl; [apply IH | reflexivity].
Qed.
End FoldM.

(** ** Strings: splitting on a comma and joining again *)

Module PyStrFacts.

Lemma string_of_list_ascii_app (l l' : list ascii) :
  string_of_list_ascii (l ++ l')
  = (string_of_list_ascii l ++ string_of_list_ascii l')%string.
Proof. induction l as [| c l IH]; simpl; [reflexivity | now rewrite IH]. Qed.

Lemma append_empty_r (s : string) : (s ++ "")%string = s.
Proof. induction s as [| c s IH]; simpl; [reflexivity | now rewrite IH]. Qed.

Lemma append_assoc (s t u : string) :
  ((s ++ t) ++ u)%string = (s ++ (t ++ u))%string.
Proof. induction s as [| c s IH]; simpl; [reflexivity | now rewrite IH]. Qed.

Lemma split_aux_nonempty (sep s : string) (skip : nat) (cur : list ascii) :
  PyStr.split_aux sep s skip cur <> [].
Proof.
  revert skip cur; induction s as [| c s IH]; intros skip cur;
    cbn [PyStr.split_aux].
  - discriminate.
  - destruct skip as [| k]; [| apply IH].
    destruct (String.prefix sep (String c s)); [discriminate | apply IH].
Qed.

Lemma join_split_aux_comma (s : string) (cur : list ascii) :
  PyStr.join "," (PyStr.split_aux "," s 0 cur)
  = (string_of_list_ascii (List.rev cur) ++ s)%string.
Proof.
  revert cur; induction s as [| c s IH]; intros cur.
  - simpl. now rewrite append_empty_r.
  - cbn [PyStr.split_aux String.prefix String.length Nat.sub].
    destruct (ascii_dec "," c) as [<- | Hc].
    + assert (Hp : String.prefix "" s = true) by (destruct s; reflexivity).
      rewrite Hp.
      specialize (IH []). simpl List.rev in IH. simpl in IH.
      unfold PyStr.join in *.
      destruct (PyStr.split_aux "," s 0 []) as [| y l] eqn:E.
      * now apply split_aux_nonempty in E.
      * change (String.concat "," (string_of_list_ascii (List.rev cur) :: y :: l))
          with (string_of_list_ascii (List.rev cur) ++ ","
                ++ String.concat "," (y :: l))%string.
        rewrite IH. reflexivity.
    + rewrite IH. simpl List.rev.
      rewrite string_of_list_ascii_app, append_assoc. reflexivity.
Qed.

Lemma join_split_comma (s : string) : PyStr.join "," (PyStr.split "," s) = s.
Proof. unfold PyStr.split. now rewrite join_split_aux_comma. Qed.

Lemma split_comma_three (s a b c : string) :
  PyStr.split "," s = [a; b; c] -> (a ++ "," ++ b ++ "," ++ c)%string = s.
Proof.
  intros H. rewrite <- (join_split_comma s), H. reflexivity.
Qed.

End PyStrFacts.

(** ** The corpus aggregator *)

Module AggregatorFacts.
Import Aggregator.
Local Open Scope R_scope.

(** *** Sums and means *)

Lemma sum_from (l : list R) (a : R) : fold_left Rplus l a = a + sum l.
Proof.
  unfold sum. revert a; induction l as [| x l IH]; intros a; simpl.
  - ring.
  - rewrite IH, (IH (0 + x)). ring.
Qed.

Lemma sum_cons (x : R) (l : list R) : sum (x :: l) = x + sum l.
Proof. unfold sum at 1. simpl. rewrite sum_from. ring. Qed.



(** *** Reading rows *)

Lemma read_row_six (hdr : list string) (row : list (cell R)) (k : string)
    (vals : list R) :
  read_row hdr row = Some (k, vals) -> List.length vals = 6%nat.
Proof.
  unfold read_row, bind.
  repeat match goal with
         | |- match ?e with _ => _ end = _ -> _ => destruct e; try discriminate
         end.
  intros [= _ <-]. reflexivity.
Qed.

Lemma file_observations_six (f : csv R) (obs : list (string * list R)) :
  file_observations f = Some obs ->
  Forall (fun o => List.length (snd o) = 6%nat) obs.
Proof.
  unfold file_observations. intros H. apply mapM_Forall2 in H.
  induction H as [| row o rows_ obs Hro _ IH]; constructor; [| assumption].
  destruct o as [k vals]. eapply read_row_six; eassumption.
Qed.

Lemma average_file_obs (f : csv R) (averages : list (string * accum)) :
  average_file averages f
  = (obs <- file_observations f ;; Some (add_all obs averages)).
Proof.
  unfold average_file, file_observations.
  generalize (map PyStr.strip (header f)) as hdr; intros hdr.
  revert averages; induction (rows f) as [| row rs IH]; intros averages.
  - reflexivity.
  - rewrite foldM_cons. simpl mapM.
    destruct (read_row hdr row) as [o |]; simpl; [| reflexivity].
    rewrite IH. destruct (mapM (read_row hdr) rs); reflexivity.
Qed.

Lemma add_all_app (o1 o2 : list (string * list R))
    (averages : list (string * accum)) :
  add_all (o1 ++ o2) averages = add_all o2 (add_all o1 averages).
Proof. unfold add_all. apply fold_left_app. Qed.

Lemma average_files_obs (files : list (csv R))
    (averages : list (string * accum)) :
  foldM average_file files averages
  = (obs <- corpus_observations files ;; Some (add_all obs averages)).
Proof.
  unfold corpus_observations.
  revert averages; induction files as [| f files IH]; intros averages.
  - reflexivity.
  - rewrite foldM_cons, average_file_obs. simpl mapM.
    destruct (file_observations f) as [o |]; simpl; [| reflexivity].
    rewrite IH.
    destruct (mapM file_observations files) as [os |]; simpl; [| reflexivity].
    now rewrite add_all_app.
Qed.

Lemma corpus_observations_six (files : list (csv R))
    (obs : list (string * list R)) :
  corpus_observations files = Some obs ->
  Forall (fun o => List.length (snd o) = 6%nat) obs.
Proof.
  unfold corpus_observations.
  destruct (mapM file_observations files) as [os |] eqn:E; [| discriminate].
  intros [= <-]. apply mapM_Forall2 in E.
  induction E as [| f o fs os Hf _ IH]; simpl; [constructor |].
  apply Forall_app. split; [| assumption].
  now apply file_observations_six with f.
Qed.

(** *** The dictionary [averages] *)

Lemma lookup_add_observation (k k' : string) (vals : list R)
    (d : list (string * accum)) :
  lookup k' (add_observation k vals d)
  = if String.eqb k k'
    then Some match lookup k d with
              | None => mkAccum (map (fun v => [v]) vals) 1
              | Some a => mkAccum (push (cols a) vals) (S (cnt a))
              end
    else lookup k' d.
Proof.
  induction d as [| [k0 a] d IH]; simpl.
  - reflexivity.
  - destruct (String.eqb k0 k) eqn:E0; simpl.
    + apply String.eqb_eq in E0. subst k0.
      destruct (String.eqb k k'); reflexivity.
    + rewrite IH. destruct (String.eqb k k') eqn:E1.
      * apply String.eqb_eq in E1. subst k'. now rewrite E0.
      * reflexivity.
Qed.

Lemma add_observation_keys (k : string) (vals : list R)
    (d : list (string * accum)) :
  map fst (add_observation k vals d)
  = if existsb (String.eqb k) (map fst d) then map fst d
    else map fst d ++ [k].
Proof.
  induction d as [| [k0 a] d IH]; simpl.
  - reflexivity.
  - rewrite (String.eqb_sym k k0).
    destruct (String.eqb k0 k) eqn:E0; simpl.
    + reflexivity.
    + rewrite IH. destruct (existsb (String.eqb k) (map fst d)); reflexivity.
Qed.

Lemma add_observation_nodup (k : string) (vals : list R)
    (d : list (string * accum)) :
  NoDup (map fst d) -> NoDup (map fst (add_observation k vals d)).
Proof.
  intros H. rewrite add_observation_keys.
  destruct (existsb (String.eqb k) (map fst d)) eqn:E; [assumption |].
  apply NoDup_app; [assumption | repeat constructor; intros [] | ].
  intros x Hx [<- | []].
  assert (existsb (String.eqb k) (map fst d) = true)
    by (apply existsb_exists; exists k; split; [assumption | apply String.eqb_refl]).
  congruence.
Qed.

Lemma add_all_nodup (obs : list (string * list R))
    (d : list (string * accum)) :
  NoDup (map fst d) -> NoDup (map fst (add_all obs d)).
Proof.
  unfold add_all. revert d; induction obs as [| o obs IH]; intros d H; simpl.
  - assumption.
  - apply IH. now apply add_observation_nodup.
Qed.

Lemma push_columns (g : list (list R)) (vals : list R) :
  List.length vals = 6%nat ->
  push (columns_of g) vals = columns_of (g ++ [vals]).
Proof.
  intros H.
  destruct vals as [| v0 [| v1 [| v2 [| v3 [| v4 [| v5 [| ? ?]]]]]]];
    try discriminate.
  unfold push, columns_of. simpl. now rewrite !map_app.
Qed.

Lemma init_columns (vals : list R) :
  List.length vals = 6%nat ->
  map (fun v => [v]) vals = columns_of [vals].
Proof.
  intros H.
  destruct vals as [| v0 [| v1 [| v2 [| v3 [| v4 [| v5 [| ? ?]]]]]]];
    try discriminate.
  reflexivity.
Qed.


Lemma group_app (k : string) (o1 o2 : list (string * list R)) :
  group k (o1 ++ o2) = group k o1 ++ group k o2.
Proof. unfold group. now rewrite filter_app, map_app. Qed.

Lemma holds_add_observation (pre : list (string * list R))
    (d : list (string * accum)) (k : string) (vals : list R) :
  List.length vals = 6%nat ->
  holds pre d -> holds (pre ++ [(k, vals)]) (add_observation k vals d).
Proof.
  intros Hlen H k'. rewrite lookup_add_observation, group_app.
  unfold group at 2. simpl.
  destruct (String.eqb k k') eqn:E; simpl.
  - apply String.eqb_eq in E. subst k'. rewrite (H k).
    destruct (group k pre) as [| v g] eqn:Eg.
    + simpl. unfold accum_of. simpl List.length.
      now rewrite <- init_columns.
    + change ((v :: g) ++ [vals]) with (v :: (g ++ [vals])).
      cbn [for_group]. f_equal. unfold accum_of.
      cbn [cols cnt]. rewrite push_columns by assumption.
      simpl List.length. rewrite length_app. simpl List.length.
      rewrite Nat.add_1_r. reflexivity.
  - rewrite app_nil_r. apply H.
Qed.

Lemma holds_add_all (obs pre : list (string * list R))
    (d : list (string * accum)) :
  Forall (fun o => List.length (snd o) = 6%nat) obs ->
  holds pre d -> holds (pre ++ obs) (add_all obs d).
Proof.
  revert pre d; induction obs as [| [k vals] obs IH]; intros pre d Hsix H.
  - now rewrite app_nil_r.
  - inversion Hsix as [| ? ? Hlen Hrest]; subst.
    change (pre ++ (k, vals) :: obs) with (pre ++ [(k, vals)] ++ obs).
    rewrite app_assoc. apply IH; [assumption |].
    now apply holds_add_observation.
Qed.

Lemma holds_averages (obs : list (string * list R)) :
  Forall (fun o => List.length (snd o) = 6%nat) obs ->
  holds obs (add_all obs []).
Proof.
  intros H. apply (holds_add_all obs [] [] H). intros k. reflexivity.
Qed.

(** *** The output table *)

Lemma mapM_map {X Y Z : Type} (g : X -> Y) (f : Y -> option Z) (l : list X) :
  mapM f (map g l) = mapM (fun x => f (g x)) l.
Proof.
  induction l as [| x l IH]; simpl; [reflexivity |].
  destruct (f (g x)); [now rewrite IH | reflexivity].
Qed.

Lemma output_row_summary (e : string * accum) :
  output_row e = summary_row (summarise e).
Proof.
  destruct e as [k a]. unfold output_row, summary_row, summarise. simpl.
  destruct (PyStr.split "," k) as [| a0 [| b0 [| c0 [| ? ?]]]]; reflexivity.
Qed.

Lemma output_table_summary (averages : list (string * accum)) :
  mapM output_row averages = mapM summary_row (map summarise averages).
Proof.
  rewrite mapM_map. induction averages as [| e l IH]; simpl; [reflexivity |].
  rewrite output_row_summary, IH. reflexivity.
Qed.

Lemma summary_row_key (e : string * (list R * nat)) (r : AvgRow) :
  summary_row e = Some r ->
  row_key r = fst e /\ comboData r = summary_entry (snd e).
Proof.
  unfold summary_row.
  destruct (PyStr.split "," (fst e)) as [| a [| b [| c [| ? ?]]]] eqn:E;
    try discriminate.
  intros [= <-]. split; [| reflexivity].
  unfold row_key. simpl. now apply PyStrFacts.split_comma_three.
Qed.

Lemma table_entries (S : list (string * (list R * nat))) (table : list AvgRow) :
  mapM summary_row S = Some table ->
  map (fun r => (row_key r, comboData r)) table
  = map (fun e => (fst e, summary_entry (snd e))) S.
Proof.
  intros H. apply mapM_Forall2 in H.
  induction H as [| e r S table Her _ IH]; simpl; [reflexivity |].
  apply summary_row_key in Her. destruct Her as [-> ->]. now rewrite IH.
Qed.

Lemma dict_set_fresh {V : Type} (k : string) (v : V) (d : list (string * V)) :
  ~ In k (map fst d) -> dict_set k v d = d ++ [(k, v)].
Proof.
  induction d as [| [k0 v0] d IH]; simpl; [reflexivity |].
  intros H. destruct (String.eqb k0 k) eqn:E.
  - apply String.eqb_eq in E. elim H. now left.
  - rewrite IH; [reflexivity |]. intros Hin. apply H. now right.
Qed.

Lemma averaging_dictionary_fresh (table : list AvgRow)
    (d : list (string * list (cell R))) :
  NoDup (map fst d ++ map row_key table) ->
  fold_left (fun dictionary r => dict_set (row_key r) (comboData r) dictionary)
            table d
  = d ++ map (fun r => (row_key r, comboData r)) table.
Proof.
  revert d; induction table as [| r table IH]; intros d H; simpl.
  - now rewrite app_nil_r.
  - rewrite dict_set_fresh.
    + rewrite IH.
      * now rewrite <- app_assoc.
      * rewrite map_app. simpl. rewrite <- app_assoc. exact H.
    + apply NoDup_remove_2 in H. intros Hin. apply H.
      apply in_or_app. now left.
Qed.

Lemma averaging_dictionary_entries (table : list AvgRow) :
  NoDup (map row_key table) ->
  averaging_dictionary table = map (fun r => (row_key r, comboData r)) table.
Proof.
  intros H. unfold averaging_dictionary.
  exact (averaging_dictionary_fresh table [] H).
Qed.

Lemma table_keys (S : list (string * (list R * nat))) (table : list AvgRow) :
  mapM summary_row S = Some table -> map row_key table = map fst S.
Proof.
  intros H. apply table_entries in H.
  apply (f_equal (map fst)) in H. rewrite !map_map in H. exact H.
Qed.

(** The relation table of averaging mode, key by key. *)
Lemma averaging_dictionary_lookup (obs : list (string * list R))
    (table : list AvgRow) (key : string) :
  Forall (fun o => List.length (snd o) = 6%nat) obs ->
  mapM output_row (add_all obs []) = Some table ->
  NoDup (map row_key table)
  /\ lookup key (averaging_dictionary table)
     = for_group mean_entry (group key obs).
Proof.
  intros Hsix Htable. rewrite output_table_summary in Htable.
  assert (Hnd : NoDup (map row_key table)).
  { rewrite (table_keys _ _ Htable). unfold summarise. rewrite map_map.
    simpl. apply add_all_nodup. constructor. }
  split; [assumption |].
  rewrite averaging_dictionary_entries by assumption.
  rewrite (table_entries _ _ Htable).
  rewrite lookup_map_values.
  unfold summarise.
  rewrite (lookup_map_values summary).
  rewrite (holds_averages obs Hsix key).
  destruct (group key obs) as [| v g]; reflexivity.
Qed.

(** *** Shuffled corpora *)












(** The observation that [averageTriplets] reads from an exported row is
    the row's six numbers in the order the extractor appended them: its
    [angBAC], read under the header angleOAB, is the extractor's angle BAC,
    and so on. *)
Lemma exported_row_observation (cs : list (string * CollectData.Vec3))
    (combo : list string) (row : list (cell Np.npfloat))
    (row' : list (cell R)) :
  CollectData.combo_row cs combo = Some row ->
  mapM finite_cell row = Some row' ->
  exists key vals,
    read_row (map PyStr.strip (PyStr.split "," CollectData.export_header_line))
             row' = Some (key, vals)
    /\ map Np.Fin vals = CollectData.row_values row.
Proof.
  unfold CollectData.combo_row.
  destruct combo as [| k0 [| k1 [| k2 rest]]]; try discriminate.
  destruct (lookup k0 cs) as [A |]; [| discriminate].
  destruct (lookup k1 cs) as [B |]; [| discriminate].
  destruct (lookup k2 cs) as [C |]; [| discriminate].
  destruct (CollectData.formatName k0), (CollectData.formatName k1),
    (CollectData.formatName k2); try discriminate.
  intros [= <-]. cbn [mapM finite_cell option_map].
  destruct (CollectData.angleBAC A B C) as [a1 | | |]; try discriminate.
  destruct (CollectData.angleOAB A B) as [a2 | | |]; try discriminate.
  destruct (CollectData.angleOAC A C) as [a3 | | |]; try discriminate.
  intros [= <-]. do 2 eexists. split; reflexivity.
Qed.

Lemma mean_of_one (x : R) (i : nat) (cs : list (list R)) :
  nth i cs [] = [x] -> mean_of (mkAccum cs 1) i = x.
Proof.
  intros H. unfold mean_of. simpl. rewrite H. unfold sum. simpl. field.
Qed.

Section ModesDiffer.
Variable sort_values : list (list (cell R)) -> list (list (cell R)).
Variable repr_float : R -> string.
Variable sample : list (list (cell R)) -> list (list (cell R)).
Hypothesis sort_values_perm : forall l, Permutation l (sort_values l).
Hypothesis sample_perm : forall l, Permutation l (sample l).

(** C2: the code on the corpus made of the one exported file
    [Corpora.exported_scene], whose only key "A,B,C" has one record, with
    distances 1, 1, 1, angle BAC = 90, angle OAB = 180 and angle OAC = 90.
    The averaging-mode table has angleBAC, angleOAB, angleOAC = 90, 180, 90
    under the key; the sampling-mode table, built from the same file, has
    90, 90, 180: the two modes disagree on angleOAB and angleOAC. *)
Theorem C2_modes_disagree_on_angles :
  exists rewritten table triplets dictionary,
    averageTriplets [Corpora.exported_scene] = Some (rewritten, table)
    /\ gatherTriplets sort_values rewritten = Some triplets
    /\ sampling_dictionary repr_float sample triplets = Some dictionary
    /\ lookup "A,B,C"%string (averaging_dictionary table)
       = Some [Val 1; Val 1; Val 1; Val 90; Val 180; Val 90; Val 1]
    /\ lookup "A,B,C"%string dictionary
       = Some [Val 1; Val 1; Val 1; Val 90; Val 90; Val 180; Val 1].
Proof.
  pose proof (sort_values_perm [Corpora.merged_row]) as Hs.
  apply Permutation_length_1_inv in Hs.
  pose proof (sample_perm [Corpora.merged_row]) as Hr.
  apply Permutation_length_1_inv in Hr.
  exists [strip_columns Corpora.exported_scene].
  eexists.
  exists (mkCsv Corpora.clean_header [Corpora.merged_row]).
  exists [("A,B,C"%string,
           [Val 1; Val 1; Val 1; Val 90; Val 90; Val 180; Val 1])].
  split; [reflexivity |].
  split.
  { transitivity (Some (mkCsv Corpora.clean_header
                          (sort_values [Corpora.merged_row])));
      [reflexivity | now rewrite Hs]. }
  split.
  { unfold sampling_dictionary. cbn [rows header]. rewrite Hr. reflexivity. }
  split; [| reflexivity].
  cbn. unfold mean_of, sum. cbn.
  repeat (f_equal; try field).
Qed.
End ModesDiffer.

Lemma C2_modes_disagree_on_angles_witness :
  exists rewritten table triplets dictionary,
    averageTriplets [Corpora.exported_scene] = Some (rewritten, table)
    /\ gatherTriplets (fun l => l) rewritten = Some triplets
    /\ sampling_dictionary (fun _ => ""%string) (fun l => l) triplets
       = Some dictionary
    /\ lookup "A,B,C"%string (averaging_dictionary table)
       = Some [Val 1; Val 1; Val 1; Val 90; Val 180; Val 90; Val 1]
    /\ lookup "A,B,C"%string dictionary
       = Some [Val 1; Val 1; Val 1; Val 90; Val 90; Val 180; Val 1].
Proof.
  apply (C2_modes_disagree_on_angles (fun l => l) (fun _ => ""%string)
           (fun l => l)); intros l; apply Permutation_refl.
Defined.


End AggregatorFacts.

(** ** The object size estimator *)

Module SizesFacts.
Import Np Py Sizes.
Local Open Scope R_scope.

(** *** Sorting *)

Lemma insert_perm (x : R) (l : list R) : Permutation (x :: l) (insert x l).
Proof.
  induction l as [| y t IH]; simpl.
  - reflexivity.
  - destruct (Rle_dec x y).
    + reflexivity.
    + rewrite perm_swap. now constructor.
Qed.

Lemma sort_values_perm (l : list R) : Permutation l (sort_values l).
Proof.
  induction l as [| x l IH]; simpl.
  - constructor.
  - rewrite <- insert_perm. now constructor.
Qed.

Lemma sort_values_length (l : list R) :
  List.length (sort_values l) = List.length l.
Proof. symmetry. apply Permutation_length, sort_values_perm. Qed.






(** Comparisons of concrete numbers in a goal. *)
Ltac compare_reals :=
  repeat match goal with
         | |- context [Rle_dec ?a ?b] => destruct (Rle_dec a b); try lra
         | |- context [Rlt_dec ?a ?b] => destruct (Rlt_dec a b); try lra
         end.

(** Sorting a list of concrete numbers, comparison by comparison. *)
Ltac sort_reals :=
  unfold sort_values;
  repeat (progress (cbn [fold_right insert]; compare_reals)).

Example sort_values_example : sort_values [3; 1; 2] = [1; 2; 3].
Proof. sort_reals. reflexivity. Qed.

(** Of five distances the largest one is dropped, and the median of the four
    others is the mean of the two in the middle. *)
Example trimmed_median_example : trimmed_median [1; 100; 3; 2; 4] = 5 / 2.
Proof.
  unfold trimmed_median, trimmed. sort_reals.
  unfold median_sorted. simpl. lra.
Qed.

(** *** The median of a sorted series *)



(** *** Trimming *)

Lemma trimmed_split (dist : list R) :
  let n := List.length dist in
  sort_values dist = trimmed dist ++ skipn (n - n / 5) (sort_values dist)
  /\ List.length (trimmed dist) = (n - n / 5)%nat
  /\ List.length (skipn (n - n / 5) (sort_values dist)) = (n / 5)%nat.
Proof.
  intros n. unfold trimmed. rewrite sort_values_length. fold n.
  assert (Hle : (n / 5 <= n)%nat) by (apply Nat.Div0.div_le_upper_bound; lia).
  split; [now rewrite firstn_skipn |].
  split.
  - rewrite length_firstn, sort_values_length. fold n. lia.
  - rewrite length_skipn, sort_values_length. fold n. lia.
Qed.

Lemma trimmed_nonempty (dist : list R) : dist <> [] -> trimmed dist <> [].
Proof.
  intros Hne Ht.
  destruct (trimmed_split dist) as (_ & Hlen & _).
  rewrite Ht in Hlen. change (List.length (@nil R)) with 0%nat in Hlen.
  assert (Hn : (0 < List.length dist)%nat)
    by (destruct dist; [congruence | simpl; lia]).
  assert (List.length dist / 5 < List.length dist)%nat
    by (apply Nat.div_lt; lia).
  lia.
Qed.

Lemma size_table_rows (sizes : list (string * list R)) (table : list SizeRow)
    (obj : string) (dist : list R) :
  size_table sizes = Some table -> In (obj, dist) sizes ->
  exists maxCount maxDiameter,
    max_int (map (fun od => List.length (snd od)) sizes) = Some maxCount
    /\ max_float (map (fun od => trimmed_median (snd od)) sizes)
       = Some maxDiameter
    /\ In (mkSizeRow obj (trimmed_median dist) (List.length dist)
             (confidence_of maxCount maxDiameter (medianDiameter sizes)
                (trimmed_median dist) (List.length dist)))
          table.
Proof.
  unfold size_table. intros H Hin.
  destruct (max_int _) as [maxCount |] eqn:EC; [| discriminate].
  destruct (max_float _) as [maxDiameter |] eqn:ED; [| discriminate].
  cbn [bind] in H. injection H as <-.
  exists maxCount, maxDiameter.
  unfold median_sizes in EC, ED. rewrite map_map in EC, ED.
  cbn [fst snd] in EC, ED.
  split; [exact EC |]. split; [exact ED |].
  apply in_map_iff.
  exists (obj, (trimmed_median dist, List.length dist)).
  split; [reflexivity |].
  unfold median_sizes. apply in_map_iff.
  exists (obj, dist). split; [reflexivity | assumption].
Qed.



(** *** The fallback diameter *)

Lemma medianDiameter_three_objects : medianDiameter three_objects = 1.
Proof.
  unfold medianDiameter, median, median_sorted, three_objects. cbn.
  destruct (Rle_dec 1 2); [| lra]. cbn.
  destruct (Rle_dec 0 1); [| lra]. reflexivity.
Qed.

Lemma max_float_three_objects :
  max_float (map (fun od => trimmed_median (snd od)) three_objects) = Some 2.
Proof.
  cbn. destruct (Rlt_dec 0 1); [| lra]. destruct (Rlt_dec 1 2); [| lra].
  reflexivity.
Qed.

Lemma size_table_three_objects :
  size_table three_objects
  = Some (map (fun e =>
                 mkSizeRow (fst e) (fst (snd e)) (snd (snd e))
                   (confidence_of 1 2 (medianDiameter three_objects)
                      (fst (snd e)) (snd (snd e))))
              (median_sizes three_objects)).
Proof.
  unfold size_table. unfold median_sizes at 2. rewrite map_map.
  cbn [fst snd]. rewrite max_float_three_objects. reflexivity.
Qed.

(** C8, as stated, fails: with three objects whose diameters are 0, 1 and 2
    the corpus-wide median is 1, and the table records the diameter 0 for
    the first object, not 1. *)
Lemma C8_median_recorded_counterexample : ~ substitutes_median three_objects.
Proof.
  intros H.
  destruct (H _ 1%nat 2
              (mkSizeRow "x" 0 1
                 (confidence_of 1 2 (medianDiameter three_objects) 0 1))
              [0] size_table_three_objects eq_refl max_float_three_objects)
    as [Hd _].
  - left. reflexivity.
  - reflexivity.
  - cbn. lra.
  - simpl in Hd. rewrite medianDiameter_three_objects in Hd. lra.
Qed.

(** C8, amended: for an object whose trimmed-median diameter is not
    positive, the corpus-wide median diameter replaces it in the confidence
    computation only, confidence = (count / max count) x (max diameter /
    corpus-wide median diameter); the diameter recorded for the object in the
    size table is its own trimmed median, unchanged. *)
Theorem C8_median_only_in_confidence (sizes : list (string * list R))
    (table : list SizeRow) (obj : string) (dist : list R) :
  size_table sizes = Some table ->
  In (obj, dist) sizes ->
  trimmed_median dist <= 0 ->
  exists maxCount maxDiameter row,
    max_int (map (fun od => List.length (snd od)) sizes) = Some maxCount
    /\ max_float (map (fun od => trimmed_median (snd od)) sizes)
       = Some maxDiameter
    /\ In row table
    /\ object row = obj
    /\ diameter row = trimmed_median dist
    /\ count row = List.length dist
    /\ confidence row
       = scale (INR (List.length dist) / INR maxCount)
               (divide maxDiameter (medianDiameter sizes))
    /\ (medianDiameter sizes <> 0 ->
        confidence row
        = Fin (INR (List.length dist) / INR maxCount
               * (maxDiameter / medianDiameter sizes))).
Proof.
  intros Htable Hin Hneg.
  destruct (size_table_rows sizes table obj dist Htable Hin)
    as (maxCount & maxDiameter & HmaxC & HmaxD & Hrow).
  exists maxCount, maxDiameter. eexists.
  split; [exact HmaxC |]. split; [exact HmaxD |].
  split; [exact Hrow |]. simpl.
  split; [reflexivity |]. split; [reflexivity |]. split; [reflexivity |].
  unfold confidence_of.
  destruct (Rlt_dec 0 (trimmed_median dist)) as [Hpos | _]; [lra |].
  split; [reflexivity |].
  intros Hm. unfold divide.
  destruct (Req_dec_T (medianDiameter sizes) 0); [contradiction | reflexivity].
Qed.

Lemma C8_median_only_in_confidence_witness :
  exists maxCount maxDiameter row,
    max_int (map (fun od => List.length (snd od)) three_objects) = Some maxCount
    /\ max_float (map (fun od => trimmed_median (snd od)) three_objects)
       = Some maxDiameter
    /\ In row (map (fun e =>
                      mkSizeRow (fst e) (fst (snd e)) (snd (snd e))
                        (confidence_of 1 2 (medianDiameter three_objects)
                           (fst (snd e)) (snd (snd e))))
                   (median_sizes three_objects))
    /\ object row = "x"%string
    /\ diameter row = trimmed_median [0]
    /\ count row = 1%nat
    /\ confidence row
       = scale (INR 1 / INR maxCount)
               (divide maxDiameter (medianDiameter three_objects))
    /\ (medianDiameter three_objects <> 0 ->
        confidence row
        = Fin (INR 1 / INR maxCount
               * (maxDiameter / medianDiameter three_objects))).
Proof.
  apply (C8_median_only_in_confidence three_objects _ "x"%string [0]
           size_table_three_objects).
  - left. reflexivity.
  - cbn. lra.
Defined.

End SizesFacts.

(** ** The global reconstruction solver *)

Module SolverFacts.
Import Py Aggregator Solver.
Local Open Scope R_scope.

(** *** The search over the permutations *)

Lemma select_nonempty {X : Type} (x : X) (t : list X) :
  exists rest, select (x :: t) = (x, t) :: rest.
Proof. simpl. eauto. Qed.

Lemma permutations_nonempty {X : Type} (l : list X) :
  permutations (List.length l) l <> [].
Proof.
  induction l as [| x t IH]; simpl.
  - discriminate.
  - destruct (permutations (List.length t) t) as [| p ps] eqn:E;
      [congruence | discriminate].
Qed.

Section Attempts.
Context {V : Type} (dictionary : list (string * V)) (objects : list string).

Lemma attempts_exhausted (objMix : list (list string))
    (st : bool * option (list (list string))) :
  objMix <> [] ->
  (forall objs, In objs objMix -> enough dictionary objects objs = false) ->
  fst (attempts dictionary objects objMix st) = false.
Proof.
  revert st; induction objMix as [| objs rest IH]; intros st Hne Hall;
    [congruence |].
  simpl. rewrite (Hall objs (or_introl eq_refl)).
  destruct rest as [| objs' rest'].
  - reflexivity.
  - apply IH; [discriminate | intros o Ho; apply Hall; now right].
Qed.

End Attempts.

Section Search.
Variable parse_float : string -> option R.
Variable repr_float : R -> string.
Variable sample : list (list (cell R)) -> list (list (cell R)).
Variable shuffle : list (list string) -> list (list string).
Variable float32 : R -> R.
Variable lstsq : list Vec4 -> list Vec4 -> Vec4 * Vec4 * Vec4 * Vec4.
Hypothesis shuffle_perm : forall l, Permutation l (shuffle l).

End Search.

(** *** Minima *)

Lemma min2_cases (a b : R) :
  (min2 a b = a /\ a <= b) \/ (min2 a b = b /\ b <= a).
Proof. unfold min2. destruct (Rlt_dec b a); [right | left]; split; lra. Qed.




Lemma fold_scale_is_min (ts : list Triplet) (pre : list R) (m : R) :
  is_min m pre ->
  is_min (fold_left (fun cur t => min2 (scale t) cur) ts m)
         (pre ++ map scale ts).
Proof.
  revert pre m; induction ts as [| t ts IH]; intros pre m H; simpl.
  - now rewrite app_nil_r.
  - change (pre ++ scale t :: map scale ts)
      with (pre ++ [scale t] ++ map scale ts).
    rewrite app_assoc. apply IH.
    destruct H as [Hin Hle].
    destruct (min2_cases (scale t) m) as [[-> Hc] | [-> Hc]]; split.
    + apply in_or_app. right. now left.
    + intros y Hy. apply in_app_or in Hy. destruct Hy as [Hy | [<- | []]];
        [apply Hle in Hy; lra | lra].
    + apply in_or_app. now left.
    + intros y Hy. apply in_app_or in Hy. destruct Hy as [Hy | [<- | []]];
        [now apply Hle | assumption].
Qed.


(** *** The dictionary [finalCoords] *)

Lemma lookup_dict_set_same {V : Type} (k : string) (v : V)
    (d : list (string * V)) :
  lookup k (dict_set k v d) = Some v.
Proof.
  induction d as [| [k0 v0] d IH]; simpl.
  - now rewrite String.eqb_refl.
  - destruct (String.eqb k0 k) eqn:E; simpl; rewrite E;
      [reflexivity | exact IH].
Qed.

Lemma lookup_dict_set_other {V : Type} (k k' : string) (v : V)
    (d : list (string * V)) :
  String.eqb k k' = false -> lookup k' (dict_set k v d) = lookup k' d.
Proof.
  intros Hk. induction d as [| [k0 v0] d IH]; simpl.
  - now rewrite Hk.
  - destruct (String.eqb k0 k) eqn:E; simpl.
    + apply String.eqb_eq in E. subst k0. now rewrite Hk.
    + destruct (String.eqb k0 k'); [reflexivity | exact IH].
Qed.

Section MergeFacts.
Variable float32 : R -> R.
Variable lstsq : list Vec4 -> list Vec4 -> Vec4 * Vec4 * Vec4 * Vec4.

Lemma merge_triplet_scale (baseCoords : list Vec3)
    (fc fc' : list (string * entry)) (t : Triplet) (current : R) :
  merge_triplet float32 lstsq baseCoords fc t = Some fc' ->
  lookup "SCALE" fc = Some (Scalar current) ->
  lookup "SCALE" fc' = Some (Scalar (min2 (scale t) current)).
Proof.
  unfold merge_triplet. intros H Hcur.
  destruct (filter _ (map _ (array32 float32 (frame_of t ++ [ptC t]))))
    as [| c rest]; [discriminate |].
  destruct (String.eqb (objC t) "SCALE") eqn:E.
  - apply String.eqb_eq in E. rewrite E, lookup_dict_set_same in H.
    discriminate.
  - rewrite (lookup_dict_set_other _ _ _ _ E), Hcur in H.
    injection H as <-. apply lookup_dict_set_same.
Qed.

Lemma merge_others_scale (baseCoords : list Vec3) (others : list Triplet)
    (fc fc' : list (string * entry)) (current : R) :
  foldM (merge_triplet float32 lstsq baseCoords) others fc = Some fc' ->
  lookup "SCALE" fc = Some (Scalar current) ->
  lookup "SCALE" fc'
  = Some (Scalar (fold_left (fun cur t => min2 (scale t) cur) others current)).
Proof.
  revert fc current; induction others as [| t others IH];
    intros fc current H Hcur.
  - injection H as <-. exact Hcur.
  - rewrite foldM_cons in H.
    destruct (merge_triplet float32 lstsq baseCoords fc t) as [fc1 |] eqn:E;
      [| discriminate].
    simpl in H. simpl fold_left.
    apply (IH fc1); [exact H |].
    eapply merge_triplet_scale; eassumption.
Qed.

(** The ['SCALE'] entry of a merged assignment is the minimum of the
    scales of the merged triplets. *)
Lemma merge_scale (triplets : list Triplet) (fc : list (string * entry)) :
  merge float32 lstsq triplets = Some fc ->
  exists m, lookup "SCALE" fc = Some (Scalar m)
            /\ is_min m (map scale triplets).
Proof.
  unfold merge. destruct triplets as [| t0 others]; [discriminate |].
  intros H.
  eapply merge_others_scale in H; [| apply lookup_dict_set_same].
  eexists. split; [exact H |].
  apply (fold_scale_is_min others [scale t0]).
  split; [now left |]. intros x [<- | []]. lra.
Qed.
End MergeFacts.

(** *** The local layout of a triplet *)




Lemma some_eq {X : Type} (a b : X) : Some a = Some b -> a = b.
Proof. now intros [= ->]. Qed.




Section Scale.
Variable parse_float : string -> option R.
Variable repr_float : R -> string.
Variable sample : list (list (cell R)) -> list (list (cell R)).
Variable shuffle : list (list string) -> list (list string).
Variable float32 : R -> R.
Variable lstsq : list Vec4 -> list Vec4 -> Vec4 * Vec4 * Vec4 * Vec4.

End Scale.

Lemma radians_90 : radians 90 = PI / 2.
Proof. unfold radians. field. Qed.

Lemma abc_dictionary :
  averaging_dictionary abc_table
  = [("A,B,C"%string,
      [Val 1; Val 1; Val 1; Val 90; Val 90; Val 90; Val (INR 1)])].
Proof. reflexivity. Qed.


Lemma abc_local_triplet :
  exists t, local_triplet (averaging_dictionary abc_table) 1
              ["A"; "B"; "C"]%string = Some t.
Proof.
  unfold local_triplet. rewrite abc_dictionary.
  change (lookup (PyStr.join "," ["A"; "B"; "C"]%string)
            [("A,B,C"%string,
              [Val 1; Val 1; Val 1; Val 90; Val 90; Val 90; Val (INR 1)])])
    with (Some [Val 1; Val 1; Val 1; Val 90; Val 90; Val 90; Val (INR 1)]).
  cbn [bind data_float nth_error float_cell].
  rewrite radians_90, cos_PI2, sin_PI2.
  unfold py_div. destruct (Req_dec_T (1 * 1) 0) as [H0 | _]; [lra |].
  cbn [bind]. unfold py_sqrt.
  destruct (Rle_dec 0 _) as [_ | Hneg].
  - cbn [bind]. eexists. reflexivity.
  - exfalso. apply Hneg.
    match goal with
    | |- 0 <= ?e => replace e with 1 by (field; lra)
    end.
    lra.
Qed.

Lemma abc_run :
  exists finalCoords,
    calculateCoords (fun _ => None) (fun _ => ""%string) (fun l => l)
                    (fun l => l) (fun x => x) (fun _ _ => identity_matrix)
                    abc_files ["A"; "B"; "C"]%string "averaging"
    = Returned finalCoords.
Proof.
  destruct abc_local_triplet as [t Ht].
  unfold calculateCoords.
  change (load_dictionary (fun _ => ""%string) (fun l => l) abc_files
            "averaging")
    with (Loaded (averaging_dictionary abc_table)).
  cbv beta iota.
  replace (attempts (averaging_dictionary abc_table) ["A"; "B"; "C"]%string
             (permutations (List.length ["A"; "B"; "C"]%string)
                ["A"; "B"; "C"]%string) (true, None))
    with (true, Some [["A"; "B"; "C"]%string])
    by (vm_compute; reflexivity).
  change (loadObjectSizes (fun _ => None) (object_sizes_csv abc_files))
    with (Some (@nil (string * R))).
  cbv beta iota.
  unfold reconstruct, local_triplets.
  change (mapM (fun combo : list string =>
                  data <- lookup (PyStr.join "," combo)
                                 (averaging_dictionary abc_table) ;;
                  data_float data 0)
               [["A"; "B"; "C"]%string])
    with (Some [1]).
  cbn [bind max_float fold_left mapM]. rewrite Ht.
  cbn [option_map bind]. unfold merge, foldM. cbn [fold_left].
  eexists. reflexivity.
Qed.



Section SizesUnused.
Variable parse_float : string -> option R.
Variable repr_float : R -> string.
Variable sample : list (list (cell R)) -> list (list (cell R)).
Variable shuffle : list (list string) -> list (list string).
Variable float32 : R -> R.
Variable lstsq : list Vec4 -> list Vec4 -> Vec4 * Vec4 * Vec4 * Vec4.

(** C10: two runs of [calculateCoords] with the same requested objects,
    the same relation-table files and the same random choices, but with
    different contents of the object size file, return the same coordinate
    assignment whenever both return one; and they end in the same way
    altogether whenever both size files can be loaded. *)
Theorem C10_sizes_do_not_matter
    (pickleData : option (list AvgRow)) (df : option (csv R))
    (sizes1 sizes2 : option (list string)) (objects : list string)
    (method : string) :
  let run sizes :=
    calculateCoords parse_float repr_float sample shuffle float32 lstsq
                    (mkFiles pickleData df sizes) objects method in
  (forall fc1 fc2,
     run sizes1 = Returned fc1 -> run sizes2 = Returned fc2 -> fc1 = fc2)
  /\ (loadObjectSizes parse_float sizes1 <> None ->
      loadObjectSizes parse_float sizes2 <> None ->
      run sizes1 = run sizes2).
Proof.
  cbv zeta. unfold calculateCoords, load_dictionary.
  cbn [triplets_avg_pickle triplets_csv object_sizes_csv].
  set (loaded_ :=
         if String.eqb method "averaging" then _ else _).
  destruct loaded_ as [| | dictionary].
  - split; [congruence | reflexivity].
  - split; [congruence | reflexivity].
  - destruct (attempts dictionary objects
                (shuffle (permutations (List.length objects) objects))
                (true, None)) as [[|] [combos |]].
    + destruct (loadObjectSizes parse_float sizes1) as [s1 |],
        (loadObjectSizes parse_float sizes2) as [s2 |];
        split; try congruence; try discriminate;
        destruct (reconstruct float32 lstsq dictionary combos);
        congruence.
    + split; [congruence | reflexivity].
    + split; [congruence | reflexivity].
    + split; [congruence | reflexivity].
Qed.
End SizesUnused.

End SolverFacts.


(** * Further properties of the code *)

(** ** itertools.permutations *)

Section PermutationsFacts.
Context {X : Type}.

Lemma select_length (l : list X) : List.length (select l) = List.length l.
Proof.
  induction l as [| x t IH]; simpl; [reflexivity |].
  now rewrite length_map, IH.
Qed.

Lemma select_rest (l : list X) (x : X) (r : list X) :
  In (x, r) (select l) ->
  S (List.length r) = List.length l /\ In x l /\ incl r l.
Proof.
  revert x r; induction l as [| y t IH]; intros x r; simpl; [contradiction |].
  intros [H | H].
  - injection H as <- <-. repeat split; [now left | apply incl_tl, incl_refl].
  - apply in_map_iff in H. destruct H as ([z q] & Heq & Hin).
    injection Heq as <- <-. destruct (IH z q Hin) as (Hlen & Hz & Hq).
    split; [simpl; now rewrite Hlen |].
    split; [now right |].
    intros a [<- | Ha]; [now left | right; now apply Hq].
Qed.

Lemma flat_map_length_const {Y Z : Type} (f : Y -> list Z) (l : list Y)
    (c : nat) :
  (forall y, In y l -> List.length (f y) = c) ->
  List.length (flat_map f l) = (List.length l * c)%nat.
Proof.
  induction l as [| y t IH]; intros H; simpl; [reflexivity |].
  rewrite length_app, (H y (or_introl eq_refl)), IH; [reflexivity |].
  intros z Hz. apply H. now right.
Qed.

Lemma permutations_length (r : nat) (l : list X) :
  List.length (permutations r l) = arrangements (List.length l) r.
Proof.
  revert l; induction r as [| r IH]; intros l; simpl; [reflexivity |].
  rewrite (flat_map_length_const _ _ (arrangements (List.length l - 1) r)).
  - now rewrite select_length.
  - intros [x rest] Hin. rewrite length_map, IH.
    apply select_rest in Hin. destruct Hin as (Hlen & _ & _).
    rewrite <- Hlen. simpl. now rewrite Nat.sub_0_r.
Qed.

Lemma permutations_elements (r : nat) (l p : list X) :
  In p (permutations r l) -> List.length p = r /\ incl p l.
Proof.
  revert l p; induction r as [| r IH]; intros l p; simpl.
  - intros [<- | []]. split; [reflexivity | intros a []].
  - intros H. apply in_flat_map in H. destruct H as ([x rest] & Hsel & Hin).
    apply in_map_iff in Hin. destruct Hin as (q & <- & Hq).
    apply select_rest in Hsel. destruct Hsel as (_ & Hx & Hrest).
    destruct (IH rest q Hq) as (Hlen & Hincl).
    split; [simpl; now rewrite Hlen |].
    intros a [<- | Ha]; [assumption | now apply Hrest, Hincl].
Qed.
End PermutationsFacts.

(** ** More on the string methods *)

Module PyStrMore.
Import PyStr PyStrFacts.

Lemma list_ascii_app (s t : string) :
  list_ascii_of_string (s ++ t)
  = list_ascii_of_string s ++ list_ascii_of_string t.
Proof. induction s as [| c s IH]; simpl; [reflexivity | now rewrite IH]. Qed.

Lemma has_char_app (c : ascii) (s t : string) :
  has_char c (s ++ t) = has_char c s || has_char c t.
Proof. unfold has_char. now rewrite list_ascii_app, existsb_app. Qed.

Lemma has_char_cons (c d : ascii) (s : string) :
  has_char c (String d s) = Ascii.eqb c d || has_char c s.
Proof. reflexivity. Qed.

Lemma has_char_rev (c : ascii) (s : string) :
  has_char c (rev s) = has_char c s.
Proof.
  unfold has_char, rev. rewrite list_ascii_of_string_of_list_ascii.
  generalize (list_ascii_of_string s) as l; intros l.
  induction l as [| d l IH]; simpl; [reflexivity |].
  rewrite existsb_app, IH. simpl. rewrite orb_false_r. apply orb_comm.
Qed.

Lemma has_char_lstrip (c : ascii) (chars : list ascii) (s : string) :
  existsb (Ascii.eqb c) chars = false ->
  has_char c (lstrip chars s) = has_char c s.
Proof.
  intros Hc. induction s as [| d s IH]; simpl; [reflexivity |].
  destruct (existsb (Ascii.eqb d) chars) eqn:E; [| reflexivity].
  rewrite IH, has_char_cons.
  destruct (Ascii.eqb c d) eqn:Ecd; [| reflexivity].
  apply Ascii.eqb_eq in Ecd. subst d. congruence.
Qed.

Lemma has_char_rstrip (c : ascii) (chars : list ascii) (s : string) :
  existsb (Ascii.eqb c) chars = false ->
  has_char c (rstrip chars s) = has_char c s.
Proof.
  intros Hc. unfold rstrip.
  now rewrite has_char_rev, has_char_lstrip, has_char_rev.
Qed.

Lemma has_char_remove (c d : ascii) (s : string) :
  Ascii.eqb c d = false -> has_char c (replace d "" s) = has_char c s.
Proof.
  intros Hcd. induction s as [| e s IH]; simpl; [reflexivity |].
  destruct (Ascii.eqb e d) eqn:E.
  - apply Ascii.eqb_eq in E. subst e. simpl.
    now rewrite IH, has_char_cons, Hcd.
  - now rewrite !has_char_cons, IH.
Qed.

(** A string with a comma splits into two fields at least. *)
Lemma split_comma_two (s : string) (cur : list ascii) :
  has_char "," s = true ->
  exists a b rest, split_aux "," s 0 cur = a :: b :: rest.
Proof.
  revert cur; induction s as [| c s IH]; intros cur H; [discriminate |].
  cbn [split_aux String.prefix String.length Nat.sub].
  destruct (ascii_dec "," c) as [<- | Hc].
  - assert (Hp : String.prefix "" s = true) by (destruct s; reflexivity).
    rewrite Hp.
    destruct (split_aux "," s 0 []) as [| b rest] eqn:E;
      [now apply split_aux_nonempty in E |].
    now eexists _, _, _.
  - rewrite has_char_cons in H.
    destruct (Ascii.eqb "," c) eqn:E.
    + apply Ascii.eqb_eq in E. congruence.
    + now apply IH.
Qed.

(** Splitting at commas a text whose first field has none. *)
Lemma split_comma_field (a s : string) (cur : list ascii) :
  has_char "," a = false ->
  split_aux "," (a ++ String "," s) 0 cur
  = string_of_list_ascii (List.rev cur ++ list_ascii_of_string a)
    :: split_aux "," s 0 [].
Proof.
  revert cur; induction a as [| c a IH]; intros cur H.
  - cbn [append split_aux String.prefix String.length Nat.sub].
    destruct (ascii_dec "," ","); [| congruence].
    assert (Hp : String.prefix "" s = true) by (destruct s; reflexivity).
    rewrite Hp. simpl. now rewrite app_nil_r.
  - rewrite has_char_cons in H. apply orb_false_iff in H.
    destruct H as [Hc Ha].
    cbn [append split_aux String.prefix String.length Nat.sub].
    destruct (ascii_dec "," c) as [<- | _].
    + now rewrite Ascii.eqb_refl in Hc.
    + rewrite (IH _ Ha). simpl. now rewrite <- app_assoc.
Qed.

Lemma split_comma_last (a : string) (cur : list ascii) :
  has_char "," a = false ->
  split_aux "," a 0 cur
  = [string_of_list_ascii (List.rev cur ++ list_ascii_of_string a)].
Proof.
  revert cur; induction a as [| c a IH]; intros cur H.
  - simpl. now rewrite app_nil_r.
  - rewrite has_char_cons in H. apply orb_false_iff in H.
    destruct H as [Hc Ha].
    cbn [split_aux String.prefix String.length Nat.sub].
    destruct (ascii_dec "," c) as [<- | _].
    + now rewrite Ascii.eqb_refl in Hc.
    + rewrite (IH _ Ha). simpl. now rewrite <- app_assoc.
Qed.




(** [rsplit] at the last underscore. *)
Lemma rsplit1_none (sep : ascii) (l : list ascii) :
  existsb (Ascii.eqb sep) l = false -> rsplit1_head_aux sep l = None.
Proof.
  induction l as [| c l IH]; simpl; [reflexivity |].
  intros H. apply orb_false_iff in H. destruct H as [Hc Hl].
  rewrite (IH Hl). rewrite Ascii.eqb_sym in Hc. now rewrite Hc.
Qed.

Lemma rsplit1_head_last (sep : ascii) (s t : string) :
  has_char sep t = false ->
  rsplit1_head sep (s ++ String sep t) = s.
Proof.
  intros Ht. unfold rsplit1_head. rewrite list_ascii_app.
  cbn [list_ascii_of_string].
  assert (H : rsplit1_head_aux sep
                (list_ascii_of_string s ++ sep :: list_ascii_of_string t)
              = Some (list_ascii_of_string s)).
  { generalize (list_ascii_of_string s) as l; intros l.
    induction l as [| c l IH]; simpl.
    - rewrite (rsplit1_none sep _ Ht). now rewrite Ascii.eqb_refl.
    - now rewrite IH. }
  rewrite H. apply string_of_list_ascii_of_string.
Qed.

End PyStrMore.

(** ** More on the triplet geometry extractor *)

Module ExtractorMore.
Import Np CollectData Scenes ExtractorFacts.
Local Open Scope R_scope.

(** A frame with n centroids gets n (n-1) (n-2) new rows, one per ordered
    triplet of distinct objects: none for fewer than three objects. *)
Theorem getAngleDistCombos_row_count (f f' : Frame) :
  getAngleDistCombos f = Some f' ->
  centroids f' = centroids f
  /\ List.length (combos f')
     = (List.length (combos f)
        + List.length (centroids f) * ((List.length (centroids f) - 1)
           * (List.length (centroids f) - 2)))%nat.
Proof.
  unfold getAngleDistCombos.
  destruct (mapM _ _) as [new |] eqn:E; [| discriminate].
  intros [= <-]. split; [reflexivity |]. simpl combos.
  rewrite length_app. f_equal.
  apply mapM_length in E. rewrite E. unfold name_combos.
  rewrite length_map, permutations_length, length_map. simpl.
  rewrite Nat.mul_1_r.
  replace (List.length (centroids f) - 1 - 1)%nat
    with (List.length (centroids f) - 2)%nat by lia.
  reflexivity.
Qed.

Lemma getAngleDistCombos_row_count_witness :
  exists f', getAngleDistCombos synthetic = Some f'
             /\ List.length (combos f') = 6%nat.
Proof.
  eexists. split; [reflexivity |].
  exact (proj2 (getAngleDistCombos_row_count synthetic _ eq_refl)).
Defined.

(** *** Ranges of the fields *)

Lemma norm_nonneg (u : Vec3) : 0 <= norm u.
Proof. apply sqrt_pos. Qed.





Lemma degrees_range (a : R) : 0 <= a <= PI -> 0 <= a * (180 / PI) <= 180.
Proof.
  intros [H0 H1]. pose proof PI_RGT_0 as Hpi.
  assert (Hk : 0 < 180 / PI) by (apply Rdiv_lt_0_compat; lra).
  split; [nra |].
  replace 180 with (PI * (180 / PI)) at 2 by (field; lra).
  apply Rmult_le_compat_r; lra.
Qed.

Lemma angle_valid (u v : Vec3) : valid_angle (angle u v).
Proof.
  unfold angle, valid_angle.
  destruct (divide (dot u v) (norm u * norm v)) as [c | | |];
    try (left; reflexivity).
  unfold arccos.
  destruct (Rle_dec (-1) c) as [Hl |]; [| left; reflexivity].
  destruct (Rle_dec c 1) as [Hh |]; [| left; reflexivity].
  right. eexists. split; [reflexivity |].
  apply degrees_range, acos_bound.
Qed.


(** Every row the extractor appends holds three finite, non-negative
    distances and three angles that are each NaN or between 0 and 180
    degrees. *)
Theorem combo_row_ranges (cs : list (string * Vec3)) (combo : list string)
    (row : list (cell npfloat)) :
  combo_row cs combo = Some row ->
  exists dAB dAC dAO aBAC aOAB aOAC,
    row_values row = [Fin dAB; Fin dAC; Fin dAO; aBAC; aOAB; aOAC]
    /\ 0 <= dAB /\ 0 <= dAC /\ 0 <= dAO
    /\ valid_angle aBAC /\ valid_angle aOAB /\ valid_angle aOAC.
Proof.
  unfold combo_row.
  destruct combo as [| k0 [| k1 [| k2 rest]]]; try discriminate.
  destruct (lookup k0 cs) as [A |]; [| discriminate].
  destruct (lookup k1 cs) as [B |]; [| discriminate].
  destruct (lookup k2 cs) as [C |]; [| discriminate].
  destruct (formatName k0), (formatName k1), (formatName k2);
    try discriminate.
  intros [= <-].
  exists (distAB A B), (distAC A C), (distAO A),
    (angleBAC A B C), (angleOAB A B), (angleOAC A C).
  split; [reflexivity |].
  repeat split; try apply norm_nonneg; apply angle_valid.
Qed.

Lemma combo_row_ranges_witness :
  exists row dAB dAC dAO aBAC aOAB aOAC,
    combo_row (centroids synthetic) [keyA; keyB; keyC] = Some row
    /\ row_values row = [Fin dAB; Fin dAC; Fin dAO; aBAC; aOAB; aOAC]
    /\ 0 <= dAB /\ 0 <= dAC /\ 0 <= dAO
    /\ valid_angle aBAC /\ valid_angle aOAB /\ valid_angle aOAC.
Proof.
  eexists.
  destruct (combo_row_ranges (centroids synthetic) [keyA; keyB; keyC] _
              eq_refl)
    as (dAB & dAC & dAO & aBAC & aOAB & aOAC & H).
  exists dAB, dAC, dAO, aBAC, aOAB, aOAC. split; [reflexivity | exact H].
Defined.

(** *** Non-degenerate triplets *)

Lemma norm_vsub_sym (u v : Vec3) : norm (vsub u v) = norm (vsub v u).
Proof.
  unfold norm. f_equal.
  destruct u as [[a b] c], v as [[x y] z]. simpl. ring.
Qed.



(** The same physical quantity gets the same value in different rows: the
    distance AB in the rows of (A,B,.) and (B,A,.), and the angle BAC in the
    rows of (A,B,C) and (A,C,B). *)
Theorem same_quantity_across_rows (A B C : Vec3) :
  distAB A B = distAB B A /\ angleBAC A C B = angleBAC A B C.
Proof.
  split; [apply norm_vsub_sym |].
  unfold angleBAC, angle. f_equal. f_equal.
  destruct A as [[a1 a2] a3], B as [[b1 b2] b3], C as [[c1 c2] c3].
  rewrite (Rmult_comm (norm _) (norm _)). f_equal. simpl. ring.
Qed.

(** *** Labels *)

Lemma formatName_parts (k : string) :
  formatName k
  = option_map (fun p => (fst p ++ String "_" (snd p))%string) (label_parts k).
Proof.
  unfold formatName, label_parts.
  destruct (PyStr.split "," _) as [| n0 [| n1 rest]]; reflexivity.
Qed.

(** The key under which the aggregator files a label is the label without
    the identifier that the extractor appended: when the identifier has no
    underscore, [rsplit('_',1)[0]] of the formatted label is the object's
    name. *)
Theorem canonical_of_label (k name ident : string) :
  label_parts k = Some (name, ident) ->
  PyStr.has_char "_" ident = false ->
  exists label,
    formatName k = Some label /\ Aggregator.canonical label = name.
Proof.
  intros Hp Hid. rewrite formatName_parts, Hp. simpl.
  eexists. split; [reflexivity |].
  unfold Aggregator.canonical. now apply PyStrMore.rsplit1_head_last.
Qed.

Lemma canonical_of_label_witness :
  exists label,
    formatName "['coffee table', '2']" = Some label
    /\ Aggregator.canonical label = "coffee_table"%string.
Proof.
  apply (canonical_of_label "['coffee table', '2']" "coffee_table" "2");
    reflexivity.
Defined.

(** *** Frames on which the extractor cannot raise *)





(** The keys that [processJSON] makes from the names of the objects always
    have the two fields that the label formatting reads: on them the
    formatting never raises. *)
Theorem polygon_key_formats (repr_str : string -> string) (name : string) :
  exists label,
    formatName (Object1.polygon_key repr_str name) = Some label.
Proof.
  assert (Hcomma : PyStr.has_char ","
                     (Object1.polygon_key repr_str name) = true).
  { unfold Object1.polygon_key, Object1.str_list.
    assert (Hitems : exists x y l, Object1.getName name = x :: y :: l).
    { unfold Object1.getName.
      destruct (PyStr.split ":" name) as [| p [| q l]] eqn:E.
      - now apply PyStrFacts.split_aux_nonempty in E.
      - simpl. now eexists _, _, _.
      - simpl. now eexists _, _, _. }
    destruct Hitems as (x & y & l & ->).
    unfold PyStr.join. cbn [map].
    change (String.concat ", " (Object1.repr_item repr_str x
              :: Object1.repr_item repr_str y
              :: map (Object1.repr_item repr_str) l))
      with (Object1.repr_item repr_str x ++ ", "
            ++ String.concat ", " (Object1.repr_item repr_str y
                 :: map (Object1.repr_item repr_str) l))%string.
    rewrite !PyStrMore.has_char_app. simpl.
    rewrite orb_true_r. reflexivity. }
  unfold formatName.
  destruct (PyStrMore.split_comma_two
              (PyStr.replace "'" ""
                 (PyStr.rstrip ["]"%char]
                    (PyStr.lstrip ["["%char]
                       (Object1.polygon_key repr_str name)))) [])
    as (a & b & rest & E).
  - rewrite PyStrMore.has_char_remove by reflexivity.
    rewrite PyStrMore.has_char_rstrip by reflexivity.
    rewrite PyStrMore.has_char_lstrip by reflexivity.
    exact Hcomma.
  - unfold PyStr.split. rewrite E. now eexists.
Qed.

End ExtractorMore.

(** ** More on the corpus aggregator *)

Module AggregatorMore.
Import Aggregator AggregatorFacts.
Local Open Scope R_scope.

(** *** Counts *)

Lemma add_observation_count (k : string) (vals : list R)
    (d : list (string * accum)) :
  list_sum (map (fun e => cnt (snd e)) (add_observation k vals d))
  = S (list_sum (map (fun e => cnt (snd e)) d)).
Proof.
  induction d as [| [k0 a] d IH]; simpl; [reflexivity |].
  destruct (String.eqb k0 k); simpl; [reflexivity |].
  rewrite IH. lia.
Qed.

Lemma add_all_count (obs : list (string * list R))
    (d : list (string * accum)) :
  list_sum (map (fun e => cnt (snd e)) (add_all obs d))
  = (list_sum (map (fun e => cnt (snd e)) d) + List.length obs)%nat.
Proof.
  unfold add_all. revert d; induction obs as [| o obs IH]; intros d; simpl.
  - lia.
  - rewrite IH, add_observation_count. lia.
Qed.

Lemma output_row_count (e : string * accum) (r : AvgRow) :
  output_row e = Some r -> count r = cnt (snd e).
Proof.
  destruct e as [k a]. unfold output_row.
  destruct (PyStr.split "," k) as [| x [| y [| z [| ? ?]]]]; try discriminate.
  now intros [= <-].
Qed.

Lemma output_table_counts (averages : list (string * accum))
    (table : list AvgRow) :
  mapM output_row averages = Some table ->
  map count table = map (fun e => cnt (snd e)) averages.
Proof.
  intros H. apply mapM_Forall2 in H.
  induction H as [| e r avs t Her _ IH]; simpl; [reflexivity |].
  now rewrite IH, (output_row_count e r Her).
Qed.

Lemma corpus_observations_length (files : list (csv R))
    (obs : list (string * list R)) :
  corpus_observations files = Some obs ->
  List.length obs = List.length (List.concat (map rows files)).
Proof.
  unfold corpus_observations.
  destruct (mapM file_observations files) as [os |] eqn:E; [| discriminate].
  intros [= <-]. apply mapM_Forall2 in E.
  induction E as [| f o fs os Hf _ IH]; simpl; [reflexivity |].
  rewrite !length_app, IH. f_equal.
  unfold file_observations in Hf. now apply mapM_length in Hf.
Qed.

(** No row of the corpus is lost or counted twice: the counts of the
    averaged table add up to the number of rows of the scene files. *)
Theorem averageTriplets_counts (files rewritten : list (csv R))
    (table : list AvgRow) :
  averageTriplets files = Some (rewritten, table) ->
  list_sum (map count table) = List.length (List.concat (map rows files)).
Proof.
  unfold averageTriplets. rewrite average_files_obs.
  destruct (corpus_observations files) as [obs |] eqn:Eobs; [| discriminate].
  cbn [bind].
  destruct (mapM output_row (add_all obs [])) as [t |] eqn:Et;
    [| discriminate].
  cbn [bind]. intros [= _ <-].
  rewrite (output_table_counts _ _ Et), add_all_count. simpl.
  now apply corpus_observations_length.
Qed.

Lemma averageTriplets_counts_witness :
  exists table,
    averageTriplets Corpora.two_scenes
    = Some (map strip_columns Corpora.two_scenes, table)
    /\ list_sum (map count table) = 3%nat.
Proof.
  eexists. split; [reflexivity |].
  exact (averageTriplets_counts Corpora.two_scenes _ _ eq_refl).
Defined.

(** *** One observation *)

Lemma field_mean_one (i : nat) (vals : list R) :
  field_mean i [vals] = nth i vals 0.
Proof. unfold field_mean, sum. simpl. field. Qed.

(** Averaging leaves a key that was seen once unchanged: its entry holds
    the six numbers of its only observation and the count 1. *)
Theorem averageTriplets_single (files rewritten : list (csv R))
    (table : list AvgRow) (obs : list (string * list R)) (key : string)
    (vals : list R) :
  averageTriplets files = Some (rewritten, table) ->
  corpus_observations files = Some obs ->
  group key obs = [vals] ->
  lookup key (averaging_dictionary table) = Some (map Val vals ++ [Val 1]).
Proof.
  unfold averageTriplets. rewrite average_files_obs.
  intros H Hobs Hg. rewrite Hobs in H. cbn [bind] in H.
  destruct (mapM output_row (add_all obs [])) as [t |] eqn:Et;
    [| discriminate].
  cbn [bind] in H. injection H as _ <-.
  pose proof (corpus_observations_six _ _ Hobs) as Hsix.
  rewrite (proj2 (averaging_dictionary_lookup obs t key Hsix Et)), Hg.
  assert (Hlen : List.length vals = 6%nat).
  { rewrite Forall_forall in Hsix.
    assert (Hin : In vals (group key obs)) by (rewrite Hg; now left).
    unfold group in Hin. apply in_map_iff in Hin.
    destruct Hin as (o & <- & Ho). apply filter_In in Ho.
    now apply Hsix. }
  destruct vals as [| v0 [| v1 [| v2 [| v3 [| v4 [| v5 [| ? ?]]]]]]];
    try discriminate.
  unfold for_group, mean_entry. rewrite !field_mean_one. reflexivity.
Qed.

Lemma averageTriplets_single_witness :
  exists table,
    averageTriplets [Corpora.exported_scene]
    = Some ([strip_columns Corpora.exported_scene], table)
    /\ lookup "A,B,C"%string (averaging_dictionary table)
       = Some [Val 1; Val 1; Val 1; Val 90; Val 180; Val 90; Val 1].
Proof.
  eexists. split; [reflexivity |].
  exact (averageTriplets_single [Corpora.exported_scene] _ _
           [("A,B,C"%string, [1; 1; 1; 90; 180; 90])] "A,B,C"
           [1; 1; 1; 90; 180; 90] eq_refl eq_refl eq_refl).
Defined.

(** *** The order of the two aggregation passes *)

Lemma read_row_clean_names (row : list (cell R)) (o : string * list R) :
  read_row Corpora.clean_header row = Some o ->
  exists a b c rest, row = Name a :: Name b :: Name c :: rest.
Proof.
  unfold read_row, bind, get_name.
  change (column Corpora.clean_header "objectA" row) with (nth_error row 0).
  change (column Corpora.clean_header "objectB" row) with (nth_error row 1).
  change (column Corpora.clean_header "objectC" row) with (nth_error row 2).
  destruct row as [| [a | ?] [| [b | ?] [| [c | ?] rest]]];
    simpl; try discriminate.
  intros _. now eexists _, _, _, _.
Qed.

Lemma canonicalize_clean_row (a b c : string) (rest : list (cell R)) :
  canonicalize_row Corpora.clean_header
    (Name a :: Name b :: Name c :: rest)
  = Some (Name (canonical a) :: Name (canonical b) :: Name (canonical c)
          :: rest).
Proof. reflexivity. Qed.

(** [gatherTriplets] cannot read a scene file as [Frame.export] writes it,
    because of the blanks in its header line: it raises on the column
    objectB.  Once [averageTriplets] has gone over the file and written it
    back with clean column names, [gatherTriplets] reads it. *)
Theorem gatherTriplets_needs_clean_header
    (sort_values : list (list (cell R)) -> list (list (cell R)))
    (f : csv R) (rewritten : list (csv R)) (table : list AvgRow) :
  header f = PyStr.split "," CollectData.export_header_line ->
  averageTriplets [f] = Some (rewritten, table) ->
  gatherTriplets sort_values [f] = None
  /\ exists master,
       gatherTriplets sort_values rewritten
       = Some (mkCsv Corpora.clean_header (sort_values master))
       /\ List.length master = List.length (rows f).
Proof.
  intros Hh. unfold averageTriplets. rewrite average_files_obs.
  destruct (corpus_observations [f]) as [obs |] eqn:Eobs; [| discriminate].
  cbn [bind].
  destruct (mapM output_row (add_all obs [])) as [t |]; [| discriminate].
  cbn [bind]. intros [= <- _].
  split.
  - unfold gatherTriplets. rewrite foldM_cons.
    unfold canonicalize_file. rewrite Hh. reflexivity.
  - unfold corpus_observations in Eobs. cbn [mapM] in Eobs.
    destruct (file_observations f) as [o |] eqn:Ef; [| discriminate].
    clear Eobs. unfold file_observations in Ef. rewrite Hh in Ef.
    change (map PyStr.strip (PyStr.split "," CollectData.export_header_line))
      with Corpora.clean_header in Ef.
    assert (Hrows : exists rs,
              mapM (canonicalize_row Corpora.clean_header) (rows f) = Some rs
              /\ List.length rs = List.length (rows f)).
    { apply mapM_Forall2 in Ef. clear Hh.
      induction Ef as [| row o1 rs os Hrow _ IH].
      - now exists [].
      - destruct (read_row_clean_names row o1 Hrow) as (a & b & c & rest & ->).
        destruct IH as (rs' & Hrs & Hlen).
        eexists. cbn [mapM]. rewrite canonicalize_clean_row, Hrs.
        split; [reflexivity |]. simpl. now rewrite Hlen. }
    destruct Hrows as (rs & Hrs & Hlen).
    exists rs. split; [| exact Hlen].
    unfold gatherTriplets. cbn [map]. rewrite foldM_cons.
    unfold canonicalize_file, strip_columns. cbn [header rows].
    rewrite Hh.
    change (map PyStr.strip (PyStr.split "," CollectData.export_header_line))
      with Corpora.clean_header.
    cbn [index_of String.eqb Corpora.clean_header bind option_map].
    change (index_of "objectA" Corpora.clean_header) with (Some 0%nat).
    change (index_of "objectB" Corpora.clean_header) with (Some 1%nat).
    change (index_of "objectC" Corpora.clean_header) with (Some 2%nat).
    cbn [bind]. rewrite Hrs. reflexivity.
Qed.

Lemma gatherTriplets_needs_clean_header_witness :
  exists table master,
    averageTriplets [Corpora.exported_scene]
    = Some ([strip_columns Corpora.exported_scene], table)
    /\ gatherTriplets (fun l => l) [Corpora.exported_scene] = None
    /\ gatherTriplets (fun l => l) [strip_columns Corpora.exported_scene]
       = Some (mkCsv Corpora.clean_header master)
    /\ List.length master = List.length (rows Corpora.exported_scene).
Proof.
  assert (E : exists table,
             averageTriplets [Corpora.exported_scene]
             = Some ([strip_columns Corpora.exported_scene], table))
    by (eexists; reflexivity).
  destruct E as [table E].
  assert (Hh : header Corpora.exported_scene
               = PyStr.split "," CollectData.export_header_line)
    by reflexivity.
  destruct (gatherTriplets_needs_clean_header (fun l => l)
              Corpora.exported_scene [strip_columns Corpora.exported_scene]
              table Hh E) as (H1 & master & H2 & H3).
  exists table, master. repeat split; assumption.
Defined.

(** *** Averages of non-negative distances *)

Lemma sum_nonneg (l : list R) : Forall (fun x => 0 <= x) l -> 0 <= sum l.
Proof.
  induction 1 as [| x l Hx _ IH]; [unfold sum; simpl; lra |].
  rewrite sum_cons. lra.
Qed.

Lemma field_mean_nonneg (i : nat) (g : list (list R)) :
  g <> [] -> Forall (fun vals => 0 <= nth i vals 0) g -> 0 <= field_mean i g.
Proof.
  intros Hne H. unfold field_mean.
  apply Rmult_le_pos.
  - apply sum_nonneg. now apply Forall_map.
  - left. apply Rinv_0_lt_compat, lt_0_INR.
    destruct g; [congruence | simpl; lia].
Qed.

(** The averaged table keeps the invariant of the records: when the three
    distances of every observation of the corpus are non-negative, so are
    the three distances of every entry of the relation table that the solver
    loads in averaging mode. *)
Theorem averaging_keeps_distances_nonneg (files rewritten : list (csv R))
    (table : list AvgRow) (obs : list (string * list R)) :
  averageTriplets files = Some (rewritten, table) ->
  corpus_observations files = Some obs ->
  (forall o i, In o obs -> (i < 3)%nat -> 0 <= nth i (snd o) 0) ->
  Solver.nonneg_distances (averaging_dictionary table).
Proof.
  unfold averageTriplets. rewrite average_files_obs.
  intros H Hobs Hnn. rewrite Hobs in H. cbn [bind] in H.
  destruct (mapM output_row (add_all obs [])) as [t |] eqn:Et;
    [| discriminate].
  cbn [bind] in H. injection H as _ <-.
  pose proof (corpus_observations_six _ _ Hobs) as Hsix.
  intros key data i v Hl Hi Hv.
  rewrite (proj2 (averaging_dictionary_lookup obs t key Hsix Et)) in Hl.
  destruct (group key obs) as [| v0 g] eqn:Eg; [discriminate |].
  cbn [for_group] in Hl. injection Hl as <-.
  assert (Hall : forall j, (j < 3)%nat ->
                 Forall (fun vals => 0 <= nth j vals 0) (v0 :: g)).
  { intros j Hj. rewrite <- Eg. apply Forall_forall.
    intros vals Hin. unfold group in Hin. apply in_map_iff in Hin.
    destruct Hin as (o & <- & Ho). apply filter_In in Ho.
    apply Hnn; tauto. }
  destruct i as [| [| [| i]]]; try lia; cbn in Hv; injection Hv as <-;
    (apply field_mean_nonneg; [discriminate | apply Hall; lia]).
Qed.

Lemma averaging_keeps_distances_nonneg_witness :
  exists table,
    averageTriplets Corpora.two_scenes
    = Some (map strip_columns Corpora.two_scenes, table)
    /\ Solver.nonneg_distances (averaging_dictionary table).
Proof.
  eexists. split; [reflexivity |].
  refine (averaging_keeps_distances_nonneg Corpora.two_scenes _ _
            [("A,B,C"%string, [1; 1; 1; 90; 180; 90]);
             ("A,B,C"%string, [3; 5; 7; 30; 60; 45]);
             ("A,B,D"%string, [2; 2; 2; 60; 60; 60])]
            eq_refl eq_refl _).
  intros o i [<- | [<- | [<- | []]]] Hi;
    destruct i as [| [| [| i]]]; simpl; lra || lia.
Defined.

End AggregatorMore.

(** ** More on loops with a state *)

Lemma foldM_invariant {S X : Type} (P : S -> Prop) (body : S -> X -> option S)
    (l : list X) (s s' : S) :
  (forall s0 x s1, P s0 -> body s0 x = Some s1 -> P s1) ->
  P s -> foldM body l s = Some s' -> P s'.
Proof.
  intros Hstep. revert s; induction l as [| x l IH]; intros s Hs H.
  - injection H as <-. exact Hs.
  - rewrite foldM_cons in H.
    destruct (body s x) as [s1 |] eqn:E; [| discriminate].
    apply (IH s1); [eapply Hstep; eassumption | exact H].
Qed.

(** ** More on the object size estimator *)

Module SizesMore.
Import Np Py Sizes SizesFacts.
Local Open Scope R_scope.

(** *** The distances that are gathered *)

Lemma append_to_gathered (name : string) (v : R) (d : list (string * list R)) :
  0 <= v ->
  Forall (fun e => gathered (snd e)) d ->
  Forall (fun e => gathered (snd e)) (append_to name v d).
Proof.
  intros Hv. induction 1 as [| [k l] d [Hne Hall] Hd IH]; simpl.
  - constructor; [| constructor]. split; [discriminate |].
    constructor; [exact Hv | constructor].
  - destruct (String.eqb k name).
    + constructor; [| assumption]. split.
      * destruct l; discriminate.
      * apply Forall_app. split; [assumption |].
        constructor; [exact Hv | constructor].
    + constructor; [now split | assumption].
Qed.

Lemma extend_gathered (name : string) (dist : list R)
    (d : list (string * list R)) :
  gathered dist ->
  Forall (fun e => gathered (snd e)) d ->
  Forall (fun e => gathered (snd e)) (extend name dist d).
Proof.
  intros [Hne Hall]. induction 1 as [| [k l] d [Hlne Hlall] Hd IH]; simpl.
  - constructor; [now split | constructor].
  - destruct (String.eqb k name).
    + constructor; [| assumption]. split.
      * intros E. apply app_eq_nil in E. tauto.
      * apply Forall_app. now split.
    + constructor; [now split | assumption].
Qed.

Section GatherFacts.
Variable literal_first : string -> option string.

Lemma read_line_gathered (centroids : list (string * (R * R * R)))
    (st st' : option string * list (string * list R)) (line : line3d) :
  Forall (fun e => gathered (snd e)) (snd st) ->
  read_line centroids st line = Some st' ->
  Forall (fun e => gathered (snd e)) (snd st').
Proof.
  destruct st as [name distances]. intros H. unfold read_line.
  destruct line as [n | x2 y2 z2].
  - now intros [= <-].
  - destruct name as [n |]; [| discriminate]. cbn [bind].
    destruct (lookup n centroids) as [[[x1 y1] z1] |]; [| discriminate].
    cbn [bind]. intros [= <-]. simpl.
    apply append_to_gathered; [apply sqrt_pos | exact H].
Qed.

Lemma read_file_gathered (st st' : option string * list (string * list R))
    (f : list (string * (R * R * R)) * list line3d) :
  Forall (fun e => gathered (snd e)) (snd st) ->
  read_file literal_first st f = Some st' ->
  Forall (fun e => gathered (snd e)) (snd st').
Proof.
  destruct st as [name sizes]. intros H. unfold read_file.
  destruct (foldM (read_line (fst f)) (snd f) (name, [])) as [r |] eqn:Er;
    [| discriminate].
  cbn [bind].
  assert (Hr : Forall (fun e => gathered (snd e)) (snd r)).
  { apply (foldM_invariant
             (fun s => Forall (fun e => gathered (snd e)) (snd s))
             (read_line (fst f)) (snd f) (name, []) r
             (fun s0 x s1 => read_line_gathered (fst f) s0 s1 x)
             (Forall_nil _) Er). }
  destruct (foldM _ (snd r) sizes) as [sizes' |] eqn:Es; [| discriminate].
  cbn [bind]. intros [= <-]. simpl.
  revert Es. generalize (snd r) Hr sizes H.
  intros ds Hds. induction Hds as [| od ds Hod _ IH]; intros sz Hsz Es.
  - injection Es as <-. exact Hsz.
  - rewrite foldM_cons in Es.
    destruct (literal_first (fst od)) as [first |]; [| discriminate].
    cbn [bind] in Es.
    apply (IH (extend (PyStr.replace " " "_" first) (snd od) sz));
      [| exact Es].
    now apply extend_gathered.
Qed.

(** Every list of distances that the first half of [approximateObjectSizes]
    hands to the second half is non-empty and holds no negative number: the
    median is never taken of an empty series. *)
Theorem gather_sizes_gathered
    (files : list (list (string * (R * R * R)) * list line3d))
    (sizes : list (string * list R)) :
  gather_sizes literal_first files = Some sizes ->
  Forall (fun e => gathered (snd e)) sizes.
Proof.
  unfold gather_sizes.
  destruct (foldM (read_file literal_first) files (None, [])) as [st |] eqn:E;
    [| discriminate].
  intros [= <-].
  apply (foldM_invariant
           (fun s => Forall (fun e => gathered (snd e)) (snd s))
           (read_file literal_first) files (None, []) st
           (fun s0 x s1 => read_file_gathered s0 s1 x)
           (Forall_nil _) E).
Qed.
End GatherFacts.

Lemma gather_sizes_gathered_witness :
  exists sizes,
    gather_sizes (fun _ => Some "chair"%string) [chair_file] = Some sizes
    /\ Forall (fun e => gathered (snd e)) sizes.
Proof.
  eexists. split; [reflexivity |].
  exact (gather_sizes_gathered (fun _ => Some "chair"%string) [chair_file] _
           eq_refl).
Defined.

(** *** Bounds of the diameter *)

Lemma median_sorted_bounds (l : list R) (lo hi : R) :
  l <> [] -> Forall (fun x => lo <= x <= hi) l ->
  lo <= median_sorted l <= hi.
Proof.
  intros Hne Hall. rewrite Forall_forall in Hall.
  assert (Hlen : (0 < List.length l)%nat)
    by (destruct l; [congruence | simpl; lia]).
  assert (Hn : forall i, (i < List.length l)%nat -> lo <= nth i l 0 <= hi)
    by (intros i Hi; apply Hall, nth_In, Hi).
  assert (Hhalf : (List.length l / 2 < List.length l)%nat)
    by (apply Nat.div_lt; lia).
  unfold median_sorted.
  destruct (Nat.even (List.length l)).
  - pose proof (Hn (List.length l / 2 - 1)%nat ltac:(lia)).
    pose proof (Hn (List.length l / 2)%nat Hhalf). lra.
  - now apply Hn.
Qed.

(** The diameter of an object lies between its smallest and its largest
    distance; it is not negative when no distance is. *)
Theorem trimmed_median_bounds (dist : list R) (lo hi : R) :
  dist <> [] -> Forall (fun x => lo <= x <= hi) dist ->
  lo <= trimmed_median dist <= hi.
Proof.
  intros Hne Hall. unfold trimmed_median.
  apply median_sorted_bounds; [now apply trimmed_nonempty |].
  destruct (trimmed_split dist) as (Hsplit & _ & _).
  assert (Hs : Forall (fun x => lo <= x <= hi) (sort_values dist))
    by (eapply Permutation_Forall; [apply sort_values_perm | exact Hall]).
  rewrite Hsplit in Hs. apply Forall_app in Hs. tauto.
Qed.

Lemma trimmed_median_bounds_witness : 0 <= trimmed_median [3; 0; 5] <= 5.
Proof.
  apply trimmed_median_bounds; [discriminate |].
  repeat constructor; lra.
Defined.

(** *** The table of sizes *)

Lemma fold_max_int_ge (t : list nat) (x y : nat) :
  In y (x :: t) -> (y <= fold_left Nat.max t x)%nat.
Proof.
  revert x y; induction t as [| a t IH]; intros x y Hin; simpl.
  - destruct Hin as [E | []]. lia.
  - destruct Hin as [E | [E | Hin]].
    + apply Nat.le_trans with (Nat.max x a); [lia | apply IH; now left].
    + apply Nat.le_trans with (Nat.max x a); [lia | apply IH; now left].
    + apply IH. now right.
Qed.

Lemma max_int_ge (l : list nat) (m y : nat) :
  max_int l = Some m -> In y l -> (y <= m)%nat.
Proof.
  destruct l as [| x t]; [discriminate |]. intros [= <-].
  apply fold_max_int_ge.
Qed.

Lemma fold_max_float_ge (t : list R) (x y : R) :
  In y (x :: t) ->
  y <= fold_left (fun best z => if Rlt_dec best z then z else best) t x.
Proof.
  revert x y; induction t as [| a t IH]; intros x y Hin; simpl.
  - destruct Hin as [E | []]. lra.
  - destruct Hin as [E | [E | Hin]].
    + destruct (Rlt_dec x a).
      * apply Rle_trans with a; [lra | apply IH; now left].
      * apply Rle_trans with x; [lra | apply IH; now left].
    + destruct (Rlt_dec x a).
      * apply Rle_trans with a; [lra | apply IH; now left].
      * apply Rle_trans with x; [lra | apply IH; now left].
    + apply IH. now right.
Qed.

Lemma max_float_ge (l : list R) (m y : R) :
  max_float l = Some m -> In y l -> y <= m.
Proof.
  destruct l as [| x t]; [discriminate |]. intros [= <-].
  apply fold_max_float_ge.
Qed.


(** An object whose trimmed median is positive gets a finite confidence, at
    least its share [count/maxCount] of the largest number of points and at
    most the ratio [maxDiameter/diameter]. *)
Theorem confidence_of_positive_diameter (sizes : list (string * list R))
    (table : list SizeRow) (obj : string) (dist : list R) :
  size_table sizes = Some table -> In (obj, dist) sizes ->
  0 < trimmed_median dist ->
  exists maxCount maxDiameter c,
    max_int (map (fun od => List.length (snd od)) sizes) = Some maxCount
    /\ max_float (map (fun od => trimmed_median (snd od)) sizes)
       = Some maxDiameter
    /\ In (mkSizeRow obj (trimmed_median dist) (List.length dist) (Fin c))
          table
    /\ 0 < INR (List.length dist) / INR maxCount <= c
    /\ c <= maxDiameter / trimmed_median dist.
Proof.
  intros Htable Hin Hpos.
  destruct (size_table_rows sizes table obj dist Htable Hin)
    as (maxCount & maxDiameter & EC & ED & Hrow).
  assert (Hlen : (0 < List.length dist)%nat).
  { destruct dist as [| d dist]; [| simpl; lia].
    exfalso. revert Hpos. unfold trimmed_median, trimmed, median_sorted.
    simpl. lra. }
  assert (Hcount : (List.length dist <= maxCount)%nat).
  { apply (max_int_ge _ _ _ EC).
    apply (in_map (fun od => List.length (snd od)) _ _ Hin). }
  assert (Hdiam : trimmed_median dist <= maxDiameter).
  { apply (max_float_ge _ _ _ ED).
    apply (in_map (fun od => trimmed_median (snd od)) _ _ Hin). }
  assert (Hn : 0 < INR (List.length dist)) by (apply lt_0_INR; exact Hlen).
  assert (Hm : INR (List.length dist) <= INR maxCount)
    by (apply le_INR; exact Hcount).
  assert (Hshare : 0 < INR (List.length dist) / INR maxCount <= 1).
  { split.
    - apply Rdiv_lt_0_compat; lra.
    - apply Rmult_le_reg_r with (INR maxCount); [lra |].
      unfold Rdiv. rewrite Rmult_assoc, Rinv_l by lra. lra. }
  assert (Hratio : 1 <= maxDiameter / trimmed_median dist).
  { apply Rmult_le_reg_r with (trimmed_median dist); [lra |].
    unfold Rdiv. rewrite Rmult_assoc, Rinv_l by lra. lra. }
  exists maxCount, maxDiameter,
    (INR (List.length dist) / INR maxCount
     * (maxDiameter / trimmed_median dist)).
  split; [exact EC |]. split; [exact ED |]. split.
  - unfold confidence_of in Hrow.
    destruct (Rlt_dec 0 (trimmed_median dist)) as [_ | Hn0]; [| contradiction].
    exact Hrow.
  - split; [split |]; nra.
Qed.

Lemma confidence_of_positive_diameter_witness :
  exists table maxCount maxDiameter c,
    size_table three_objects = Some table
    /\ max_int (map (fun od => List.length (snd od)) three_objects)
       = Some maxCount
    /\ max_float (map (fun od => trimmed_median (snd od)) three_objects)
       = Some maxDiameter
    /\ In (mkSizeRow "y" (trimmed_median [1]) (List.length [1]) (Fin c)) table
    /\ 0 < INR (List.length [1]) / INR maxCount <= c
    /\ c <= maxDiameter / trimmed_median [1].
Proof.
  destruct (size_table three_objects) as [table |] eqn:E;
    [| discriminate E].
  assert (Hpos : 0 < trimmed_median [1]).
  { unfold trimmed_median, trimmed, median_sorted. simpl. lra. }
  destruct (confidence_of_positive_diameter three_objects table "y" [1] E
              (or_intror (or_introl eq_refl)) Hpos)
    as (maxCount & maxDiameter & c & H).
  exists table, maxCount, maxDiameter, c. split; [reflexivity | exact H].
Defined.

(** *** Reading [object_sizes.csv] back *)

Section RoundTrip.
Variable parse_float : string -> option R.
Variable repr_float : R -> string.
Variable repr_int : nat -> string.
Variable repr_confidence : npfloat -> string.

(** The first two fields of a written line. *)
Lemma split_size_line (r : SizeRow) :
  PyStr.has_char "," (object r) = false ->
  PyStr.has_char "," (repr_float (diameter r)) = false ->
  exists rest,
    PyStr.split "," (size_line repr_float repr_int repr_confidence r)
    = object r :: repr_float (diameter r) :: rest.
Proof.
  intros Ho Hd. unfold size_line, PyStr.split.
  rewrite PyStrFacts.append_assoc. cbn [append].
  rewrite (PyStrMore.split_comma_field _ _ [] Ho).
  rewrite (PyStrMore.split_comma_field _ _ [] Hd).
  cbn [List.rev app]. rewrite !string_of_list_ascii_of_string.
  eexists. reflexivity.
Qed.

Lemma load_written_lines (table : list SizeRow) (sizes : list (string * R)) :
  (forall r, In r table ->
     PyStr.has_char "," (object r) = false
     /\ PyStr.has_char "," (repr_float (diameter r)) = false
     /\ parse_float (repr_float (diameter r)) = Some (diameter r)) ->
  NoDup (map fst sizes ++ map object table) ->
  foldM (fun sizes line =>
           let item := PyStr.split "," line in
           d <- nth_error item 1 ;;
           v <- parse_float d ;;
           k <- nth_error item 0 ;;
           Some (Aggregator.dict_set k v sizes))
        (map (size_line repr_float repr_int repr_confidence) table) sizes
  = Some (sizes ++ map (fun r => (object r, diameter r)) table).
Proof.
  revert sizes; induction table as [| r table IH]; intros sizes Hok Hnd.
  - simpl. now rewrite app_nil_r.
  - cbn [map]. rewrite foldM_cons.
    destruct (Hok r (or_introl eq_refl)) as (Ho & Hd & Hp).
    destruct (split_size_line r Ho Hd) as [rest ->].
    cbn [nth_error bind]. rewrite Hp. cbn [bind].
    rewrite AggregatorFacts.dict_set_fresh.
    + rewrite IH.
      * now rewrite <- app_assoc.
      * intros r' Hr'. apply Hok. now right.
      * rewrite map_app. cbn [map fst]. rewrite <- app_assoc. exact Hnd.
    + intros Hin. cbn [map] in Hnd.
      apply NoDup_remove_2 in Hnd. apply Hnd.
      apply in_or_app. now left.
Qed.

(** [loadObjectSizes] reads back what [approximateObjectSizes] wrote: on the
    written lines it returns every object with its recorded diameter, in the
    order of the file, when no object name and no printed diameter holds a
    comma and [float] reads each printed diameter back. *)
Theorem loadObjectSizes_reads_written (table : list SizeRow) :
  (forall r, In r table ->
     PyStr.has_char "," (object r) = false
     /\ PyStr.has_char "," (repr_float (diameter r)) = false
     /\ parse_float (repr_float (diameter r)) = Some (diameter r)) ->
  NoDup (map object table) ->
  Solver.loadObjectSizes parse_float
    (Some (object_sizes_lines repr_float repr_int repr_confidence table))
  = Some (map (fun r => (object r, diameter r)) table).
Proof.
  intros Hok Hnd. unfold Solver.loadObjectSizes, object_sizes_lines.
  cbn [bind tl].
  exact (load_written_lines table [] Hok Hnd).
Qed.
End RoundTrip.

Lemma loadObjectSizes_reads_written_witness :
  Solver.loadObjectSizes (fun _ => Some 2)
    (Some (object_sizes_lines (fun _ => "2.0"%string) (fun _ => "7"%string)
             (fun _ => "1.0"%string) [mkSizeRow "chair" 2 7 (Fin 1)]))
  = Some [("chair"%string, 2)].
Proof.
  apply (loadObjectSizes_reads_written (fun _ => Some 2)
           (fun _ => "2.0"%string) (fun _ => "7"%string)
           (fun _ => "1.0"%string) [mkSizeRow "chair" 2 7 (Fin 1)]).
  - intros r [<- | []]. repeat split; reflexivity.
  - repeat constructor. simpl. tauto.
Defined.

End SizesMore.

(** ** More on the coordinate solver *)

Module SolverMore.
Import Np Py Aggregator Solver SolverFacts.
Local Open Scope R_scope.

(** *** The local layout against the extractor *)

Lemma radians_range (x : R) : 0 <= x <= 180 -> 0 <= radians x <= PI.
Proof.
  intros [H0 H1]. unfold radians. pose proof PI_RGT_0 as Hpi. split.
  - apply Rmult_le_pos; [exact H0 |]. lra.
  - replace PI with (180 * (PI / 180)) at 2 by field.
    apply Rmult_le_compat_r; lra.
Qed.

Lemma angle_of_cosine (u v : CollectData.Vec3) (nu nv x : R) :
  CollectData.norm u = nu -> CollectData.norm v = nv ->
  0 < nu -> 0 < nv ->
  CollectData.dot u v = nu * nv * cos (radians x) ->
  0 <= x <= 180 ->
  CollectData.angle u v = Fin x.
Proof.
  intros Hu Hv Hnu Hnv Hdot Hx. unfold CollectData.angle.
  rewrite Hu, Hv, Hdot. unfold divide.
  destruct (Req_dec_T (nu * nv) 0) as [E | _]; [nra |].
  replace (nu * nv * cos (radians x) / (nu * nv)) with (cos (radians x))
    by (field; nra).
  unfold arccos. pose proof (COS_bound (radians x)) as [Hlo Hhi].
  destruct (Rle_dec (-1) (cos (radians x))) as [_ | N]; [| contradiction].
  destruct (Rle_dec (cos (radians x)) 1) as [_ | N]; [| contradiction].
  rewrite acos_cos by (apply radians_range; exact Hx).
  unfold degrees, radians. f_equal. field. apply PI_neq0.
Qed.

Lemma norm_is (u : CollectData.Vec3) (n : R) :
  0 <= n -> CollectData.dot u u = n * n -> CollectData.norm u = n.
Proof.
  intros Hn Hd. unfold CollectData.norm. rewrite Hd. now apply sqrt_square.
Qed.

(** The layout that [calculateCoords] builds for a triplet puts the data
    back in space: seen from the camera point O of the layout, the triplet
    extractor measures on A, B and C the distances AC and AO and the three
    angles of the dictionary entry, and the common distance [d_ab]. *)
Theorem layout_inverts_extractor
    (dictionary : list (string * list (cell R))) (d_ab : R)
    (combo : list string) (t : Triplet) (data : list (cell R))
    (d_ac d_ao aBAC aOAB aOAC : R) :
  local_triplet dictionary d_ab combo = Some t ->
  lookup (PyStr.join "," combo) dictionary = Some data ->
  data_float data 1 = Some d_ac ->
  data_float data 2 = Some d_ao ->
  data_float data 3 = Some aBAC ->
  data_float data 4 = Some aOAB ->
  data_float data 5 = Some aOAC ->
  0 < d_ab -> 0 < d_ac -> 0 < d_ao ->
  0 <= aBAC <= 180 -> 0 <= aOAB <= 180 -> 0 <= aOAC <= 180 ->
  let A := CollectData.vsub (ptA t) (ptO t) in
  let B := CollectData.vsub (ptB t) (ptO t) in
  let C := CollectData.vsub (ptC t) (ptO t) in
  CollectData.distAB A B = d_ab
  /\ CollectData.distAC A C = d_ac
  /\ CollectData.distAO A = d_ao
  /\ CollectData.angleBAC A B C = Fin aBAC
  /\ CollectData.angleOAB A B = Fin aOAB
  /\ CollectData.angleOAC A C = Fin aOAC.
Proof.
  intros Ht Hl H1 H2 H3 H4 H5 Hab Hac Hao HBAC HOAB HOAC.
  unfold local_triplet in Ht. rewrite Hl in Ht. cbn [bind] in Ht.
  destruct combo as [| oa [| ob [| oc [| ? ?]]]]; try discriminate.
  rewrite H1, H2, H3, H4, H5 in Ht. cbn [bind] in Ht.
  remember (radians aBAC) as t1 eqn:Et1.
  remember (radians aOAB) as t2 eqn:Et2.
  remember (radians aOAC) as t3 eqn:Et3.
  unfold py_div in Ht.
  destruct (Req_dec_T (d_ac * sin t1) 0) as [_ | Hb]; [discriminate |].
  cbn [bind] in Ht.
  remember ((d_ac * d_ao * cos t3 - d_ac * cos t1 * (d_ao * cos t2))
            / (d_ac * sin t1)) as y eqn:Ey.
  unfold py_sqrt in Ht.
  destruct (Rle_dec 0 (d_ao ^ 2 - (d_ao * cos t2) ^ 2 - y ^ 2)) as [Hr | _];
    [| discriminate].
  cbn [bind] in Ht. apply some_eq in Ht. rewrite <- Ht.
  cbn [ptA ptB ptC ptO].
  remember (sqrt (d_ao ^ 2 - (d_ao * cos t2) ^ 2 - y ^ 2)) as z eqn:Ez.
  assert (Hz : z * z = d_ao ^ 2 - (d_ao * cos t2) ^ 2 - y ^ 2)
    by (rewrite Ez; now apply sqrt_sqrt).
  assert (Hy : y * (d_ac * sin t1)
               = d_ac * d_ao * cos t3 - d_ac * cos t1 * (d_ao * cos t2))
    by (rewrite Ey; field; split;
        [intros E; apply Hb; rewrite E; ring | lra]).
  assert (Hsc : sin t1 * sin t1 + cos t1 * cos t1 = 1)
    by (pose proof (sin2_cos2 t1) as Hs; unfold Rsqr in Hs; exact Hs).
  clear Ht Ey Ez Hl H1 H2 H3 H4 H5.
  assert (NAB : CollectData.norm
                  (CollectData.vsub
                     (CollectData.vsub (d_ab, 0, 0)
                        (d_ao * cos t2, y, z))
                     (CollectData.vsub (0, 0, 0) (d_ao * cos t2, y, z)))
                = d_ab).
  { apply norm_is; [lra |]. unfold CollectData.vsub, CollectData.dot. ring. }
  assert (NAC : CollectData.norm
                  (CollectData.vsub
                     (CollectData.vsub (d_ac * cos t1, d_ac * sin t1, 0)
                        (d_ao * cos t2, y, z))
                     (CollectData.vsub (0, 0, 0) (d_ao * cos t2, y, z)))
                = d_ac).
  { apply norm_is; [lra |]. unfold CollectData.vsub, CollectData.dot.
    replace (d_ac * d_ac)
      with (d_ac * d_ac * (sin t1 * sin t1 + cos t1 * cos t1))
      by (rewrite Hsc; ring).
    ring. }
  assert (NAO : CollectData.norm
                  (CollectData.vsub CollectData.O
                     (CollectData.vsub (0, 0, 0) (d_ao * cos t2, y, z)))
                = d_ao).
  { apply norm_is; [lra |].
    unfold CollectData.vsub, CollectData.dot, CollectData.O. lra. }
  repeat split.
  - unfold CollectData.distAB. apply norm_is; [lra |].
    unfold CollectData.vsub, CollectData.dot. ring.
  - unfold CollectData.distAC. apply norm_is; [lra |].
    unfold CollectData.vsub, CollectData.dot.
    replace (d_ac * d_ac)
      with (d_ac * d_ac * (sin t1 * sin t1 + cos t1 * cos t1))
      by (rewrite Hsc; ring).
    ring.
  - unfold CollectData.distAO. apply norm_is; [lra |].
    unfold CollectData.vsub, CollectData.dot, CollectData.O. lra.
  - unfold CollectData.angleBAC.
    apply (angle_of_cosine _ _ d_ab d_ac aBAC NAB NAC Hab Hac); [| exact HBAC].
    rewrite <- Et1. unfold CollectData.vsub, CollectData.dot. ring.
  - unfold CollectData.angleOAB.
    apply (angle_of_cosine _ _ d_ao d_ab aOAB NAO NAB Hao Hab); [| exact HOAB].
    rewrite <- Et2. unfold CollectData.vsub, CollectData.dot, CollectData.O.
    ring.
  - unfold CollectData.angleOAC.
    apply (angle_of_cosine _ _ d_ao d_ac aOAC NAO NAC Hao Hac); [| exact HOAC].
    rewrite <- Et3. unfold CollectData.vsub, CollectData.dot, CollectData.O.
    lra.
Qed.

Lemma layout_inverts_extractor_witness :
  exists t,
    local_triplet (averaging_dictionary abc_table) 1 ["A"; "B"; "C"]%string
    = Some t
    /\ CollectData.distAB (CollectData.vsub (ptA t) (ptO t))
         (CollectData.vsub (ptB t) (ptO t)) = 1
    /\ CollectData.distAC (CollectData.vsub (ptA t) (ptO t))
         (CollectData.vsub (ptC t) (ptO t)) = 1
    /\ CollectData.distAO (CollectData.vsub (ptA t) (ptO t)) = 1
    /\ CollectData.angleBAC (CollectData.vsub (ptA t) (ptO t))
         (CollectData.vsub (ptB t) (ptO t))
         (CollectData.vsub (ptC t) (ptO t)) = Fin 90
    /\ CollectData.angleOAB (CollectData.vsub (ptA t) (ptO t))
         (CollectData.vsub (ptB t) (ptO t)) = Fin 90
    /\ CollectData.angleOAC (CollectData.vsub (ptA t) (ptO t))
         (CollectData.vsub (ptC t) (ptO t)) = Fin 90.
Proof.
  destruct abc_local_triplet as [t Ht]. exists t. split; [exact Ht |].
  assert (Hl : lookup (PyStr.join "," ["A"; "B"; "C"]%string)
                 (averaging_dictionary abc_table)
               = Some [Val 1; Val 1; Val 1; Val 90; Val 90; Val 90;
                       Val (INR 1)])
    by reflexivity.
  apply (layout_inverts_extractor (averaging_dictionary abc_table) 1
           ["A"; "B"; "C"]%string t _ 1 1 90 90 90 Ht Hl
           eq_refl eq_refl eq_refl eq_refl eq_refl); lra.
Defined.

(** *** Requests for fewer than three objects *)

Lemma attempts_true {V : Type} (dictionary : list (string * V))
    (objects : list string) (objMix : list (list string))
    (st : bool * option (list (list string))) (combos : list (list string)) :
  attempts dictionary objects objMix st = (true, Some combos) ->
  st = (true, Some combos)
  \/ exists objs, In objs objMix /\ enough dictionary objects objs = true
                  /\ combos = good_of dictionary objs.
Proof.
  revert st; induction objMix as [| objs rest IH]; intros st H.
  - now left.
  - simpl in H. destruct (enough dictionary objects objs) eqn:E.
    + right. exists objs. split; [now left |]. split; [exact E |].
      now injection H as <-.
    + destruct (IH _ H) as [Hst | (o & Ho & He & Hc)]; [discriminate |].
      right. exists o. split; [now right | now split].
Qed.

Lemma combos_of_short (objs : list string) :
  (List.length objs < 3)%nat -> combos_of objs = [].
Proof.
  destruct objs as [| a [| b [| c rest]]]; simpl; try reflexivity. lia.
Qed.

Section Calculate.
Variable parse_float : string -> option R.
Variable repr_float : R -> string.
Variable sample : list (list (cell R)) -> list (list (cell R)).
Variable shuffle : list (list string) -> list (list string).
Variable float32 : R -> R.
Variable lstsq : list Vec4 -> list Vec4 -> Vec4 * Vec4 * Vec4 * Vec4.

(** A request for one or two objects never gets an assignment: once the
    relation table is loaded, no ordering yields a triplet, and the call
    exits with status 1 whatever the table holds. *)
Theorem fewer_than_three_objects_exit (fs : Files) (objects : list string)
    (method : string) (dictionary : list (string * list (cell R))) :
  load_dictionary repr_float sample fs method = Loaded dictionary ->
  (0 < List.length objects < 3)%nat ->
  Permutation (shuffle (permutations (List.length objects) objects))
              (permutations (List.length objects) objects) ->
  calculateCoords parse_float repr_float sample shuffle float32 lstsq
    fs objects method
  = Exited 1.
Proof.
  intros Hload Hlen Hperm. unfold calculateCoords. rewrite Hload.
  assert (Hfalse : fst (attempts dictionary objects
                          (shuffle (permutations (List.length objects) objects))
                          (true, None)) = false).
  { apply attempts_exhausted.
    - intros E. rewrite E in Hperm. apply Permutation_nil in Hperm.
      now apply (permutations_nonempty objects).
    - intros objs Hin.
      apply (Permutation_in _ Hperm) in Hin.
      apply permutations_elements in Hin. destruct Hin as [Hl _].
      unfold enough, good_of. rewrite combos_of_short by lia.
      destruct objects as [| o objects]; [simpl in Hlen; lia |].
      reflexivity. }
  destruct (attempts _ _ _ _) as [[|] good]; [discriminate | reflexivity].
Qed.
End Calculate.

Lemma fewer_than_three_objects_exit_witness :
  calculateCoords (fun _ => None) (fun _ => ""%string) (fun l => l)
                  (fun l => l) (fun x => x) (fun _ _ => identity_matrix)
                  abc_files ["A"; "B"]%string "averaging"
  = Exited 1.
Proof.
  apply (fewer_than_three_objects_exit (fun _ => None) (fun _ => ""%string)
           (fun l => l) (fun l => l) (fun x => x)
           (fun _ _ => identity_matrix) abc_files ["A"; "B"]%string
           "averaging" (averaging_dictionary abc_table)).
  - reflexivity.
  - simpl. lia.
  - apply Permutation_refl.
Defined.

(** *** What a returned assignment holds *)

Lemma has_key_dict_set {V : Type} (k k' : string) (v : V)
    (d : list (string * V)) :
  k = k' \/ has_key k d -> has_key k (dict_set k' v d).
Proof.
  unfold has_key. intros H.
  destruct (String.eqb k' k) eqn:E.
  - apply String.eqb_eq in E. subst k'.
    rewrite lookup_dict_set_same. discriminate.
  - rewrite (lookup_dict_set_other _ _ _ _ E).
    destruct H as [-> | H]; [| exact H].
    rewrite String.eqb_refl in E. discriminate.
Qed.

Section Coverage.
Variable float32 : R -> R.
Variable lstsq : list Vec4 -> list Vec4 -> Vec4 * Vec4 * Vec4 * Vec4.

Lemma merge_triplet_keys (baseCoords : list Vec3)
    (fc fc' : list (string * entry)) (t : Triplet) :
  merge_triplet float32 lstsq baseCoords fc t = Some fc' ->
  has_key (objC t) fc' /\ forall k, has_key k fc -> has_key k fc'.
Proof.
  unfold merge_triplet.
  destruct (filter _ (map _ (array32 float32 (frame_of t ++ [ptC t]))))
    as [| c rest]; [discriminate |].
  destruct (lookup "SCALE" (dict_set (objC t) (Point c) fc))
    as [[p | current] |]; try discriminate.
  intros [= <-]. split.
  - apply has_key_dict_set. right. apply has_key_dict_set. now left.
  - intros k Hk. apply has_key_dict_set. right.
    apply has_key_dict_set. now right.
Qed.

Lemma merge_others_keys (baseCoords : list Vec3) (others : list Triplet)
    (fc fc' : list (string * entry)) :
  foldM (merge_triplet float32 lstsq baseCoords) others fc = Some fc' ->
  (forall k, has_key k fc -> has_key k fc')
  /\ forall t, In t others -> has_key (objC t) fc'.
Proof.
  revert fc; induction others as [| t others IH]; intros fc H.
  - injection H as <-. split; [auto | intros t []].
  - rewrite foldM_cons in H.
    destruct (merge_triplet float32 lstsq baseCoords fc t) as [fc1 |] eqn:E;
      [| discriminate].
    destruct (merge_triplet_keys _ _ _ _ E) as [HC Hkeep].
    destruct (IH _ H) as [Hkeep' Hothers]. split.
    + intros k Hk. apply Hkeep', Hkeep, Hk.
    + intros t' [<- | Hin]; [apply Hkeep', HC | now apply Hothers].
Qed.

Lemma merge_keys (triplets : list Triplet) (fc : list (string * entry)) :
  merge float32 lstsq triplets = Some fc ->
  has_key "CAMERA" fc
  /\ forall t, In t triplets ->
       has_key (objC t) fc
       /\ (forall t0, hd_error triplets = Some t0 ->
             has_key (objA t0) fc /\ has_key (objB t0) fc).
Proof.
  unfold merge. destruct triplets as [| t0 others]; [discriminate |].
  intros H. destruct (merge_others_keys _ _ _ _ H) as [Hkeep Hothers].
  assert (HA : has_key (objA t0) fc).
  { apply Hkeep. do 4 (apply has_key_dict_set; right).
    apply has_key_dict_set. now left. }
  assert (HB : has_key (objB t0) fc).
  { apply Hkeep. do 3 (apply has_key_dict_set; right).
    apply has_key_dict_set. now left. }
  assert (HC : has_key (objC t0) fc).
  { apply Hkeep. do 2 (apply has_key_dict_set; right).
    apply has_key_dict_set. now left. }
  split.
  - apply Hkeep. apply has_key_dict_set. right.
    apply has_key_dict_set. now left.
  - intros t Hin. split.
    + destruct Hin as [<- | Hin]; [exact HC | now apply Hothers].
    + intros t1 [= <-]. now split.
Qed.
End Coverage.

Lemma local_triplet_names (dictionary : list (string * list (cell R)))
    (d_ab : R) (combo : list string) (t : Triplet) :
  local_triplet dictionary d_ab combo = Some t ->
  combo = [objA t; objB t; objC t].
Proof.
  unfold local_triplet.
  destruct (lookup _ dictionary) as [data |]; [| discriminate].
  cbn [bind].
  destruct combo as [| oa [| ob [| oc [| ? ?]]]]; try discriminate.
  destruct (data_float data 1); [| discriminate].
  destruct (data_float data 2); [| discriminate].
  destruct (data_float data 3); [| discriminate].
  destruct (data_float data 4); [| discriminate].
  destruct (data_float data 5); [| discriminate].
  cbn [bind].
  destruct (py_div _ _); [| discriminate]. cbn [bind].
  destruct (py_sqrt _); [| discriminate]. cbn [bind].
  intros Ht. apply some_eq in Ht. rewrite <- Ht. reflexivity.
Qed.

Lemma good_of_shape {V : Type} (dictionary : list (string * V))
    (objs combo : list string) :
  In combo (good_of dictionary objs) ->
  exists a b x rest, objs = a :: b :: rest /\ combo = [a; b; x].
Proof.
  unfold good_of. intros H. apply filter_In in H. destruct H as [H _].
  destruct objs as [| a [| b rest]]; try contradiction.
  simpl in H. apply in_map_iff in H. destruct H as (x & <- & _).
  now exists a, b, x, rest.
Qed.

Section Returned.
Variable parse_float : string -> option R.
Variable repr_float : R -> string.
Variable sample : list (list (cell R)) -> list (list (cell R)).
Variable shuffle : list (list string) -> list (list string).
Variable float32 : R -> R.
Variable lstsq : list Vec4 -> list Vec4 -> Vec4 * Vec4 * Vec4 * Vec4.

(** An assignment that [calculateCoords] returns is empty (the method was
    neither of the two) or complete: it has an entry for every requested
    object, one for the camera, and a number under SCALE. *)
Theorem returned_assignment_is_complete (fs : Files) (objects : list string)
    (method : string) (finalCoords : list (string * entry)) :
  calculateCoords parse_float repr_float sample shuffle float32 lstsq
    fs objects method
  = Returned finalCoords ->
  finalCoords <> [] ->
  (forall obj, In obj objects -> lookup obj finalCoords <> None)
  /\ lookup "CAMERA" finalCoords <> None
  /\ exists s, lookup "SCALE" finalCoords = Some (Scalar s).
Proof.
  unfold calculateCoords. intros H Hne.
  destruct (load_dictionary repr_float sample fs method)
    as [| | dictionary]; [injection H as <-; congruence | discriminate |].
  destruct (attempts dictionary objects _ (true, None))
    as [[|] [combos |]] eqn:Ea; try discriminate.
  destruct (loadObjectSizes parse_float (object_sizes_csv fs));
    [| discriminate].
  destruct (reconstruct float32 lstsq dictionary combos) as [fc |] eqn:Er;
    [| discriminate].
  injection H as ->. unfold reconstruct in Er.
  destruct (local_triplets dictionary combos) as [triplets |] eqn:Et;
    [| discriminate].
  cbn [bind] in Er.
  destruct (merge_keys float32 lstsq triplets finalCoords Er)
    as [Hcam Hkeys].
  destruct (merge_scale float32 lstsq triplets finalCoords Er)
    as (m & Hm & _).
  split; [| split; [exact Hcam | now exists m]].
  intros obj Hobj.
  destruct (attempts_true _ _ _ _ _ Ea) as [Hst | (objs & _ & He & Hc)];
    [discriminate |].
  unfold enough in He. rewrite forallb_forall in He.
  specialize (He obj Hobj). apply existsb_exists in He.
  destruct He as (o & Ho & Heq). apply String.eqb_eq in Heq. subst o.
  apply in_concat in Ho. destruct Ho as (combo & Hcombo & Hin).
  rewrite <- Hc in Hcombo.
  unfold local_triplets in Et.
  destruct (mapM _ combos) as [all_ab_dists |]; [| discriminate].
  cbn [bind] in Et.
  destruct (max_float all_ab_dists) as [d_ab |]; [| discriminate].
  cbn [bind] in Et. apply mapM_Forall2 in Et.
  destruct (ExtractorFacts.Forall2_In_l _ _ _ _ Et Hcombo)
    as (t & Htin & Ht).
  apply local_triplet_names in Ht.
  destruct (Hkeys t Htin) as [HC Hfirst].
  destruct triplets as [| t0 others]; [contradiction |].
  destruct (Hfirst t0 eq_refl) as [HA HB].
  inversion Et as [| combo0 t0' combos' others' Ht0 _ Ecombos]. subst.
  apply local_triplet_names in Ht0.
  assert (Hc0 : In [objA t0; objB t0; objC t0]
                   (good_of dictionary objs))
    by (rewrite <- Ht0, <- Ecombos; now left).
  apply good_of_shape in Hc0. apply good_of_shape in Hcombo.
  destruct Hc0 as (a & b & x & rest & Hobjs & E0).
  destruct Hcombo as (a' & b' & x' & rest' & Hobjs' & E1).
  rewrite Hobjs in Hobjs'. injection Hobjs' as <- <- _.
  injection E0 as EA EB _. injection E1 as EA1 EB1 _.
  destruct Hin as [<- | [<- | [<- | []]]].
  - rewrite EA1, <- EA. exact HA.
  - rewrite EB1, <- EB. exact HB.
  - exact HC.
Qed.
End Returned.

Lemma returned_assignment_is_complete_witness :
  exists finalCoords,
    calculateCoords (fun _ => None) (fun _ => ""%string) (fun l => l)
                    (fun l => l) (fun x => x) (fun _ _ => identity_matrix)
                    abc_files ["A"; "B"; "C"]%string "averaging"
    = Returned finalCoords
    /\ (forall obj, In obj ["A"; "B"; "C"]%string ->
          lookup obj finalCoords <> None)
    /\ lookup "CAMERA" finalCoords <> None
    /\ exists s, lookup "SCALE" finalCoords = Some (Scalar s).
Proof.
  destruct abc_run as [finalCoords Hrun]. exists finalCoords.
  split; [exact Hrun |].
  apply (returned_assignment_is_complete _ _ _ _ _ _ _ _ _ _ Hrun).
  intros E. rewrite E in Hrun.
  revert Hrun. unfold calculateCoords.
  change (load_dictionary (fun _ => ""%string) (fun l => l) abc_files
            "averaging")
    with (Loaded (averaging_dictionary abc_table)).
  cbv beta iota.
  destruct (attempts _ _ _ _) as [[|] [combos |]]; try discriminate.
  destruct (loadObjectSizes _ _); [| discriminate].
  destruct (reconstruct _ _ _ _) as [fc |] eqn:Er; [| discriminate].
  intros [= ->]. unfold reconstruct in Er.
  destruct (local_triplets _ _); [| discriminate]. cbn [bind] in Er.
  destruct (merge_scale _ _ _ _ Er) as (m & Hm & _). discriminate.
Defined.

End SolverMore.

(** ** Failing and invariant loops *)

Lemma foldM_fails {S X : Type} (body : S -> X -> option S) (l : list X)
    (x : X) (s : S) :
  In x l -> (forall s0, body s0 x = None) -> foldM body l s = None.
Proof.
  intros Hin Hx. revert s; induction l as [| y l IH]; intros s;
    [contradiction |].
  rewrite foldM_cons. destruct Hin as [-> | Hin].
  - now rewrite Hx.
  - destruct (body s y); [now apply IH | reflexivity].
Qed.

Lemma foldM_invariant_in {S X : Type} (P : S -> Prop)
    (body : S -> X -> option S) (l : list X) (s s' : S) :
  (forall s0 x s1, In x l -> P s0 -> body s0 x = Some s1 -> P s1) ->
  P s -> foldM body l s = Some s' -> P s'.
Proof.
  revert s; induction l as [| x l IH]; intros s Hstep Hs H.
  - injection H as <-. exact Hs.
  - rewrite foldM_cons in H.
    destruct (body s x) as [s1 |] eqn:E; [| discriminate].
    apply (IH s1); [| | exact H].
    + intros s0 y s2 Hy. apply Hstep. now right.
    + apply (Hstep s x s1); [now left | exact Hs | exact E].
Qed.

(** ** The relation table in sampling mode *)

Module SamplingFacts.
Import Aggregator AggregatorFacts.
Local Open Scope R_scope.

Section Sampling.
Variable repr_float : R -> string.
Variable sample : list (list (cell R)) -> list (list (cell R)).

Lemma drop_duplicates_rows (seen : list (list (cell R)))
    (l : list (list (cell R) * list (cell R))) (row : list (cell R)) :
  In row (drop_duplicates seen l) -> In row (map snd l).
Proof.
  revert seen; induction l as [| [key r] l IH]; intros seen; simpl;
    [tauto |].
  destruct (existsb _ seen).
  - intros H. right. exact (IH _ H).
  - intros [<- | H]; [now left | right; exact (IH _ H)].
Qed.

Lemma keyed_rows (hdr : list string) (l : list (list (cell R)))
    (keyed : list (list (cell R) * list (cell R))) :
  mapM (fun row => k <- subset_cells hdr row ;; Some (k, row)) l
  = Some keyed ->
  map snd keyed = l.
Proof.
  revert keyed; induction l as [| row l IH]; intros keyed H.
  - injection H as <-. reflexivity.
  - cbn [mapM] in H.
    destruct (subset_cells hdr row) as [k |]; [| discriminate].
    cbn [bind] in H.
    destruct (mapM _ l) as [keyed' |] eqn:E; [| discriminate].
    injection H as <-. simpl. now rewrite (IH _ eq_refl).
Qed.

(** In sampling mode every entry of the dictionary is one observation: the
    six values of one row of [triplets.csv], read by column name, under the
    key made of the three names of that row, with count 1. *)
Theorem sampling_entries_are_rows (triplets : csv R)
    (dictionary : list (string * list (cell R))) (key : string)
    (data : list (cell R)) :
  sampling_dictionary repr_float sample triplets = Some dictionary ->
  (forall row, In row (sample (rows triplets)) -> In row (rows triplets)) ->
  lookup key dictionary = Some data ->
  exists row objA objB objC dAB dAC dAO aBAC aOAB aOAC,
    In row (rows triplets)
    /\ column (header triplets) "objectA" row = Some objA
    /\ column (header triplets) "objectB" row = Some objB
    /\ column (header triplets) "objectC" row = Some objC
    /\ column (header triplets) "distanceAB" row = Some dAB
    /\ column (header triplets) "distanceAC" row = Some dAC
    /\ column (header triplets) "distanceAO" row = Some dAO
    /\ column (header triplets) "angleBAC" row = Some aBAC
    /\ column (header triplets) "angleOAB" row = Some aOAB
    /\ column (header triplets) "angleOAC" row = Some aOAC
    /\ key = (format_cell repr_float objA ++ ","
              ++ format_cell repr_float objB ++ ","
              ++ format_cell repr_float objC)%string
    /\ data = [dAB; dAC; dAO; aBAC; aOAB; aOAC; Val 1].
Proof.
  unfold sampling_dictionary. intros H Hsample Hl.
  destruct (mapM _ (sample (rows triplets))) as [keyed |] eqn:Ek;
    [| discriminate].
  cbn [bind] in H. apply keyed_rows in Ek.
  revert key data Hl.
  refine (foldM_invariant_in
            (fun d => forall key data, lookup key d = Some data -> _)
            _ (drop_duplicates [] keyed) [] dictionary _ _ H).
  - intros d row d' Hrow Hd Hstep key data Hl.
    destruct (column (header triplets) "objectA" row) as [objA |] eqn:EA;
      [| discriminate].
    destruct (column (header triplets) "objectB" row) as [objB |] eqn:EB;
      [| discriminate].
    destruct (column (header triplets) "objectC" row) as [objC |] eqn:EC;
      [| discriminate].
    destruct (column (header triplets) "distanceAB" row) as [dAB |] eqn:E1;
      [| discriminate].
    destruct (column (header triplets) "distanceAC" row) as [dAC |] eqn:E2;
      [| discriminate].
    destruct (column (header triplets) "distanceAO" row) as [dAO |] eqn:E3;
      [| discriminate].
    destruct (column (header triplets) "angleBAC" row) as [aBAC |] eqn:E4;
      [| discriminate].
    destruct (column (header triplets) "angleOAB" row) as [aOAB |] eqn:E5;
      [| discriminate].
    destruct (column (header triplets) "angleOAC" row) as [aOAC |] eqn:E6;
      [| discriminate].
    cbn [bind] in Hstep. apply SolverFacts.some_eq in Hstep. subst d'.
    destruct (String.eqb
                (format_cell repr_float objA ++ ","
                 ++ format_cell repr_float objB ++ ","
                 ++ format_cell repr_float objC) key) eqn:E.
    + apply String.eqb_eq in E. subst key.
      rewrite SolverFacts.lookup_dict_set_same in Hl.
      apply SolverFacts.some_eq in Hl. subst data.
      exists row, objA, objB, objC, dAB, dAC, dAO, aBAC, aOAB, aOAC.
      split.
      * apply Hsample. rewrite <- Ek.
        exact (drop_duplicates_rows _ _ _ Hrow).
      * repeat split; assumption.
    + rewrite (SolverFacts.lookup_dict_set_other _ _ _ _ E) in Hl.
      exact (Hd key data Hl).
  - intros key data Hl. discriminate.
Qed.
End Sampling.

Lemma sampling_entries_are_rows_witness :
  exists dictionary row objA objB objC dAB dAC dAO aBAC aOAB aOAC,
    sampling_dictionary (fun _ => ""%string) (fun l => l)
      (mkCsv Corpora.clean_header [Corpora.merged_row])
    = Some dictionary
    /\ lookup "A,B,C"%string dictionary
       = Some [Val 1; Val 1; Val 1; Val 90; Val 90; Val 180; Val 1]
    /\ In row [Corpora.merged_row]
    /\ column Corpora.clean_header "objectA" row = Some objA
    /\ column Corpora.clean_header "objectB" row = Some objB
    /\ column Corpora.clean_header "objectC" row = Some objC
    /\ column Corpora.clean_header "distanceAB" row = Some dAB
    /\ column Corpora.clean_header "distanceAC" row = Some dAC
    /\ column Corpora.clean_header "distanceAO" row = Some dAO
    /\ column Corpora.clean_header "angleBAC" row = Some aBAC
    /\ column Corpora.clean_header "angleOAB" row = Some aOAB
    /\ column Corpora.clean_header "angleOAC" row = Some aOAC.
Proof.
  assert (Hd : exists dictionary,
             sampling_dictionary (fun _ => ""%string) (fun l => l)
               (mkCsv Corpora.clean_header [Corpora.merged_row])
             = Some dictionary
             /\ lookup "A,B,C"%string dictionary
                = Some [Val 1; Val 1; Val 1; Val 90; Val 90; Val 180; Val 1])
    by (eexists; split; reflexivity).
  destruct Hd as (dictionary & Hd & Hl).
  destruct (sampling_entries_are_rows (fun _ => ""%string) (fun l => l)
              (mkCsv Corpora.clean_header [Corpora.merged_row])
              dictionary "A,B,C"
              [Val 1; Val 1; Val 1; Val 90; Val 90; Val 180; Val 1]
              Hd (fun _ H => H) Hl)
    as (row & objA & objB & objC & dAB & dAC & dAO & aBAC & aOAB & aOAC
        & Hin & HA & HB & HC & H1 & H2 & H3 & H4 & H5 & H6 & _ & _).
  exists dictionary, row, objA, objB, objC, dAB, dAC, dAO, aBAC, aOAB, aOAC.
  repeat split; assumption.
Defined.

End SamplingFacts.

(** ** The centroids of a frame *)

Module CentroidsFacts.
Import Aggregator AggregatorFacts Centroids.
Local Open Scope R_scope.

(** *** Means *)

Lemma sum_bounds (l : list R) (lo hi : R) :
  Forall (fun x => lo <= x <= hi) l ->
  INR (List.length l) * lo <= sum l <= INR (List.length l) * hi.
Proof.
  induction 1 as [| x l Hx _ IH].
  - unfold sum. simpl. lra.
  - rewrite sum_cons. cbn [List.length]. rewrite S_INR. lra.
Qed.

Lemma mean_bounds (l : list R) (lo hi m : R) :
  mean l = Some m -> Forall (fun x => lo <= x <= hi) l -> lo <= m <= hi.
Proof.
  intros Hm Hall. pose proof (sum_bounds l lo hi Hall) as Hs.
  destruct l as [| x l]; [discriminate |].
  unfold mean in Hm. apply SolverFacts.some_eq in Hm. subst m.
  assert (Hn : 0 < INR (List.length (x :: l)))
    by (apply lt_0_INR; simpl; lia).
  split.
  - apply Rmult_le_reg_r with (INR (List.length (x :: l))); [exact Hn |].
    unfold Rdiv. rewrite Rmult_assoc, Rinv_l by lra. lra.
  - apply Rmult_le_reg_r with (INR (List.length (x :: l))); [exact Hn |].
    unfold Rdiv. rewrite Rmult_assoc, Rinv_l by lra. lra.
Qed.

(** *** The labels *)

(** The label of a polygon is drawn within the bounding box of its
    vertices. *)
Theorem label_in_bounding_box (coords : list (Z * Z)) (xlo xhi ylo yhi : Z)
    (centX centY : R) :
  label coords = Some (centX, centY) ->
  Forall (fun c => (xlo <= fst c <= xhi)%Z /\ (ylo <= snd c <= yhi)%Z)
         coords ->
  IZR xlo <= centX <= IZR xhi /\ IZR ylo <= centY <= IZR yhi.
Proof.
  unfold label. intros H Hall.
  destruct (mean (map (fun c => IZR (fst c)) coords)) as [cx |] eqn:Ex;
    [| discriminate].
  destruct (mean (map (fun c => IZR (snd c)) coords)) as [cy |] eqn:Ey;
    [| discriminate].
  cbn [bind] in H. injection H as <- <-. split.
  - apply (mean_bounds _ _ _ _ Ex). apply Forall_map.
    apply (Forall_impl _ (P := fun c => (xlo <= fst c <= xhi)%Z
                                        /\ (ylo <= snd c <= yhi)%Z));
      [| exact Hall].
    intros c [[H1 H2] _]. split; now apply IZR_le.
  - apply (mean_bounds _ _ _ _ Ey). apply Forall_map.
    apply (Forall_impl _ (P := fun c => (xlo <= fst c <= xhi)%Z
                                        /\ (ylo <= snd c <= yhi)%Z));
      [| exact Hall].
    intros c [_ [H1 H2]]. split; now apply IZR_le.
Qed.

Lemma label_in_bounding_box_witness :
  exists centX centY,
    label [(0, 0); (4, 2)]%Z = Some (centX, centY)
    /\ IZR 0 <= centX <= IZR 4 /\ IZR 0 <= centY <= IZR 2.
Proof.
  eexists _, _. split; [reflexivity |].
  apply (label_in_bounding_box [(0, 0); (4, 2)]%Z 0 4 0 2 _ _ eq_refl).
  repeat constructor; simpl; lia.
Defined.

Section FrameFacts.
Variable width height : nat.
Variable valid : nat -> nat -> bool.
Variable xyz : list Vec3.
Variable contains_points : list (Z * Z) -> list (nat * nat) -> list bool.

(** A polygon without a vertex stops [calculateCentroids]: the division by
    the number of its vertices raises in the first loop, before the second
    loop could pass over the polygon. *)
Theorem calculateCentroids_empty_polygon
    (polygons : list (string * list (Z * Z))) (name : string)
    (labels : list (string * (R * R)))
    (objects3d : list (string * list Vec3))
    (centroids : list (string * Vec3)) :
  In (name, []) polygons ->
  calculateCentroids width height valid xyz contains_points polygons
    labels objects3d centroids
  = None.
Proof.
  intros Hin. unfold calculateCentroids, labels_of.
  rewrite (foldM_fails _ polygons (name, []) labels Hin); [reflexivity |].
  reflexivity.
Qed.

(** *** The 3D points and the centroids *)

Lemma scan_cell_points (st st' : nat * list Vec3)
    (cell : (nat * nat) * bool) :
  incl (snd st) xyz -> scan_cell valid xyz st cell = Some st' ->
  incl (snd st') xyz.
Proof.
  destruct st as [count pts3d]. destruct cell as [[y x] row].
  unfold scan_cell. intros Hincl.
  destruct (row && valid x y)%bool.
  - destruct (nth_error xyz count) as [p |] eqn:Ep; [| discriminate].
    cbn [bind]. intros [= <-]. cbn [snd].
    apply incl_app; [exact Hincl |].
    intros q [<- | []]. eapply nth_error_In, Ep.
  - cbn [bind]. now intros [= <-].
Qed.

Lemma points_of_xyz (coords : list (Z * Z)) (pts3d : list Vec3) :
  points_of width height valid xyz contains_points coords = Some pts3d ->
  incl pts3d xyz.
Proof.
  unfold points_of.
  destruct (Nat.eqb _ _); [| discriminate].
  destruct (foldM _ _ _) as [st |] eqn:E; [| discriminate].
  intros [= <-].
  apply (foldM_invariant (fun s => incl (snd s) xyz)
           (scan_cell valid xyz) _ (0%nat, []) st
           (fun s0 x s1 => scan_cell_points s0 s1 x)
           (incl_nil_l _) E).
Qed.

Lemma dict_set_keys {V W : Type} (k : string) (v : V) (w : W)
    (d : list (string * V)) (e : list (string * W)) :
  map fst d = map fst e ->
  map fst (dict_set k v d) = map fst (dict_set k w e).
Proof.
  revert e; induction d as [| [k0 v0] d IH]; intros [| [k1 w1] e] H;
    try discriminate; [reflexivity |].
  injection H as -> H. simpl.
  destruct (String.eqb k1 k); simpl; [now rewrite H | now rewrite (IH e H)].
Qed.

Lemma object_step_agree (polygons : list (string * list (Z * Z)))
    (st st' : list (string * list Vec3) * list (string * Vec3))
    (poly : string * list (Z * Z)) :
  In poly polygons ->
  agree width height xyz polygons st ->
  object_step width height valid xyz contains_points st poly = Some st' ->
  agree width height xyz polygons st'.
Proof.
  destruct st as [objects3d centroids]. destruct poly as [name coords].
  intros Hin [Hkeys Hall]. unfold object_step. cbn [fst snd].
  destruct (filter (in_frame width height) coords) as [| c0 cs] eqn:Ef;
    [now intros [= <-] |].
  destruct (points_of width height valid xyz contains_points (c0 :: cs))
    as [pts3d |] eqn:Ep; [| discriminate].
  cbn [bind].
  destruct pts3d as [| p pts3d]; [now intros [= <-] |].
  destruct (centroid (p :: pts3d)) as [c |] eqn:Ec; [| discriminate].
  cbn [bind]. intros [= <-]. split; cbn [fst snd].
  - now apply dict_set_keys.
  - intros name' c' Hl.
    destruct (String.eqb name name') eqn:E.
    + apply String.eqb_eq in E. subst name'.
      rewrite SolverFacts.lookup_dict_set_same in Hl. injection Hl as <-.
      split.
      * exists coords. split; [exact Hin |]. rewrite Ef. discriminate.
      * exists (p :: pts3d). rewrite SolverFacts.lookup_dict_set_same.
        split; [reflexivity |]. split; [discriminate |].
        split; [exact (points_of_xyz _ _ Ep) | exact Ec].
    + rewrite (SolverFacts.lookup_dict_set_other _ _ _ _ E) in Hl.
      rewrite (SolverFacts.lookup_dict_set_other _ _ _ _ E).
      now apply Hall.
Qed.

Lemma centroid_in_box (pts3d : list Vec3) (lo hi c : Vec3) :
  centroid pts3d = Some c -> Forall (in_box lo hi) pts3d -> in_box lo hi c.
Proof.
  unfold centroid. intros H Hall.
  destruct (mean (map (fun p => fst (fst p)) pts3d)) as [X |] eqn:EX;
    [| discriminate].
  destruct (mean (map (fun p => snd (fst p)) pts3d)) as [Y |] eqn:EY;
    [| discriminate].
  destruct (mean (map (fun p => snd p) pts3d)) as [Z |] eqn:EZ;
    [| discriminate].
  cbn [bind] in H. injection H as <-. unfold in_box. cbn [fst snd].
  split; [| split].
  - apply (mean_bounds _ _ _ _ EX). apply Forall_map.
    apply (Forall_impl _ (P := in_box lo hi)); [| exact Hall].
    intros q Hq. apply Hq.
  - apply (mean_bounds _ _ _ _ EY). apply Forall_map.
    apply (Forall_impl _ (P := in_box lo hi)); [| exact Hall].
    intros q Hq. apply Hq.
  - apply (mean_bounds _ _ _ _ EZ). apply Forall_map.
    apply (Forall_impl _ (P := in_box lo hi)); [| exact Hall].
    intros q Hq. apply Hq.
Qed.

(** On a new frame [calculateCentroids] records points and centroids for
    the same objects.  Every centroid belongs to a polygon with a vertex in
    the frame and is the mean of the recorded points of the object; these
    are points of [xyz], at least one, so the centroid lies in any box that
    holds [xyz]. *)
Theorem calculateCentroids_records_means
    (polygons : list (string * list (Z * Z)))
    (labels : list (string * (R * R)))
    (objects3d : list (string * list Vec3))
    (centroids : list (string * Vec3)) :
  calculateCentroids width height valid xyz contains_points polygons
    [] [] []
  = Some (labels, (objects3d, centroids)) ->
  map fst objects3d = map fst centroids
  /\ forall name c,
       lookup name centroids = Some c ->
       (exists coords, In (name, coords) polygons
                       /\ filter (in_frame width height) coords <> [])
       /\ (exists pts3d,
             lookup name objects3d = Some pts3d
             /\ pts3d <> [] /\ incl pts3d xyz
             /\ centroid pts3d = Some c)
       /\ forall lo hi, Forall (in_box lo hi) xyz -> in_box lo hi c.
Proof.
  unfold calculateCentroids.
  destruct (labels_of polygons []) as [lb |]; [| discriminate].
  cbn [bind].
  destruct (foldM _ polygons ([], [])) as [r |] eqn:E; [| discriminate].
  cbn [bind]. intros [= _ ->].
  assert (Hagree : agree width height xyz polygons (objects3d, centroids)).
  { apply (foldM_invariant_in (agree width height xyz polygons)
             (object_step width height valid xyz contains_points)
             polygons ([], []) (objects3d, centroids)
             (fun s0 x s1 Hx => object_step_agree polygons s0 s1 x Hx)).
    - split; [reflexivity | discriminate].
    - exact E. }
  destruct Hagree as [Hkeys Hall]. split; [exact Hkeys |].
  intros name c Hl. destruct (Hall name c Hl) as [Hpoly Hpts].
  split; [exact Hpoly |]. split; [exact Hpts |].
  destruct Hpts as (pts3d & _ & _ & Hincl & Hc).
  intros lo hi Hbox. apply (centroid_in_box pts3d lo hi c Hc).
  rewrite Forall_forall in *. intros q Hq. apply Hbox, Hincl, Hq.
Qed.
End FrameFacts.

Lemma calculateCentroids_records_means_witness :
  exists labels objects3d centroids,
    calculateCentroids 2 1 (fun _ _ => true) two_cells first_cell
      [("chair"%string, [(0, 0)%Z])] [] [] []
    = Some (labels, (objects3d, centroids))
    /\ map fst objects3d = map fst centroids
    /\ forall name c,
         lookup name centroids = Some c ->
         (exists coords, In (name, coords) [("chair"%string, [(0, 0)%Z])]
                         /\ filter (in_frame 2 1) coords <> [])
         /\ (exists pts3d,
               lookup name objects3d = Some pts3d
               /\ pts3d <> [] /\ incl pts3d two_cells
               /\ centroid pts3d = Some c)
         /\ forall lo hi, Forall (in_box lo hi) two_cells -> in_box lo hi c.
Proof.
  eexists _, _, _. split; [reflexivity |].
  apply (calculateCentroids_records_means 2 1 (fun _ _ => true) two_cells
           first_cell [("chair"%string, [(0, 0)%Z])] _ _ _ eq_refl).
Defined.

Lemma calculateCentroids_empty_polygon_witness :
  calculateCentroids 2 1 (fun _ _ => true) two_cells first_cell
    [("chair"%string, [(0, 0)%Z]); ("table"%string, [])] [] [] []
  = None.
Proof.
  apply (calculateCentroids_empty_polygon 2 1 (fun _ _ => true) two_cells
           first_cell _ "table").
  right. now left.
Defined.

End CentroidsFacts.

(** ** The objects of a scene *)

Module ObjectFacts.
Import Aggregator ObjectState.

(** *** The colour of an object *)

Lemma py_int_random (r : R) :
  (0 <= r < 1)%R -> (0 <= py_int (r * 255) <= 254)%Z.
Proof.
  intros [H0 H1]. unfold py_int.
  destruct (Rle_dec 0 (r * 255)) as [_ | N]; [| exfalso; apply N; nra].
  destruct (base_Int_part (r * 255)) as [Hle Hgt].
  split.
  - assert (H : (-1 < Int_part (r * 255))%Z) by (apply lt_IZR; nra). lia.
  - assert (H : (Int_part (r * 255) < 255)%Z) by (apply lt_IZR; nra). lia.
Qed.

(** Whatever the random numbers, the colour of an object has its three
    components between 0 and 254, the transparency 140, and is not dark: one
    component at least is 100 or more. *)
Theorem setRandomColour_is_visible (r1 r2 r3 : R) (col : Z) :
  (0 <= r1 < 1)%R -> (0 <= r2 < 1)%R -> (0 <= r3 < 1)%R ->
  exists R G B,
    setRandomColour r1 r2 r3 col = (R, G, B, 140%Z)
    /\ (0 <= R <= 254)%Z /\ (0 <= G <= 254)%Z /\ (0 <= B <= 254)%Z
    /\ (100 <= R \/ 100 <= G \/ 100 <= B)%Z.
Proof.
  intros H1 H2 H3.
  pose proof (py_int_random r1 H1) as HR.
  pose proof (py_int_random r2 H2) as HG.
  pose proof (py_int_random r3 H3) as HB.
  unfold setRandomColour.
  destruct (py_int (r1 * 255) <? 100)%Z eqn:ER;
    destruct (py_int (r2 * 255) <? 100)%Z eqn:EG;
    destruct (py_int (r3 * 255) <? 100)%Z eqn:EB;
    cbn [andb];
    try apply Z.ltb_lt in ER; try apply Z.ltb_ge in ER;
    try apply Z.ltb_lt in EG; try apply Z.ltb_ge in EG;
    try apply Z.ltb_lt in EB; try apply Z.ltb_ge in EB;
    try (destruct (col =? 0)%Z; [| destruct (col =? 1)%Z]);
    eexists _, _, _; (split; [reflexivity |]); lia.
Qed.

Lemma setRandomColour_is_visible_witness :
  exists R G B,
    setRandomColour 0 0 0 0 = (R, G, B, 140%Z)
    /\ (0 <= R <= 254)%Z /\ (0 <= G <= 254)%Z /\ (0 <= B <= 254)%Z
    /\ (100 <= R \/ 100 <= G \/ 100 <= B)%Z.
Proof.
  apply (setRandomColour_is_visible 0 0 0 0); lra.
Defined.

(** *** The identifiers of an object *)

Lemma no_stutter_snoc (l : list nat) (a b : nat) :
  no_stutter (l ++ [a]) -> a <> b -> no_stutter ((l ++ [a]) ++ [b]).
Proof.
  intros H Hab. induction l as [| x l IH].
  - simpl. auto.
  - destruct l as [| y l].
    + simpl in *. tauto.
    + cbn [app no_stutter] in *. destruct H as [Hxy H]. split; [exact Hxy |].
      now apply IH.
Qed.

Lemma updateID_history (i : nat) (o : Object1) :
  no_stutter (history o) -> no_stutter (history (updateID i o)).
Proof.
  unfold history, updateID. cbn [oldIDs ID]. intros H.
  destruct (Nat.eqb i (ID o)) eqn:E.
  - apply Nat.eqb_eq in E. now rewrite E.
  - apply Nat.eqb_neq in E. apply no_stutter_snoc; [exact H |].
    intros E'. now apply E.
Qed.

Lemma last_cons (i d : nat) (ids : list nat) :
  last (i :: ids) d = last ids i.
Proof.
  revert i d; induction ids as [| n ids IH]; intros i d; [reflexivity |].
  change (last (i :: n :: ids) d) with (last (n :: ids) d).
  now rewrite (IH n d), (IH n i).
Qed.

(** However an object is renumbered, the list of its former identifiers
    followed by the current one never has the same identifier twice in a
    row, and the current identifier is the last one given. *)
Theorem updateID_keeps_changes_only (ID0 : nat) (name0 : string)
    (ids : list nat) :
  no_stutter (history (updates ids (init ID0 name0)))
  /\ ID (updates ids (init ID0 name0)) = last ids ID0.
Proof.
  assert (G : forall o, no_stutter (history o) ->
                no_stutter (history (updates ids o))
                /\ ID (updates ids o) = last ids (ID o)).
  { induction ids as [| i ids IH]; intros o Ho; [now split |].
    unfold updates. cbn [fold_left]. fold (updates ids (updateID i o)).
    destruct (IH (updateID i o) (updateID_history i o Ho)) as [H1 H2].
    split; [exact H1 |]. rewrite H2. cbn [updateID ID].
    symmetry. apply last_cons. }
  apply (G (init ID0 name0)). exact I.
Qed.

(** *** The frames of an object *)

Lemma lookup_append_frame (location : string) (f : nat)
    (d : list (string * list nat)) (k : string) :
  lookup k (append_frame location f d)
  = if String.eqb location k
    then option_map (fun l => if existsb (Nat.eqb f) l then l else l ++ [f])
                    (lookup location d)
    else lookup k d.
Proof.
  induction d as [| [k0 l0] d IH]; simpl.
  - now destruct (String.eqb location k).
  - destruct (String.eqb k0 location) eqn:E0; simpl.
    + apply String.eqb_eq in E0. subst k0.
      now destruct (String.eqb location k).
    + rewrite IH. destruct (String.eqb location k) eqn:E1; [| reflexivity].
      apply String.eqb_eq in E1. subst k. now rewrite E0.
Qed.

Lemma lookup_addFrame (location : string) (f : nat) (o : Object1)
    (k : string) :
  lookup k (frames (addFrame location f o))
  = if String.eqb location k
    then Some (let l := match lookup location (frames o) with
                        | Some l => l
                        | None => []
                        end in
               if existsb (Nat.eqb f) l then l else l ++ [f])
    else lookup k (frames o).
Proof.
  unfold addFrame. cbn [frames]. rewrite lookup_append_frame.
  destruct (String.eqb location k) eqn:E.
  - destruct (lookup location (frames o)) as [l |] eqn:El.
    + now rewrite El.
    + now rewrite SolverFacts.lookup_dict_set_same.
  - destruct (lookup location (frames o)) as [l |] eqn:El; [reflexivity |].
    now apply SolverFacts.lookup_dict_set_other.
Qed.

Lemma existsb_eqb_In (f : nat) (l : list nat) :
  existsb (Nat.eqb f) l = true <-> In f l.
Proof.
  rewrite existsb_exists. split.
  - intros (x & Hx & E). apply Nat.eqb_eq in E. now subst.
  - intros H. exists f. split; [exact H | apply Nat.eqb_refl].
Qed.

(** What the dictionary of frames says about the sightings so far. *)
Lemma addFrame_invariant (location : string) (f : nat) (o : Object1)
    (seen : list (string * nat)) :
  (forall loc,
     match lookup loc (frames o) with
     | Some l => NoDup l /\ l <> [] /\ forall g, In g l <-> In (loc, g) seen
     | None => forall g, ~ In (loc, g) seen
     end) ->
  forall loc,
    match lookup loc (frames (addFrame location f o)) with
    | Some l => NoDup l /\ l <> []
                /\ forall g, In g l <-> In (loc, g) (seen ++ [(location, f)])
    | None => forall g, ~ In (loc, g) (seen ++ [(location, f)])
    end.
Proof.
  intros Inv loc. rewrite lookup_addFrame. specialize (Inv loc).
  destruct (String.eqb location loc) eqn:E.
  - apply String.eqb_eq in E. subst loc. cbv zeta.
    destruct (lookup location (frames o)) as [l |].
    + destruct Inv as (Hnd & Hne & Hin).
      destruct (existsb (Nat.eqb f) l) eqn:Ef.
      * split; [exact Hnd |]. split; [exact Hne |].
        intros g. rewrite in_app_iff, <- Hin. simpl. split; [tauto |].
        intros [H | [[= <-] | []]]; [exact H |].
        now apply existsb_eqb_In.
      * assert (Hf : ~ In f l)
          by (rewrite <- existsb_eqb_In, Ef; discriminate).
        split; [| split].
        -- apply NoDup_app; [exact Hnd | repeat constructor; tauto |].
           intros x Hx [<- | []]. contradiction.
        -- intros E. now apply app_eq_nil in E.
        -- intros g. rewrite !in_app_iff, <- Hin. simpl.
           split; [intros [H | [<- | []]]; auto |].
           intros [H | [[= <-] | []]]; auto.
    + simpl. split; [repeat constructor; tauto |].
      split; [discriminate |].
      intros g. rewrite in_app_iff. simpl. split.
      * intros [<- | []]. auto.
      * intros [H | [[= <-] | []]]; [now apply Inv in H | now left].
  - apply String.eqb_neq in E.
    assert (Hother : forall g, In (loc, g) (seen ++ [(location, f)])
                               <-> In (loc, g) seen).
    { intros g. rewrite in_app_iff. simpl. split; [| tauto].
      intros [H | [[= E' _] | []]]; [exact H | congruence]. }
    destruct (lookup loc (frames o)) as [l |].
    + destruct Inv as (Hnd & Hne & Hin). split; [exact Hnd |].
      split; [exact Hne |]. intros g. now rewrite Hother.
    + intros g. rewrite Hother. apply Inv.
Qed.

(** The frames an object has been seen in are kept per location without
    repetition: after any run of calls of [addFrame], the list of a location
    is not empty, has no frame twice, and holds exactly the frames the object
    was added with at that location. *)
Theorem addFrame_records_each_frame_once (ID0 : nat) (name0 : string)
    (fs : list (string * nat)) (loc : string) :
  match lookup loc (frames (sightings fs (init ID0 name0))) with
  | Some l => NoDup l /\ l <> [] /\ forall f, In f l <-> In (loc, f) fs
  | None => forall f, ~ In (loc, f) fs
  end.
Proof.
  assert (G : forall o seen,
            (forall loc,
               match lookup loc (frames o) with
               | Some l => NoDup l /\ l <> []
                           /\ forall g, In g l <-> In (loc, g) seen
               | None => forall g, ~ In (loc, g) seen
               end) ->
            forall loc,
              match lookup loc (frames (sightings fs o)) with
              | Some l => NoDup l /\ l <> []
                          /\ forall g, In g l <-> In (loc, g) (seen ++ fs)
              | None => forall g, ~ In (loc, g) (seen ++ fs)
              end).
  { induction fs as [| [location f] fs IH]; intros o seen Inv loc'.
    - rewrite app_nil_r. apply Inv.
    - unfold sightings. cbn [fold_left fst snd].
      fold (sightings fs (addFrame location f o)).
      replace (seen ++ (location, f) :: fs)
        with ((seen ++ [(location, f)]) ++ fs)
        by (now rewrite <- app_assoc).
      apply IH. now apply addFrame_invariant. }
  apply (G (init ID0 name0) [] (fun _ _ H => H) loc).
Qed.

Lemma append_frame_twice (location : string) (f : nat)
    (d : list (string * list nat)) :
  append_frame location f (append_frame location f d)
  = append_frame location f d.
Proof.
  induction d as [| [k l] d IH]; simpl; [reflexivity |].
  destruct (String.eqb k location) eqn:E; simpl; rewrite E.
  - f_equal. f_equal.
    destruct (existsb (Nat.eqb f) l) eqn:Ef; [now rewrite Ef |].
    rewrite existsb_app. simpl. now rewrite Nat.eqb_refl, orb_true_r.
  - now rewrite IH.
Qed.

(** Adding a frame that is already recorded at the location changes
    nothing. *)
Theorem addFrame_is_idempotent (location : string) (f : nat) (o : Object1) :
  addFrame location f (addFrame location f o) = addFrame location f o.
Proof.
  unfold addFrame at 1. rewrite lookup_addFrame, String.eqb_refl.
  unfold addFrame. cbn [ID name frames oldIDs].
  now rewrite append_frame_twice.
Qed.

End ObjectFacts.

(** ** Quaternions *)

Module UtilsFacts.
Import Utils.
Local Open Scope R_scope.

(** The two conversions of a quaternion to a matrix give the same matrix
    exactly on the quaternions of length 1. *)
Theorem conversions_agree_on_unit_quaternions (quat : R * R * R * R) :
  quaternion_to_rotation_matrix quat = quaternion_rotation_matrix quat
  <-> norm2 quat = 1.
Proof.
  destruct quat as [[[a b] c] d].
  unfold quaternion_to_rotation_matrix, quaternion_rotation_matrix, norm2.
  split.
  - intros H. injection H. intros. lra.
  - intros H. repeat (apply pair_equal_spec; split); lra.
Qed.

Lemma rotation_dot (a b c d u0 u1 u2 v0 v1 v2 : R) :
  dot (apply (quaternion_to_rotation_matrix (a, b, c, d)) (u0, u1, u2))
      (apply (quaternion_to_rotation_matrix (a, b, c, d)) (v0, v1, v2))
  = dot (u0, u1, u2) (v0, v1, v2)
    + 4 * (1 - norm2 (a, b, c, d))
      * ((b * u0 + c * u1 + d * u2) * (b * v0 + c * v1 + d * v2)
         - (b * b + c * c + d * d) * (u0 * v0 + u1 * v1 + u2 * v2)).
Proof.
  unfold quaternion_to_rotation_matrix, apply, dot, norm2. ring.
Qed.

Lemma rotation_det (a b c d : R) :
  det (quaternion_to_rotation_matrix (a, b, c, d))
  = 1 + 4 * (b * b + c * c + d * d) * (norm2 (a, b, c, d) - 1).
Proof. unfold quaternion_to_rotation_matrix, det, norm2. ring. Qed.

(** The matrix of a quaternion of length 1 is a rotation: it keeps the dot
    product of any two vectors, so lengths and angles, and its determinant
    is 1. *)
Theorem unit_quaternion_gives_rotation (quat : R * R * R * R) :
  norm2 quat = 1 ->
  (forall u v,
     dot (apply (quaternion_to_rotation_matrix quat) u)
         (apply (quaternion_to_rotation_matrix quat) v)
     = dot u v)
  /\ det (quaternion_to_rotation_matrix quat) = 1.
Proof.
  destruct quat as [[[a b] c] d]. intros H. split.
  - intros [[u0 u1] u2] [[v0 v1] v2]. rewrite rotation_dot, H. ring.
  - rewrite rotation_det, H. ring.
Qed.

Lemma unit_quaternion_gives_rotation_witness :
  (forall u v,
     dot (apply (quaternion_to_rotation_matrix (0, 1, 0, 0)) u)
         (apply (quaternion_to_rotation_matrix (0, 1, 0, 0)) v)
     = dot u v)
  /\ det (quaternion_to_rotation_matrix (0, 1, 0, 0)) = 1.
Proof.
  apply (unit_quaternion_gives_rotation (0, 1, 0, 0)).
  unfold norm2. ring.
Defined.

End UtilsFacts.
